(** * nlse_parameter_nn: the data pipeline of the NLSE parameter network

    A shallow embedding of the array utilities of [engine/augment.py],
    [engine/utils.py] and [engine/use.py] and of the bookkeeping of the
    scripts that analyse the trained networks, and the properties of the
    pipeline that they establish.

    Conventions of the embedding.
    - A numpy array is a list along its leading axis; a 2-D array is a list
      of rows.  Samples of a 4-D dataset are kept abstract: the functions
      that handle datasets only move whole samples around.
    - A Python exception is a value of [exn]; a function that can raise
      returns a [result].  The code that reads files, selects axes or runs
      as a script raises further exceptions ([io_exn]) and returns an
      [io].
    - numpy's global random state is threaded explicitly through the
      functions that draw from it.
    - The ratios of [data_split] are binary64 numbers ([spec_float]) with
      the rounded sums and products of IEEE 754, since the rounding
      decides whether the assertion passes and where the cuts fall.
      Elsewhere floating-point values are modelled by exact rationals
      ([Q]); there the rounding of binary64, binary32 and binary16 is
      outside the model, and casts between precisions appear as explicit
      parameters.  The fringe generator needs sine, cosine, square root
      and pi, and works on the real numbers ([R]) of the Standard Library
      instead. *)

From Stdlib Require Import List Arith ZArith QArith Qminmax Qround Qabs.
From Stdlib Require Import Reals.
From Stdlib Require Import Floats.SpecFloat.
From Stdlib Require Import Lia Lqa Permutation Bool.
From Stdlib Require Lra.
From Stdlib Require String Ascii DecimalString.
Import String.StringSyntax Ascii.AsciiSyntax.
Import ListNotations.

Set Implicit Arguments.

Close Scope Q_scope.
Open Scope nat_scope.

#[local] Set Warnings "-register-all".

Delimit Scope string_scope with string.
Delimit Scope char_scope with char.

(** ** Exceptions and results *)

Inductive exn : Type :=
| IndexError          (* index out of bounds *)
| AssertionError      (* a failed [assert] *)
| EmptyReduction      (* ValueError: zero-size array to reduction operation *)
| BroadcastError      (* ValueError: could not broadcast input array *)
| ZeroDivisionError   (* division of Python numbers by zero *)
| OverflowError       (* an integer too large for a float, [int] of inf *)
| NanConversionError  (* ValueError: cannot convert float NaN to integer *)
| HogSizeError.       (* ValueError: the input image is too small ([hog]) *)

Inductive result (A : Type) : Type :=
| Ok (a : A)
| Raise (e : exn).

Arguments Ok {A} a.
Arguments Raise {A} e.

Definition bind {A B : Type} (r : result A) (k : A -> result B) : result B :=
  match r with
  | Ok a => k a
  | Raise e => Raise e
  end.

Notation "x <- r ;; k" := (bind r (fun x => k))
  (at level 61, r at next level, right associativity).

(** ** numpy primitives on the leading axis *)

(** [a[indices]] for an integer index array without negative entries:
    every index is looked up, and one index out of range raises. *)
Fixpoint take {A : Type} (a : list A) (indices : list nat) : result (list A) :=
  match indices with
  | [] => Ok []
  | i :: rest =>
      match nth_error a i with
      | None => Raise IndexError
      | Some x => xs <- take a rest ;; Ok (x :: xs)
      end
  end.

(** [np.repeat(a, k, axis=0)]: every entry is repeated [k] times in place. *)
Definition np_repeat {A : Type} (a : list A) (k : nat) : list A :=
  flat_map (fun x => repeat x k) a.

(** A 2-D array has the shape [(h, w)]: [h] rows of [w] entries each. *)
Definition has_shape {A : Type} (a : list (list A)) (h w : nat) : Prop :=
  length a = h /\ Forall (fun row => length row = w) a.

(** ** engine/augment.py *)

(** The label tuple
    [(number_of_n2, n2_labels, number_of_isat, isat_labels,
      number_of_alpha, alpha_labels)]. *)
Record label_tuple (L : Type) : Type := Labels {
  number_of_n2 : nat;
  n2_labels : list L;
  number_of_isat : nat;
  isat_labels : list L;
  number_of_alpha : nat;
  alpha_labels : list L
}.

Definition augmentation : nat := 16.

(** [data_augmentation(E, labels)].  [shuffle] is [np.random.shuffle] on the
    global random state [g]: it returns the shuffled array and the next
    state. *)
Definition data_augmentation {G A L : Type}
    (shuffle : G -> list nat -> list nat * G) (g : G)
    (E : list A) (labels : label_tuple L)
  : result (list A * label_tuple L) * G :=
  let '(indices, g') := shuffle g (seq 0 (length (n2_labels labels))) in
  (n2 <- take (n2_labels labels) indices ;;
   isat <- take (isat_labels labels) indices ;;
   alpha <- take (alpha_labels labels) indices ;;
   E' <- take E indices ;;
   Ok (np_repeat E' augmentation,
       Labels (number_of_n2 labels) (np_repeat n2 augmentation)
              (number_of_isat labels) (np_repeat isat augmentation)
              (number_of_alpha labels) (np_repeat alpha augmentation)),
   g').

(** A shuffle that always draws the reversal; it stands for one outcome of
    [np.random.shuffle] in concrete runs. *)
Definition reversing_shuffle (g : unit) (l : list nat) : list nat * unit :=
  (rev l, g).

(** ** Python numbers and slices *)

(** A Python float is a binary64 number of IEEE 754: a [spec_float] that
    is valid for 53 bits of precision and the exponent bound 1024.  Sums,
    products and quotients are rounded to the nearest float, a tie to the
    one with the even mantissa. *)
Definition binary64 : Type := spec_float.

Definition b64_add (x y : binary64) : binary64 := SFadd 53 1024 x y.
Definition b64_mul (x y : binary64) : binary64 := SFmul 53 1024 x y.
Definition b64_div (x y : binary64) : binary64 := SFdiv 53 1024 x y.

(** [x == y] on floats. *)
Definition b64_eqb (x y : binary64) : bool := SFeqb x y.

(** The float nearest to an integer. *)
Definition b64_of_Z (n : Z) : binary64 := binary_normalize 53 1024 n 0 false.

Definition b64_one : binary64 := b64_of_Z 1.

(** The float nearest to [n / d], for integers that binary64 holds
    exactly: [b64_ratio 7 10] is what the literal [0.7] denotes. *)
Definition b64_ratio (n d : Z) : binary64 :=
  b64_div (b64_of_Z n) (b64_of_Z d).

(** The number that a finite float stands for. *)
Definition b64_value (x : binary64) : Q :=
  match x with
  | S754_finite s m e =>
      ((if s then inject_Z (Zneg m) else inject_Z (Zpos m)) * Qpower 2 e)%Q
  | _ => 0%Q
  end.

(** The conversion of a Python integer to a float, as in [n * x] for an
    integer [n] and a float [x]. *)
Definition float_of_int (n : Z) : result binary64 :=
  match b64_of_Z n with
  | S754_infinity _ => Raise OverflowError
  | x => Ok x
  end.

(** [int(x)] for a float [x]: truncation toward zero. *)
Definition py_int (x : binary64) : result Z :=
  match x with
  | S754_zero _ => Ok 0%Z
  | S754_finite s m e =>
      let magnitude := Z.shiftl (Zpos m) e in
      Ok (if s then (- magnitude)%Z else magnitude)
  | S754_infinity _ => Raise OverflowError
  | S754_nan => Raise NanConversionError
  end.

(** [int(n * ratio)] for the integer [n] and the float [ratio]. *)
Definition scaled_index (n : nat) (ratio : binary64) : result Z :=
  n <- float_of_int (Z.of_nat n) ;;
  py_int (b64_mul n ratio).

(** The position a slice bound [i] denotes in an array of length [n]: a
    negative bound counts from the end, and bounds are clamped to [0 .. n]. *)
Definition slice_index (n : nat) (i : Z) : nat :=
  if (i <? 0)%Z then Z.to_nat (Z.max 0 (i + Z.of_nat n))
  else Nat.min (Z.to_nat i) n.

(** [a[lo:hi]] along the leading axis; [None] is an omitted bound. *)
Definition slice {A : Type} (a : list A) (lo hi : option Z) : list A :=
  let n := length a in
  let start := match lo with None => 0 | Some i => slice_index n i end in
  let stop := match hi with None => n | Some i => slice_index n i end in
  skipn start (firstn stop a).

(** The entries of [a] at the indices [lo <= i < hi], in order. *)
Definition range_of {A : Type} (lo hi : nat) (a : list A) : list A :=
  skipn lo (firstn hi a).

(** ** engine/utils.py: data_split *)

(** One part of a split: [(data, n2, isat, alpha)]. *)
Definition split_part (A L : Type) : Type :=
  (list A * list L * list L * list L)%type.

(** [data_split(E, n2_labels, isat_labels, alpha_labels, train_ratio,
    validation_ratio, test_ratio)].  The ratios are floats: the sum of the
    assertion and the two products are rounded as Python rounds them. *)
Definition data_split {A L : Type} (E : list A)
    (n2_labels isat_labels alpha_labels : list L)
    (train_ratio validation_ratio test_ratio : binary64)
  : result (split_part A L * split_part A L * split_part A L) :=
  if b64_eqb (b64_add (b64_add train_ratio validation_ratio) test_ratio)
             b64_one then
    let indices := seq 0 (length E) in
    train_index <- scaled_index (length indices) train_ratio ;;
    validation_index <-
      scaled_index (length indices)
                   (b64_add train_ratio validation_ratio) ;;
    let train := slice E None (Some train_index) in
    let validation := slice E (Some train_index) (Some validation_index) in
    let test := slice E (Some validation_index) None in
    let train_n2 := slice n2_labels None (Some train_index) in
    let validation_n2 :=
      slice n2_labels (Some train_index) (Some validation_index) in
    let test_n2 := slice n2_labels (Some validation_index) None in
    let train_isat := slice isat_labels None (Some train_index) in
    let validation_isat :=
      slice isat_labels (Some train_index) (Some validation_index) in
    let test_isat := slice isat_labels (Some validation_index) None in
    let train_alpha := slice alpha_labels None (Some train_index) in
    let validation_alpha :=
      slice alpha_labels (Some train_index) (Some validation_index) in
    let test_alpha := slice alpha_labels (Some validation_index) None in
    Ok ((train, train_n2, train_isat, train_alpha),
        (validation, validation_n2, validation_isat, validation_alpha),
        (test, test_n2, test_isat, test_alpha))
  else Raise AssertionError.

(** ** 2-D arrays of numbers *)

(** A 2-D array, as the list of its rows. *)
Definition image : Type := list (list Q).

(** [x < y] on numbers. *)
Definition Qlt_bool (x y : Q) : bool := negb (Qle_bool y x).

(** [a.shape[-1]] of a 2-D array; an array without rows has no entry to
    index, and its width is never used. *)
Definition width {A : Type} (a : list (list A)) : nat :=
  match a with
  | [] => 0
  | row :: _ => length row
  end.

(** [a[i, j]] for indices that are not negative. *)
Definition getitem2 (a : image) (i j : nat) : result Q :=
  match nth_error a i with
  | None => Raise IndexError
  | Some row =>
      match nth_error row j with
      | None => Raise IndexError
      | Some x => Ok x
      end
  end.

(** The minimum and the maximum of a flat list of numbers; numpy raises on
    an empty one. *)
Definition list_min (l : list Q) : result Q :=
  match l with
  | [] => Raise EmptyReduction
  | x :: rest => Ok (fold_left Qmin rest x)
  end.

Definition list_max (l : list Q) : result Q :=
  match l with
  | [] => Raise EmptyReduction
  | x :: rest => Ok (fold_left Qmax rest x)
  end.

(** [np.min(a)] and [np.max(a)] over all the entries of a 2-D array. *)
Definition np_min (a : image) : result Q := list_min (concat a).
Definition np_max (a : image) : result Q := list_max (concat a).

(** Elementwise operations on a 2-D array. *)
Definition map2d (f : Q -> Q) (a : image) : image := map (map f) a.

Definition np_abs (a : image) : image := map2d Qabs a.

(** ** engine/utils.py: normalize_data and general_extrema *)

(** [normalize_data] on one slice, that is on the two trailing axes:
    [data -= np.min(data)], then [data /= np.max(data)].  Where the maximum
    is 0 numpy divides by zero and stores non-finite values without raising;
    the quotient of the model is then [Q]'s [x / 0], and nothing is stated
    about that case. *)
Definition normalize_slice (data : image) : result image :=
  lo <- np_min data ;;
  let data := map2d (fun x => x - lo)%Q data in
  hi <- np_max data ;;
  let data := map2d (fun x => x / hi)%Q data in
  Ok data.

(** An array of at least two dimensions: a slice, or a stack of arrays
    along one more leading axis. *)
Inductive ndarray : Type :=
| Plane (a : image)
| Stack (l : list ndarray).

Definition mapM {A B : Type} (f : A -> result B) : list A -> result (list B) :=
  fix go (l : list A) : result (list B) :=
    match l with
    | [] => Ok []
    | x :: rest => y <- f x ;; ys <- go rest ;; Ok (y :: ys)
    end.

(** [normalize_data(data)]: the reductions run over [axis=(-2, -1)] with
    [keepdims=True], so every slice is normalised on its own.  The result is
    the input buffer itself, updated in place. *)
Fixpoint normalize_data (data : ndarray) : result ndarray :=
  match data with
  | Plane a => a' <- normalize_slice a ;; Ok (Plane a')
  | Stack l => l' <- mapM normalize_data l ;; Ok (Stack l')
  end.

(** A slice has a range when its maximum after the subtraction of its
    minimum exists and is not zero. *)
Definition has_range (a : image) : bool :=
  match np_min a with
  | Raise _ => false
  | Ok lo =>
      match np_max (map2d (fun x => x - lo)%Q a) with
      | Raise _ => false
      | Ok hi => negb (Qeq_bool hi 0)
      end
  end.

Fixpoint all_slices (p : image -> bool) (x : ndarray) : bool :=
  match x with
  | Plane a => p a
  | Stack l => forallb (all_slices p) l
  end.

(** Elementwise equality of arrays of the same shape. *)
Definition image_eq (a b : image) : Prop := Forall2 (Forall2 Qeq) a b.

Inductive ndarray_eq : ndarray -> ndarray -> Prop :=
| Plane_eq (a b : image) : image_eq a b -> ndarray_eq (Plane a) (Plane b)
| Stack_eq (l l' : list ndarray) :
    Forall2 ndarray_eq l l' -> ndarray_eq (Stack l) (Stack l').

(** The first stage of [general_extrema], lines 57 to 60: the array after
    the in-place subtraction, if any.  Both conditions read the centre
    entry. *)
Definition general_extrema_shift (E : image) : result image :=
  center <- getitem2 E (length E / 2) (width E / 2) ;;
  corner <- getitem2 E 0 0 ;;
  if Qlt_bool corner center then
    m <- np_max E ;; Ok (map2d (fun x => x - m)%Q E)
  else
    center <- getitem2 E (length E / 2) (width E / 2) ;;
    if Qlt_bool center 0 then
      m <- np_min E ;; Ok (map2d (fun x => x - m)%Q E)
    else Ok E.

(** [general_extrema(E)]: the shifted array, then [np.abs]. *)
Definition general_extrema (E : image) : result image :=
  E <- general_extrema_shift E ;;
  Ok (np_abs E).

(** ** engine/utils.py: experiment_noise *)

(** Complex numbers with the arithmetic numpy applies to them. *)
Record complex : Type := Cx { re : Q; im : Q }.

Definition of_real (x : Q) : complex := Cx x 0.

Definition Cadd (a b : complex) : complex :=
  Cx (re a + re b) (im a + im b).

Definition Cmul (a b : complex) : complex :=
  Cx (re a * re b - im a * im b) (re a * im b + im a * re b).

(** The imaginary unit [1j]. *)
Definition Ci : complex := Cx 0 1.

(** An elementwise binary operation on arrays of the same shape. *)
Fixpoint zip_with {A B C : Type} (f : A -> B -> C) (a : list A) (b : list B)
  : list C :=
  match a, b with
  | x :: a', y :: b' => f x y :: zip_with f a' b'
  | _, _ => []
  end.

(** [experiment_noise(beam, poisson_noise_lam, normal_noise_sigma)] on the
    flattened beam.  [poisson g lam n] and [normal g mu sigma n] are
    [np.random.poisson] and [np.random.normal]: [n] draws from the random
    state [g], with the next state.  [astype_complex64] is the final cast. *)
Definition experiment_noise {G : Type}
    (poisson : G -> Q -> nat -> list Z * G)
    (normal : G -> Q -> Q -> nat -> list Q * G)
    (astype_complex64 : complex -> complex)
    (g : G) (beam : list complex) (poisson_noise_lam normal_noise_sigma : Q)
  : list complex * G :=
  let '(draws, g) := poisson g poisson_noise_lam (length beam) in
  let poisson_noise :=
    map (fun p => inject_Z p * poisson_noise_lam * (3 # 4))%Q draws in
  let '(normal_noise, g) := normal g 0%Q normal_noise_sigma (length beam) in
  let total_noise := zip_with Qplus normal_noise poisson_noise in
  let noisy_beam :=
    zip_with Cadd
      (map of_real (zip_with Qplus (map re beam) total_noise))
      (map (fun y => Cmul Ci (of_real y)) (map im beam)) in
  let noisy_beam := map astype_complex64 noisy_beam in
  (noisy_beam, g).

(** Draws that repeat one value; they stand for one outcome of the
    samplers in concrete runs. *)
Definition constant_poisson (k : Z) (g : unit) (lam : Q) (n : nat)
  : list Z * unit := (repeat k n, g).

Definition constant_normal (x : Q) (g : unit) (mu sigma : Q) (n : nat)
  : list Q * unit := (repeat x n, g).

(** ** engine/utils.py: line_noise *)

(** A 2-D array of real numbers. *)
Definition rimage : Type := list (list R).

(** [np.radians]. *)
Definition radians (angle : R) : R := (angle * (PI / 180))%R.

(** [np.arange(n)], as numbers. *)
Definition arange (n : nat) : list R := map INR (seq 0 n).

(** [np.meshgrid(xs, ys)]: both grids have one row per entry of [ys]; the
    first repeats [xs] in every row, the second holds its [ys] entry all
    along the row. *)
Definition meshgrid (xs ys : list R) : rimage * rimage :=
  (map (fun _ => xs) ys, map (fun y => map (fun _ => y) xs) ys).

Definition rmap2d (f : R -> R) (a : rimage) : rimage := map (map f) a.

Definition radd2d (a b : rimage) : rimage := zip_with (zip_with Rplus) a b.

(** The spatial frequency of the fringes. *)
Definition wave_frequency (num_lines : Z) (height width : nat) : R :=
  let diagonal_length := sqrt (INR (width ^ 2 + height ^ 2)) in
  (IZR num_lines * 2 * PI / diagonal_length)%R.

(** [line_noise(image, num_lines, amplitude, angle)]. *)
Definition line_noise (image : rimage) (num_lines : Z) (amplitude angle : R)
  : rimage :=
  let height := length image in
  let width := width image in
  let angle_rad := radians angle in
  let '(X, Y) := meshgrid (arange width) (arange height) in
  let X_rotated :=
    radd2d (rmap2d (fun x => x * cos angle_rad)%R X)
           (rmap2d (fun y => y * sin angle_rad)%R Y) in
  let lines_pattern :=
    rmap2d
      (fun u =>
         amplitude * sin (u * wave_frequency num_lines height width))%R
      X_rotated in
  let noisy_image := radd2d image lines_pattern in
  noisy_image.

(** The entry [a[y, x]] of a 2-D array of reals. *)
Definition at2 (a : rimage) (y x : nat) : R := nth x (nth y a []) 0%R.

(** ** engine/use.py: get_parameters *)

(** [nlse_settings], the tuple
    [(n2, in_power, alpha, isat, waist, nl_length, delta_z, length)]. *)
Record nlse_settings : Type := Settings {
  n2 : list Q;
  in_power : Q;
  alpha : list Q;
  isat : list Q;
  waist : Q;
  nl_length : Q;
  delta_z : Q;
  length_ : Q
}.

(** A 4-D array [(batch, channels, height, width)]. *)
Definition tensor : Type := list (list image).

Definition np_zeros2 (h w : nat) : image := repeat (repeat 0%Q w) h.

Definition np_zeros4 (n c h w : nat) : tensor :=
  repeat (repeat (np_zeros2 h w) c) n.

Fixpoint set_nth {A : Type} (i : nat) (x : A) (l : list A) : list A :=
  match l, i with
  | [], _ => []
  | _ :: rest, 0 => x :: rest
  | y :: rest, S i' => y :: set_nth i' x rest
  end.

(** Broadcasting of a 2-D source to the shape [(h, w)] of the slot it is
    assigned to: an axis of the source fits when it has the length of the
    slot or the length 1, in which case its one entry is repeated. *)
Definition broadcast_row (w : nat) (row : list Q) : result (list Q) :=
  if length row =? w then Ok row
  else match row with
       | [x] => Ok (repeat x w)
       | _ => Raise BroadcastError
       end.

Definition broadcast_to (h w : nat) (src : image) : result image :=
  rows <- mapM (broadcast_row w) src ;;
  if length rows =? h then Ok rows
  else match rows with
       | [row] => Ok (repeat row h)
       | _ => Raise BroadcastError
       end.

(** [E[b, c, :, :] = src]. *)
Definition setitem_channel (E : tensor) (b c : nat) (src : image)
  : result tensor :=
  match nth_error E b with
  | None => Raise IndexError
  | Some sample =>
      match nth_error sample c with
      | None => Raise IndexError
      | Some slot =>
          new <- broadcast_to (length slot) (width slot) src ;;
          Ok (set_nth b (set_nth c new sample) E)
      end
  end.

(** [a / b] on Python integers. *)
Definition py_truediv (a b : nat) : result Q :=
  if b =? 0 then Raise ZeroDivisionError
  else Ok (inject_Z (Z.of_nat a) / inject_Z (Z.of_nat b))%Q.

(** [round(x)]: to the nearest integer, a tie to the even one. *)
Definition py_round (x : Q) : Z :=
  let f := Qfloor x in
  let d := (x - inject_Z f)%Q in
  if Qlt_bool d (1 # 2) then f
  else if Qlt_bool (1 # 2) d then (f + 1)%Z
  else if Z.even f then f else (f + 1)%Z.

(** The length [scipy.ndimage.zoom] gives to an axis of length [n] zoomed by
    the factor [z]: [int(round(n * z))]. *)
Definition zoomed_length (n : nat) (z : Q) : nat :=
  Z.to_nat (py_round (inject_Z (Z.of_nat n) * z)%Q).

(** The collaborators of [get_parameters] that lie outside the repository
    or outside exact arithmetic: the modulus and the argument of a complex
    number ([np.abs], [np.angle]), [scipy.ndimage.zoom], the pair of
    results that [skimage]'s [hog] computes for an image it accepts, the
    trained network, which returns its three output arrays, and the cast to
    float16. *)
Record collaborators : Type := Collaborators {
  magnitude : complex -> Q;
  angle_of : complex -> Q;
  zoom : image -> Q * Q -> image;
  hog : image -> list Q * image;
  cnn : tensor -> image * image * image;
  float16 : Q -> Q
}.

(** What is assumed of them: [zoom] resizes every axis by its factor, the
    image of [hog] has the shape of its input when the input has at least
    twelve rows and twelve columns, and the network returns one row with
    one value per sample. *)
Definition zoom_law (x : collaborators) : Prop :=
  forall (a : image) (zh zw : Q) (h w : nat),
    has_shape a h w ->
    has_shape (zoom x a (zh, zw)) (zoomed_length h zh) (zoomed_length w zw).

Definition hog_law (x : collaborators) : Prop :=
  forall (a : image) (h w : nat),
    has_shape a h w -> 12 <= h -> 12 <= w ->
    has_shape (snd (hog x a)) h w.

(** [hog(a[np.newaxis, :, :], orientations=8, pixels_per_cell=(6, 6),
    cells_per_block=(2, 2), visualize=True, channel_axis=0)].  [skimage]
    counts the cells of six pixels along each axis and the blocks of two
    cells, and raises a [ValueError] when an axis has no block: the image
    is too small. *)
Definition skimage_hog (x : collaborators) (a : image)
  : result (list Q * image) :=
  let n_cells_row := length a / 6 in
  let n_cells_col := width a / 6 in
  if (n_cells_row <? 2) || (n_cells_col <? 2) then Raise HogSizeError
  else Ok (hog x a).

Definition cnn_law (x : collaborators) : Prop :=
  forall E : tensor,
    let '(o1, o2, o3) := cnn x E in
    has_shape o1 (length E) 1 /\ has_shape o2 (length E) 1 /\
    has_shape o3 (length E) 1.

(** Lines 72 to 76, once for the modulus and once for the argument of the
    field: the image is zoomed to the training resolution, normalised and
    cast to float16. *)
Definition resample (x : collaborators) (part : complex -> Q)
    (field : list (list complex)) (resolution_training : nat) : result image :=
  zh <- py_truediv resolution_training (length field) ;;
  zw <- py_truediv resolution_training (width field) ;;
  normalized <- normalize_slice (zoom x (map (map part) field) (zh, zw)) ;;
  Ok (map2d (float16 x) normalized).

(** Lines 85 to 89: the four images are written into the channels of a
    fresh float16 array of zeros of the shape (1, 4, 256, 256). *)
Definition assemble_input (density_experiment hog_density_experiment
    phase_experiment hog_phase_experiment : image) : result tensor :=
  let E := np_zeros4 1 4 256 256 in
  E <- setitem_channel E 0 0 density_experiment ;;
  E <- setitem_channel E 0 1 hog_density_experiment ;;
  E <- setitem_channel E 0 2 phase_experiment ;;
  E <- setitem_channel E 0 3 hog_phase_experiment ;;
  Ok E.

(** Lines 72 to 89: the array handed to the network. *)
Definition network_input (x : collaborators) (field : list (list complex))
    (resolution_training : nat) : result tensor :=
  density_experiment <- resample x (magnitude x) field resolution_training ;;
  phase_experiment <- resample x (angle_of x) field resolution_training ;;
  hog_phase <- skimage_hog x phase_experiment ;;
  let '(fd, hog_phase_experiment) := hog_phase in
  hog_density <- skimage_hog x density_experiment ;;
  let '(fd, hog_density_experiment) := hog_density in
  assemble_input density_experiment
                 (map2d (float16 x) hog_density_experiment)
                 phase_experiment
                 (map2d (float16 x) hog_phase_experiment).

(** A 4-D array has the shape [(n, c, h, w)]. *)
Definition tensor_shape (E : tensor) (n c h w : nat) : Prop :=
  length E = n /\
  Forall (fun sample =>
            length sample = c /\ Forall (fun a => has_shape a h w) sample) E.

(** Lines 51 to 97 of [get_parameters]: the triple
    [(computed_n2, computed_isat, computed_alpha)].  [field] is the array
    loaded from [exp_path]; the weights loaded from [saving_path], whose
    file name is all that the grid sizes and [resolution_out] are used for
    here, are part of [cnn]. *)
Definition computed_parameters {Cam : Type} (x : collaborators)
    (field : list (list complex)) (resolution_out : nat)
    (settings : nlse_settings) (cameras : Cam * Cam * Cam * nat)
  : result (Q * Q * Q) :=
  let '(_, _, _, resolution_training) := cameras in
  min_n2 <- list_min (n2 settings) ;;
  max_isat <- list_max (isat settings) ;;
  max_alpha <- list_max (alpha settings) ;;
  E <- network_input x field resolution_training ;;
  let '(outputs_n2, outputs_isat, outputs_alpha) := cnn x E in
  output_n2 <- getitem2 outputs_n2 0 0 ;;
  let computed_n2 := (output_n2 * min_n2)%Q in
  output_isat <- getitem2 outputs_isat 0 0 ;;
  let computed_isat := (output_isat * max_isat)%Q in
  output_alpha <- getitem2 outputs_alpha 0 0 ;;
  let computed_alpha := (output_alpha * max_alpha)%Q in
  Ok (computed_n2, computed_isat, computed_alpha).

(** The outcome of a call that can also end with the [TypeError] Python
    raises when the arguments of a call do not fit the parameters of the
    function. *)
Inductive outcome (A : Type) : Type :=
| Returns (a : A)
| Raises (e : exn)
| RaisesTypeError.

Arguments Returns {A} a.
Arguments Raises {A} e.
Arguments RaisesTypeError {A}.

(** A call with positional arguments only of a function whose parameters
    have no default and that takes no [*args]: the body runs when there is
    one argument for every parameter. *)
Definition call_positional {V R : Type} (parameters : list String.string)
    (body : list V -> outcome R) (arguments : list V) : outcome R :=
  if length arguments =? length parameters then body arguments
  else RaisesTypeError.

(** The parameters of [plot_results], engine/utils.py lines 311 to 321. *)
Definition plot_results_parameters : list String.string :=
  ["E"; "density_experiment"; "phase_experiment"; "numbers"; "cameras";
   "number_of_n2"; "number_of_isat"; "number_of_alpha";
   "saving_path"]%string.

(** The values that [get_parameters] passes on. *)
Inductive argument (Cam : Type) : Type :=
| ArgTensor (E : tensor)
| ArgImage (a : image)
| ArgNumbers (numbers : nlse_settings)
| ArgCameras (cameras : Cam * Cam * Cam * nat)
| ArgInt (n : nat)
| ArgPath (path : String.string).

Arguments ArgTensor {Cam} E.
Arguments ArgImage {Cam} a.
Arguments ArgNumbers {Cam} numbers.
Arguments ArgCameras {Cam} cameras.
Arguments ArgInt {Cam} n.
Arguments ArgPath {Cam} path.

(** [get_parameters].  After the triple is computed, and when
    [plot_generate_compare] is set, lines 103 to 107 regenerate a field by
    [data_creation], of engine/generate.py, and call [plot_results] with
    the regenerated field, the four images of lines 72 to 82, the numbers,
    the cameras, the three grid sizes and the saving path; then the triple
    is returned.  [plot_results_body] is the body of [plot_results].  The
    prints are left out. *)
Definition get_parameters {Cam : Type} (x : collaborators)
    (data_creation : nlse_settings -> Cam * Cam * Cam * nat -> result tensor)
    (plot_results_body : list (argument Cam) -> outcome unit)
    (field : list (list complex)) (saving_path : String.string)
    (resolution_out : nat) (settings : nlse_settings)
    (cameras : Cam * Cam * Cam * nat) (plot_generate_compare : bool)
  : outcome (Q * Q * Q) :=
  let '(_, _, _, resolution_training) := cameras in
  match computed_parameters x field resolution_out settings cameras with
  | Raise e => Raises e
  | Ok (computed_n2, computed_isat, computed_alpha) =>
      if plot_generate_compare then
        let numbers :=
          Settings [computed_n2] (in_power settings) [computed_alpha]
                   [computed_isat] (waist settings) (nl_length settings)
                   (delta_z settings) (length_ settings) in
        match data_creation numbers cameras with
        | Raise e => Raises e
        | Ok E =>
            match resample x (magnitude x) field resolution_training,
                  resample x (angle_of x) field resolution_training with
            | Ok density_experiment, Ok phase_experiment =>
                let hog_phase_experiment := snd (hog x phase_experiment) in
                let hog_density_experiment := snd (hog x density_experiment) in
                match call_positional plot_results_parameters
                        plot_results_body
                        [ArgTensor E; ArgImage density_experiment;
                         ArgImage hog_density_experiment;
                         ArgImage phase_experiment;
                         ArgImage hog_phase_experiment;
                         ArgNumbers numbers; ArgCameras cameras;
                         ArgInt (length (n2 settings));
                         ArgInt (length (isat settings));
                         ArgInt (length (alpha settings));
                         ArgPath saving_path] with
                | Returns _ =>
                    Returns (computed_n2, computed_isat, computed_alpha)
                | Raises e => Raises e
                | RaisesTypeError => RaisesTypeError
                end
            | Raise e, _ => Raises e
            | _, Raise e => Raises e
            end
        end
      else Returns (computed_n2, computed_isat, computed_alpha)
  end.

(** Stand-ins for the collaborators in concrete runs: the squared modulus,
    the imaginary part, a nearest-neighbour zoom, a descriptor that copies
    its image, a network that answers (1/2, 1/4, 1/8) for every sample, and
    an exact cast. *)
Definition nearest_zoom (a : image) (z : Q * Q) : image :=
  let h' := zoomed_length (length a) (fst z) in
  let w' := zoomed_length (width a) (snd z) in
  map (fun i =>
         map (fun j =>
                nth (j * width a / w') (nth (i * length a / h') a []) 0%Q)
             (seq 0 w'))
      (seq 0 h').

Definition stand_ins : collaborators :=
  Collaborators
    (fun c => re c * re c + im c * im c)%Q
    im
    nearest_zoom
    (fun a => ([], a))
    (fun E => (map (fun _ => [1 # 2]) E, map (fun _ => [1 # 4]) E,
               map (fun _ => [1 # 8]) E))%Q
    (fun v => v).

(** A [data_creation] that returns an array of zeros and a body of
    [plot_results] that returns, for concrete runs. *)
Definition no_data_creation (numbers : nlse_settings)
    (cameras : nat * nat * nat * nat) : result tensor :=
  Ok (np_zeros4 1 2 2 2).

Definition no_plot (arguments : list (argument nat)) : outcome unit :=
  Returns tt.

(** A 2 x 2 field and a small parameter grid for concrete runs. *)
Definition example_field : list (list complex) :=
  [[Cx 1 2; Cx 0 1]; [Cx 3 1; Cx 2 2]]%Q.

Definition example_settings : nlse_settings :=
  Settings [-5 # 10; -1 # 10]%Q 1%Q [10; 20]%Q [5; 50]%Q 1%Q 1%Q 1%Q 1%Q.

(** ** Further definitions: what the dataset functions keep *)

(** The samples of a dataset, each paired with its three labels. *)
Definition zip_samples {A L : Type} (E : list A) (labels : label_tuple L)
  : list (A * (L * (L * L))) :=
  combine E (combine (n2_labels labels)
                     (combine (isat_labels labels) (alpha_labels labels))).

(** ** Further definitions: arrays of numbers *)

(** An elementwise function on an array with leading axes. *)
Fixpoint nd_map (f : Q -> Q) (x : ndarray) : ndarray :=
  match x with
  | Plane a => Plane (map2d f a)
  | Stack l => Stack (map (nd_map f) l)
  end.

(** A slice has entries; numpy refuses to reduce one that has none. *)
Definition has_entries (a : image) : bool :=
  match concat a with
  | [] => false
  | _ :: _ => true
  end.

(** Every entry of a slice lies in [0, 1], and both bounds are attained. *)
Definition spans_unit_interval (a : image) : bool :=
  forallb (fun v => Qle_bool 0 v && Qle_bool v 1) (concat a)
  && existsb (fun v => Qeq_bool v 0) (concat a)
  && existsb (fun v => Qeq_bool v 1) (concat a).

(** No leading axis of the array is empty.  An array with an empty leading
    axis holds no slice, so that the nested lists do not record the shape
    of its slices, on which numpy's reductions depend. *)
Fixpoint no_empty_axis (x : ndarray) : bool :=
  match x with
  | Plane _ => true
  | Stack l => negb (length l =? 0) && forallb no_empty_axis l
  end.

(** ** Further definitions: the array handed to the network *)

(** [E[b, c, :, :]], read. *)
Definition getitem_channel (E : tensor) (b c : nat) : result image :=
  match nth_error E b with
  | None => Raise IndexError
  | Some sample =>
      match nth_error sample c with
      | None => Raise IndexError
      | Some slot => Ok slot
      end
  end.

(** ** engine/utils.py: elastic_saltpepper *)

(** [random.randrange(start, stop, step)] for [start < stop] and a positive
    [step], as the standard library computes it: the number of values in
    the range is counted and one of them is drawn through [randbelow],
    which returns a number below its argument.  (An empty range raises
    [ValueError]; the calls below have none.) *)
Definition randrange {G : Type} (randbelow : G -> nat -> nat * G) (g : G)
    (start stop step : nat) : nat * G :=
  let n := (stop - start + step - 1) / step in
  let '(k, g) := randbelow g n in
  (start + step * k, g).

(** [random.uniform(a, b)]: [a + (b - a) * random()]. *)
Definition uniform {G : Type} (random : G -> Q * G) (g : G) (a b : Q)
  : Q * G :=
  let '(r, g) := random g in
  ((a + (b - a) * r)%Q, g).

(** The arguments of the two kornia transforms of the pipeline. *)
Record elastic_transform : Type := RandomElasticTransform {
  elastic_kernel_size : nat;
  elastic_sigma : nat * nat;
  elastic_alpha : nat * nat;
  elastic_p : Q
}.

Record salt_and_pepper_noise : Type := RandomSaltAndPepperNoise {
  noise_amount : Q;
  noise_salt_vs_pepper : Q * Q;
  noise_p : Q
}.

(** [elastic_saltpepper()]: the two sigmas are drawn first, then the amount
    of salt and pepper; the [torch.nn.Sequential] is the pair of the two
    transforms. *)
Definition elastic_saltpepper {G : Type} (randbelow : G -> nat -> nat * G)
    (random : G -> Q * G) (g : G)
  : (elastic_transform * salt_and_pepper_noise) * G :=
  let '(sigma_0, g) := randrange randbelow g 35 42 2 in
  let '(sigma_1, g) := randrange randbelow g 35 42 2 in
  let elastic_sigma := (sigma_0, sigma_1) in
  let elastic_alpha := (1, 1) in
  let '(salt_pepper, g) := uniform random g (1 # 100) (11 # 100) in
  ((RandomElasticTransform 51 elastic_sigma elastic_alpha (1 # 2),
    RandomSaltAndPepperNoise salt_pepper (1 # 2, 1 # 2)%Q (2 # 10)),
   g).

(** Draws that stand for one outcome of the generator in concrete runs. *)
Definition last_below (g : unit) (n : nat) : nat * unit := (n - 1, g).

Definition half_random (g : unit) : Q * unit := ((1 # 2)%Q, g).

(** ** single_power/n2_finder_analysis_single_power.py: analysis *)

(** The exceptions of the report reader, of the plots and of the scripts:
    those of [exn], and seven more. *)
Inductive io_exn : Type :=
| FileNotFoundError   (* [open] of a file that does not exist *)
| ValueError          (* a value that a function does not accept *)
| UnboundLocalError   (* a variable read before it is bound *)
| TypeError           (* a subscript on an object that has none *)
| KeyError            (* a key that a dict does not hold *)
| AttributeError      (* a method that an object does not have *)
| NameError           (* a name of a module read before it is bound *)
| Exn (e : exn).

Inductive io (A : Type) : Type :=
| Return (a : A)
| Throw (e : io_exn).

Arguments Return {A} a.
Arguments Throw {A} e.

Definition io_bind {A B : Type} (r : io A) (k : A -> io B) : io B :=
  match r with
  | Return a => k a
  | Throw e => Throw e
  end.

Notation "x <~ r ;; k" := (io_bind r (fun x => k))
  (at level 61, r at next level, right associativity).

Notation "a +++ b" := (String.append a b)
  (at level 60, right associativity) : string_scope.

(** [for x in xs: body], on the local variables [s] that the body
    rebinds. *)
Fixpoint for_each {X S : Type} (xs : list X) (body : S -> X -> io S) (s : S)
  : io S :=
  match xs with
  | [] => Return s
  | x :: xs' => s' <~ body s x ;; for_each xs' body s'
  end.

(** Reading a local variable: [None] is a variable that no statement has
    bound yet. *)
Definition load {A : Type} (v : option A) : io A :=
  match v with
  | Some a => Return a
  | None => Throw UnboundLocalError
  end.

(** [l[i]] on a list, for [i >= 0]. *)
Definition getitem {A : Type} (l : list A) (i : nat) : io A :=
  match nth_error l i with
  | Some a => Return a
  | None => Throw (Exn IndexError)
  end.

(** A Python dict with string keys, in insertion order, and [d[k] = v]. *)
Definition dict (V : Type) : Type := list (String.string * V).

Fixpoint dict_setitem {V : Type} (d : dict V) (k : String.string) (v : V)
  : dict V :=
  match d with
  | [] => [(k, v)]
  | (k', v') :: d' =>
      if String.eqb k' k then (k', v) :: d'
      else (k', v') :: dict_setitem d' k v
  end.

(** [s.split(sep)] for a separator of one character: the first field and
    the fields after it. *)
Fixpoint split_fields (sep : Ascii.ascii) (s : String.string)
  : String.string * list String.string :=
  match s with
  | String.EmptyString => (String.EmptyString, [])
  | String.String c s' =>
      let '(field, fields) := split_fields sep s' in
      if Ascii.eqb c sep then (String.EmptyString, field :: fields)
      else (String.String c field, fields)
  end.

Definition str_split (sep : Ascii.ascii) (s : String.string)
  : list String.string :=
  let '(field, fields) := split_fields sep s in field :: fields.

(** [sub in s]. *)
Fixpoint str_contains (sub s : String.string) : bool :=
  String.prefix sub s
  || match s with
     | String.EmptyString => false
     | String.String _ s' => str_contains sub s'
     end.

(** The first loop over the lines of a report: [count] is the number of
    lines before the first one that contains "TESTING". *)
Fixpoint count_lines (lines : list String.string) (count : nat) : nat :=
  match lines with
  | [] => count
  | line :: lines' =>
      if str_contains "TESTING"%string line then count
      else count_lines lines' (S count)
  end.

Definition data_types : list String.string :=
  ["amp"; "amp_pha"; "amp_pha_unwrap"; "pha"; "pha_unwrap";
   "amp_pha_pha_unwrap"]%string.

(** [f"model_resnetv{model_index}_1powers"]. *)
Definition model_version_of (model_index : nat) : String.string :=
  ("model_resnetv"
   +++ DecimalString.NilEmpty.string_of_uint (Nat.to_uint model_index)
   +++ "_1powers")%string.

Section Analysis.

(** The files: [readlines path] is [open(path, 'r').readlines()], the lines
    of the file with their line ends, or [None] when there is no such
    file. *)
Variable readlines : String.string -> option (list String.string).

(** [str] and [float] of Python on floating-point numbers. *)
Variable py_str : Q -> String.string.
Variable py_float : String.string -> option Q.

Definition open_readlines (file : String.string) : io (list String.string) :=
  match readlines file with
  | Some lines => Return lines
  | None => Throw FileNotFoundError
  end.

Definition float (s : String.string) : io Q :=
  match py_float s with
  | Some x => Return x
  | None => Throw ValueError
  end.

(** The path of the report of one power, data type and model. *)
Definition report_file (path : String.string) (power : Q)
    (data_type model_version : String.string) : String.string :=
  let stamp :=
    ("power" +++ String.substring 0 4 (py_str power) +++ "_" +++ data_type
     +++ "_" +++ model_version)%string in
  let new_path := (path +++ "/" +++ stamp +++ "_training")%string in
  (new_path +++ "/testing.txt")%string.

(** The body of the loop over [power_values]; [lists] is
    [(power_list_accuracy, power_list_index_error)]. *)
Definition read_report (path : String.string) (data_types_index : nat)
    (model_version : String.string) (lists : list Q * list Q) (power : Q)
  : io (list Q * list Q) :=
  let '(power_list_accuracy, power_list_index_error) := lists in
  data_type <~ getitem data_types data_types_index ;;
  let file := report_file path power data_type model_version in
  lines <~ open_readlines file ;;
  let count := count_lines lines 0 in
  lines <~ open_readlines file ;;
  line <~ getitem lines (count + 2) ;;
  let accuracy :=
    hd String.EmptyString
       (str_split "%"%char
          (last (str_split " "%char line) String.EmptyString)) in
  a <~ float accuracy ;;
  let power_list_accuracy := power_list_accuracy ++ [a] in
  if String.length accuracy =? String.length "100.00"%string then
    Return (power_list_accuracy, power_list_index_error ++ [0%Q])
  else
    line <~ getitem lines (count + 13) ;;
    e <~ float (hd String.EmptyString
                   (str_split "010"%char
                      (last (str_split " "%char line) String.EmptyString))) ;;
    Return (power_list_accuracy, power_list_index_error ++ [e]).

(** The local variables of [analysis] that outlive an iteration. *)
Record locals : Type := Locals {
  data_types_index : option nat;
  models : option (dict (dict (list Q)));
  model_version : option String.string;
  model : option (dict (list Q))
}.

(** The body of the loop over [model_index]. *)
Definition model_loop (path : String.string) (power_values : list Q)
    (s : locals) (model_index : nat) : io locals :=
  let model_version := model_version_of model_index in
  let model := [] in
  lists <~ for_each power_values
             (fun lists power =>
                data_types_index <~ load (data_types_index s) ;;
                read_report path data_types_index model_version lists power)
             ([], []) ;;
  let model := dict_setitem model "accuracy"%string (fst lists) in
  let model := dict_setitem model "index_error"%string (snd lists) in
  Return (Locals (data_types_index s) (models s)
                 (Some model_version) (Some model)).

(** The body of the loop over [data_types_index]: the loop over the
    models, and after it [models[model_version] = model]. *)
Definition data_type_loop (path : String.string) (power_values : list Q)
    (s : locals) (index : nat) : io locals :=
  let s := Locals (Some index) (Some []) (model_version s) (model s) in
  s <~ for_each (seq 2 4) (model_loop path power_values) s ;;
  model_ <~ load (model s) ;;
  models_ <~ load (models s) ;;
  model_version_ <~ load (model_version s) ;;
  Return (Locals (data_types_index s)
                 (Some (dict_setitem models_ model_version_ model_))
                 (model_version s) (model s)).

(** Lines 10 to 48 of [analysis]: the dict [data_type_results].  After
    the loop over the data types comes
    [data_type_results[data_types[data_types_index]] = models]. *)
Definition analysis_results (path : String.string) (power_values : list Q)
  : io (dict (dict (dict (list Q)))) :=
  let data_type_results := [] in
  s <~ for_each (seq 0 (length data_types))
         (data_type_loop path power_values) (Locals None None None None) ;;
  models_ <~ load (models s) ;;
  data_types_index_ <~ load (data_types_index s) ;;
  data_type <~ getitem data_types data_types_index_ ;;
  Return (dict_setitem data_type_results data_type models_).

(** Lines 50 and 51: [pd.DataFrame.from_dict(data_type_results,
    orient="columns")] and [df.to_json(file)], which write the dict to the
    file or raise. *)
Variable to_json : dict (dict (dict (list Q))) -> String.string -> io unit.

(** [analysis(path, power_values)]. *)
Definition analysis (path : String.string) (power_values : list Q)
  : io unit :=
  data_type_results <~ analysis_results path power_values ;;
  to_json data_type_results
          (path +++ "/model_analysis_single_power.json")%string.

End Analysis.

(** ** Further definitions: the reports of one data type and one model *)

(** The loop over [power_values] for the data type at [data_types_index]
    and the model [model_index], from empty lists. *)
Definition read_reports
    (readlines : String.string -> option (list String.string))
    (py_str : Q -> String.string) (py_float : String.string -> option Q)
    (path : String.string) (power_values : list Q)
    (data_types_index model_index : nat) : io (list Q * list Q) :=
  for_each power_values
    (read_report readlines py_str py_float path data_types_index
       (model_version_of model_index))
    ([], []).

(** A tree of reports in which every report is the same file, and the
    [float] that reads its numbers; they stand for the disk in concrete
    runs. *)
Definition sample_report : list String.string :=
  ["epochs: 100" +++ String.String "010"%char String.EmptyString;
   "---- TESTING ----" +++ String.String "010"%char String.EmptyString;
   String.String "010"%char String.EmptyString;
   "Average accuracy: 98.50%" +++ String.String "010"%char String.EmptyString;
   "a"; "b"; "c"; "d"; "e"; "f"; "g"; "h"; "i"; "j";
   "Average index error: 0.25" +++ String.String "010"%char String.EmptyString
  ]%string.

Definition sample_float (s : String.string) : option Q :=
  if String.eqb s "98.50" then Some (197 # 2)%Q
  else if String.eqb s "0.25" then Some (1 # 4)%Q
  else None.

Definition sample_str (x : Q) : String.string := "0.02"%string.

(** ** engine/utils.py: plot_generated_set *)

(** What [plt.subplots(nrows, ncols)] returns beside the figure.  An [Axes]
    is named by its place (row, column) in the grid of the figure.  With
    the default [squeeze=True] a grid of one place gives the [Axes] itself,
    a grid of one row or of one column a 1-D array, and any other grid a
    2-D array. *)
Inductive axes_array : Type :=
| Axes (place : nat * nat)
| Axes1D (axes : list (nat * nat))
| Axes2D (axes : list (list (nat * nat))).

Definition subplots (nrows ncols : nat) : io axes_array :=
  if (nrows =? 0) || (ncols =? 0) then Throw ValueError
  else
    let grid :=
      map (fun row => map (fun col => (row, col)) (seq 0 ncols))
          (seq 0 nrows) in
    if (nrows =? 1) && (ncols =? 1) then Return (Axes (0, 0))
    else if (nrows =? 1) || (ncols =? 1) then Return (Axes1D (concat grid))
    else Return (Axes2D grid).

(** [axes[i]] and [axes[i, j]] for indices that are not negative. *)
Definition axes_getitem (axes : axes_array) (i : nat) : io axes_array :=
  match axes with
  | Axes _ => Throw TypeError
  | Axes1D l => ax <~ getitem l i ;; Return (Axes ax)
  | Axes2D rows => row <~ getitem rows i ;; Return (Axes1D row)
  end.

Definition axes_getitem2 (axes : axes_array) (i j : nat) : io axes_array :=
  match axes with
  | Axes _ => Throw TypeError
  | Axes1D _ => Throw (Exn IndexError)
  | Axes2D rows =>
      row <~ getitem rows i ;; ax <~ getitem row j ;; Return (Axes ax)
  end.

(** The [ax] on which [plot_generated_set] draws the density of the pair
    [(n2_index, isat_index)]. *)
Definition density_ax (number_of_n2 number_of_isat : nat)
    (axes_density : axes_array) (n2_index isat_index : nat) : io axes_array :=
  if (number_of_n2 =? 1) && (number_of_isat =? 1) then Return axes_density
  else if (1 <? number_of_n2) && (1 <? number_of_n2) then
    axes_getitem2 axes_density n2_index isat_index
  else if 1 <? number_of_n2 then axes_getitem axes_density n2_index
  else axes_getitem axes_density isat_index.

(** The [ax] on which it draws the phase of the pair. *)
Definition phase_ax (number_of_n2 number_of_isat : nat)
    (axes_phase : axes_array) (n2_index isat_index : nat) : io axes_array :=
  if (number_of_n2 =? 1) && (number_of_isat =? 1) then Return axes_phase
  else if (1 <? number_of_n2) && (1 <? number_of_isat) then
    axes_getitem2 axes_phase n2_index isat_index
  else if 1 <? number_of_n2 then axes_getitem axes_phase n2_index
  else axes_getitem axes_phase isat_index.

(** The calls of matplotlib that [plot_generated_set] makes on a figure, or
    on the axes it has selected for the pair [(n2_index, isat_index)] of
    the figure of [alpha_index]. *)
Inductive channel : Type := Density | Phase.

Inductive plot_call : Type :=
| Suptitle (c : channel) (alpha_index : nat)
| Imshow (c : channel) (ax : nat * nat) (n2_index isat_index alpha_index : nat)
| SetTitle (ax : nat * nat) (n2_index isat_index : nat)
| AxisOff (ax : nat * nat)
| TightLayout
| Savefig (c : channel) (alpha_index : nat)
| Close (c : channel).

(** A run that makes such calls: the calls made, in order, and how the run
    ends.  The calls themselves are taken to return. *)
Definition traced (A : Type) : Type := (list plot_call * io A)%type.

Definition traced_bind {A B : Type} (r : traced A) (k : A -> traced B)
  : traced B :=
  match r with
  | (calls, Return a) => let '(calls', b) := k a in (calls ++ calls', b)
  | (calls, Throw e) => (calls, Throw e)
  end.

Notation "x <~~ r ;; k" := (traced_bind r (fun x => k))
  (at level 61, r at next level, right associativity).

Definition call (c : plot_call) : traced unit := ([c], Return tt).

Definition lift {A : Type} (r : io A) : traced A := ([], r).

(** [for x in xs: body] for a body that binds nothing that is read after
    the loop. *)
Fixpoint traced_for {X : Type} (xs : list X) (body : X -> traced unit)
  : traced unit :=
  match xs with
  | [] => ([], Return tt)
  | x :: xs' => _ <~~ body x ;; traced_for xs' body
  end.

(** [ax.imshow(...)], [ax.set_title(...)] and [ax.axis('off')] on what was
    selected: an array of axes has no such methods. *)
Definition draw_on (ax : axes_array) (c : channel)
    (n2_index isat_index alpha_index : nat) : traced unit :=
  match ax with
  | Axes place =>
      _ <~~ call (Imshow c place n2_index isat_index alpha_index) ;;
      _ <~~ call (SetTitle place n2_index isat_index) ;;
      call (AxisOff place)
  | _ => lift (Throw AttributeError)
  end.

(** [plot_generated_set(data, saving_path, nlse_settings)].  [reshape] is
    the copy of [data] reshaped to the six axes
    [(number_of_n2, number_of_isat, number_of_alpha, 2, h, h)], lines 266
    to 268, which raises when the sizes do not fit.  For every [alpha] the
    figure of the densities is drawn and saved, then the figure of the
    phases. *)
Definition plot_generated_set (reshape : io unit) (settings : nlse_settings)
  : traced unit :=
  let number_of_n2 := length (n2 settings) in
  let number_of_isat := length (isat settings) in
  let number_of_alpha := length (alpha settings) in
  _ <~~ lift reshape ;;
  traced_for (seq 0 number_of_alpha) (fun alpha_index =>
    axes_density <~~ lift (subplots number_of_n2 number_of_isat) ;;
    _ <~~ call (Suptitle Density alpha_index) ;;
    _ <~~ traced_for (seq 0 number_of_n2) (fun n2_index =>
            traced_for (seq 0 number_of_isat) (fun isat_index =>
              ax <~~ lift (density_ax number_of_n2 number_of_isat
                             axes_density n2_index isat_index) ;;
              draw_on ax Density n2_index isat_index alpha_index)) ;;
    _ <~~ call TightLayout ;;
    _ <~~ call (Savefig Density alpha_index) ;;
    _ <~~ call (Close Density) ;;
    axes_phase <~~ lift (subplots number_of_n2 number_of_isat) ;;
    _ <~~ call (Suptitle Phase alpha_index) ;;
    _ <~~ traced_for (seq 0 number_of_n2) (fun n2_index =>
            traced_for (seq 0 number_of_isat) (fun isat_index =>
              ax <~~ lift (phase_ax number_of_n2 number_of_isat
                             axes_phase n2_index isat_index) ;;
              draw_on ax Phase n2_index isat_index alpha_index)) ;;
    _ <~~ call (Savefig Phase alpha_index) ;;
    call (Close Phase)).

(** The three calls on the axes of one pair. *)
Definition pair_calls (c : channel) (alpha_index n2_index isat_index : nat)
  : list plot_call :=
  [Imshow c (n2_index, isat_index) n2_index isat_index alpha_index;
   SetTitle (n2_index, isat_index) n2_index isat_index;
   AxisOff (n2_index, isat_index)].

(** ** n2_experimental_resnet_multiple_power.py: the results and their report *)

(** [d[k]] on a dict. *)
Fixpoint dict_getitem {V : Type} (d : dict V) (k : String.string) : io V :=
  match d with
  | [] => Throw KeyError
  | (k', v) :: d' => if String.eqb k' k then Return v else dict_getitem d' k
  end.

(** Reading a variable of a script: at the level of the module a name
    that is not bound yet raises [NameError]. *)
Definition load_name {A : Type} (v : option A) : io A :=
  match v with
  | Some a => Return a
  | None => Throw NameError
  end.

Section MultiplePower.

(** What is kept of one inference: the six entries of the list of line 97
    are of type [V]. *)
Variable V : Type.

(** Lines 59 to 95 for the data type at [data_types_index] and the model
    [model_index]: the import of the model, its name [model_version], the
    loading of its weights and the inference, which end with the name and
    the six values
    [result_n2, result_index_n2, result_power, result_index_power,
     result_isat, result_index_isat] bound, or with an exception. *)
Variable infer : nat -> nat -> io (String.string * list V).

(** The statistics that the report prints from the four arrays of one
    data type and one model (lines 108 to 119). *)
Variable print_statistics : nat -> nat -> V -> V -> V -> V -> io unit.

(** The variables of the script that outlive an iteration of the loops of
    lines 52 to 98. *)
Record script_state : Type := ScriptState {
  script_index : option nat;                       (* data_types_index *)
  script_models : option (dict (list V));          (* models *)
  script_version : option String.string;           (* model_version *)
  script_results : option (list V)                 (* the six results *)
}.

(** The body of the loop over [model_index], lines 57 to 95. *)
Definition inference_loop (s : script_state) (model_index : nat)
  : io script_state :=
  index <~ load_name (script_index s) ;;
  inferred <~ infer index model_index ;;
  let '(version, results) := inferred in
  Return (ScriptState (script_index s) (script_models s)
            (Some version) (Some results)).

(** The body of the loop over [data_types_index], lines 52 to 97: the loop
    over the models, and after it
    [models[model_version] = [result_n2, ...]]. *)
Definition results_loop (s : script_state) (index : nat) : io script_state :=
  let s := ScriptState (Some index) (Some [])
             (script_version s) (script_results s) in
  s <~ for_each (seq 2 4) inference_loop s ;;
  results <~ load_name (script_results s) ;;
  models_ <~ load_name (script_models s) ;;
  version <~ load_name (script_version s) ;;
  Return (ScriptState (script_index s)
            (Some (dict_setitem models_ version results))
            (script_version s) (script_results s)).

(** The four lookups of one pass of the report, lines 103 to 106, and the
    prints that follow them; [np.array] around each lookup is left out. *)
Definition report_loop (data_types_results : dict (dict (list V)))
    (index : nat) (_ : unit) (model_index : nat) : io unit :=
  let key :=
    ("model_resnetv"
     +++ DecimalString.NilEmpty.string_of_uint (Nat.to_uint model_index))
    %string in
  let lookup (position : nat) : io V :=
    data_type <~ getitem data_types index ;;
    of_data_type <~ dict_getitem data_types_results data_type ;;
    of_model <~ dict_getitem of_data_type key ;;
    getitem of_model position in
  result_n2 <~ lookup 0 ;;
  result_index_n2 <~ lookup 1 ;;
  result_isat <~ lookup 2 ;;
  result_index_isat <~ lookup 3 ;;
  print_statistics index model_index
    result_n2 result_index_n2 result_isat result_index_isat.

(** Lines 51 to 119 of the script. *)
Definition multiple_power_script : io unit :=
  let data_types_results := [] in
  s <~ for_each (seq 0 (length data_types)) results_loop
         (ScriptState None None None None) ;;
  models_ <~ load_name (script_models s) ;;
  index <~ load_name (script_index s) ;;
  data_type <~ getitem data_types index ;;
  let data_types_results :=
    dict_setitem data_types_results data_type models_ in
  for_each (seq 0 (length data_types))
    (fun (_ : unit) index =>
       for_each (seq 2 4) (report_loop data_types_results index) tt)
    tt.

End MultiplePower.

(** * Properties *)

(** ** Indexing and repetition *)

Lemma take_spec {A : Type} (a : list A) (indices : list nat) (r : list A) :
  take a indices = Ok r ->
  length r = length indices /\
  forall k, k < length indices -> nth_error r k = nth_error a (nth k indices 0).
Proof.
  revert r. induction indices as [|i rest IH]; intros r H; simpl in H.
  - inversion H; subst. split; [reflexivity | simpl; lia].
  - destruct (nth_error a i) as [x|] eqn:Hx; [|discriminate].
    destruct (take a rest) as [xs|e] eqn:Hxs; simpl in H; [|discriminate].
    inversion H; subst r. destruct (IH xs eq_refl) as [Hlen Hnth].
    split; [simpl; lia|].
    intros [|k] Hk; simpl in *; [now rewrite Hx | apply Hnth; lia].
Qed.

Lemma take_total {A : Type} (a : list A) (indices : list nat) :
  Forall (fun i => i < length a) indices -> exists r, take a indices = Ok r.
Proof.
  induction 1 as [|i rest Hi _ [xs IH]]; simpl.
  - now exists [].
  - destruct (nth_error a i) as [x|] eqn:Hx.
    + rewrite IH. now exists (x :: xs).
    + apply nth_error_None in Hx. lia.
Qed.

Lemma take_raise {A : Type} (a : list A) (indices : list nat) (e : exn) :
  take a indices = Raise e ->
  e = IndexError /\ Exists (fun i => length a <= i) indices.
Proof.
  induction indices as [|i rest IH]; simpl; [discriminate|].
  destruct (nth_error a i) as [x|] eqn:Hx.
  - destruct (take a rest) as [xs|e'] eqn:Hxs; simpl; [discriminate|].
    intros H; inversion H; subst e'. destruct (IH eq_refl) as [-> Hex].
    split; [reflexivity | now apply Exists_cons_tl].
  - intros H; inversion H. split; [reflexivity|].
    apply Exists_cons_hd. now apply nth_error_None.
Qed.

Lemma np_repeat_length {A : Type} (a : list A) (k : nat) :
  length (np_repeat a k) = length a * k.
Proof.
  unfold np_repeat. induction a as [|x a IH]; simpl; [reflexivity|].
  rewrite length_app, repeat_length, IH. reflexivity.
Qed.

Lemma nth_error_repeat_lt {A : Type} (x : A) (k i : nat) :
  i < k -> nth_error (repeat x k) i = Some x.
Proof.
  revert i. induction k as [|k IH]; intros [|i] Hi; simpl; try lia; auto.
  apply IH. lia.
Qed.

Lemma np_repeat_nth_error {A : Type} (a : list A) (k i : nat) :
  0 < k -> nth_error (np_repeat a k) i = nth_error a (i / k).
Proof.
  intros Hk. unfold np_repeat. revert i.
  induction a as [|x a IH]; intros i; simpl.
  - now rewrite !nth_error_nil.
  - destruct (Nat.lt_ge_cases i k) as [Hlt|Hge].
    + rewrite nth_error_app1 by now rewrite repeat_length.
      rewrite Nat.div_small by assumption. simpl.
      now apply nth_error_repeat_lt.
    + rewrite nth_error_app2 by now rewrite repeat_length.
      rewrite repeat_length, IH.
      replace i with ((i - k) + 1 * k) at 2 by lia.
      rewrite Nat.div_add by lia.
      now rewrite Nat.add_1_r.
Qed.

(** ** Augmentation: one shared permutation, then sixteen copies *)

Section Augmentation.

Variables G A L : Type.
Variable shuffle : G -> list nat -> list nat * G.

(** What [np.random.shuffle] guarantees whatever the random state: the
    array holds the same entries afterwards. *)
Hypothesis shuffle_permutes : forall g l, Permutation l (fst (shuffle g l)).

Lemma data_augmentation_unfold (g : G) (E : list A) (labels : label_tuple L) :
  fst (data_augmentation shuffle g E labels) =
  let indices := fst (shuffle g (seq 0 (length (n2_labels labels)))) in
  n2 <- take (n2_labels labels) indices ;;
  isat <- take (isat_labels labels) indices ;;
  alpha <- take (alpha_labels labels) indices ;;
  E' <- take E indices ;;
  Ok (np_repeat E' augmentation,
      Labels (number_of_n2 labels) (np_repeat n2 augmentation)
             (number_of_isat labels) (np_repeat isat augmentation)
             (number_of_alpha labels) (np_repeat alpha augmentation)).
Proof.
  unfold data_augmentation.
  now destruct (shuffle g (seq 0 (length (n2_labels labels)))).
Qed.

Lemma shuffled_in_range (g : G) (n m : nat) :
  n <= m -> Forall (fun i => i < m) (fst (shuffle g (seq 0 n))).
Proof.
  intros Hnm. apply Forall_forall. intros i Hi.
  apply (Permutation_in i
           (Permutation_sym (shuffle_permutes g (seq 0 n)))) in Hi.
  apply in_seq in Hi. lia.
Qed.

Lemma shuffled_reaches (g : G) (n m : nat) :
  m < n -> Exists (fun i => m <= i) (fst (shuffle g (seq 0 n))).
Proof.
  intros Hmn. apply Exists_exists. exists m. split; [|lia].
  apply (Permutation_in m (shuffle_permutes g (seq 0 n))).
  apply in_seq. lia.
Qed.

Lemma take_shuffled_ok {X : Type} (g : G) (a : list X) (n : nat) :
  n <= length a ->
  exists r, take a (fst (shuffle g (seq 0 n))) = Ok r.
Proof. intros Hn. apply take_total. now apply shuffled_in_range. Qed.

Lemma take_shuffled_raise {X : Type} (g : G) (a : list X) (n : nat) :
  length a < n ->
  take a (fst (shuffle g (seq 0 n))) = Raise IndexError.
Proof.
  intros Hn. destruct (take a (fst (shuffle g (seq 0 n)))) as [r|e] eqn:Ht.
  - apply take_spec in Ht. destruct Ht as [Hlen Hnth].
    pose proof (shuffled_reaches g Hn) as Hex.
    apply Exists_exists in Hex. destruct Hex as [i [Hi Hle]].
    destruct (In_nth _ _ 0 Hi) as [k [Hk Hik]].
    specialize (Hnth k Hk). rewrite Hik in Hnth.
    apply nth_error_None in Hle. rewrite Hle in Hnth.
    apply nth_error_None in Hnth. lia.
  - now destruct (take_raise _ _ Ht) as [-> _].
Qed.

(** C1. Augmenting a dataset of [N] samples whose three label arrays have
    length [N] returns a dataset and three label arrays of length [N * 16];
    one permutation [p] of [0 .. N-1] relates them all to the input: the
    output sample and the three output labels at [i] are the input sample
    and labels at [p (i / 16)]; the three counts are returned unchanged. *)
Theorem data_augmentation_aligned (g : G) (E : list A) (labels : label_tuple L)
    (N : nat) :
  length E = N ->
  length (n2_labels labels) = N ->
  length (isat_labels labels) = N ->
  length (alpha_labels labels) = N ->
  exists (p : list nat) (E' : list A) (labels' : label_tuple L),
    Permutation p (seq 0 N) /\
    fst (data_augmentation shuffle g E labels) = Ok (E', labels') /\
    length E' = N * 16 /\
    length (n2_labels labels') = N * 16 /\
    length (isat_labels labels') = N * 16 /\
    length (alpha_labels labels') = N * 16 /\
    (forall i, i < N * 16 ->
       nth_error E' i = nth_error E (nth (i / 16) p 0) /\
       nth_error (n2_labels labels') i =
         nth_error (n2_labels labels) (nth (i / 16) p 0) /\
       nth_error (isat_labels labels') i =
         nth_error (isat_labels labels) (nth (i / 16) p 0) /\
       nth_error (alpha_labels labels') i =
         nth_error (alpha_labels labels) (nth (i / 16) p 0)) /\
    number_of_n2 labels' = number_of_n2 labels /\
    number_of_isat labels' = number_of_isat labels /\
    number_of_alpha labels' = number_of_alpha labels.
Proof.
  intros HE Hn2 Hisat Halpha.
  rewrite data_augmentation_unfold, Hn2. cbv zeta.
  set (p := fst (shuffle g (seq 0 N))).
  assert (Hlen : length p = N).
  { unfold p. rewrite <- (Permutation_length (shuffle_permutes g (seq 0 N))).
    apply length_seq. }
  destruct (@take_shuffled_ok L g (n2_labels labels) N) as [n2 Tn2]; [lia|].
  destruct (@take_shuffled_ok L g (isat_labels labels) N) as [isat Tisat];
    [lia|].
  destruct (@take_shuffled_ok L g (alpha_labels labels) N) as [alpha Talpha];
    [lia|].
  destruct (@take_shuffled_ok A g E N) as [E1 TE]; [lia|].
  fold p in Tn2, Tisat, Talpha, TE.
  rewrite Tn2, Tisat, Talpha, TE. simpl bind.
  destruct (take_spec _ _ Tn2) as [Ln2 Nn2].
  destruct (take_spec _ _ Tisat) as [Lisat Nisat].
  destruct (take_spec _ _ Talpha) as [Lalpha Nalpha].
  destruct (take_spec _ _ TE) as [LE NE].
  eexists p, _, _. split; [|split; [reflexivity|]].
  { apply Permutation_sym, shuffle_permutes. }
  cbn [n2_labels isat_labels alpha_labels
       number_of_n2 number_of_isat number_of_alpha].
  rewrite !np_repeat_length. unfold augmentation.
  repeat (split; [lia|]).
  split; [|auto].
  intros i Hi.
  assert (Hq : i / 16 < length p).
  { rewrite Hlen. apply Nat.Div0.div_lt_upper_bound. lia. }
  rewrite !np_repeat_nth_error by lia. auto.
Qed.

(** C8, as the code has it. Only arrays shorter than [n2_labels] make the
    indexing fail: [data_augmentation] raises [IndexError] exactly when
    [isat_labels], [alpha_labels] or the dataset is shorter than
    [n2_labels], and otherwise returns, also for arrays of different
    lengths. *)
Theorem data_augmentation_index_error (g : G) (E : list A)
    (labels : label_tuple L) :
  let n := length (n2_labels labels) in
  let short := length (isat_labels labels) < n \/
               length (alpha_labels labels) < n \/ length E < n in
  (fst (data_augmentation shuffle g E labels) = Raise IndexError <-> short) /\
  (~ short -> exists out, fst (data_augmentation shuffle g E labels) = Ok out).
Proof.
  cbv zeta. rewrite data_augmentation_unfold. cbv zeta.
  set (n := length (n2_labels labels)).
  destruct (@take_shuffled_ok L g (n2_labels labels) n) as [n2 Tn2]; [lia|].
  rewrite Tn2. simpl bind.
  destruct (Nat.lt_ge_cases (length (isat_labels labels)) n) as [Hi|Hi].
  { rewrite (take_shuffled_raise g _ Hi). simpl. split; [tauto|lia]. }
  destruct (take_shuffled_ok g (isat_labels labels) Hi) as [isat ->].
  simpl bind.
  destruct (Nat.lt_ge_cases (length (alpha_labels labels)) n) as [Ha|Ha].
  { rewrite (take_shuffled_raise g _ Ha). simpl. split; [tauto|lia]. }
  destruct (take_shuffled_ok g (alpha_labels labels) Ha) as [alpha ->].
  simpl bind.
  destruct (Nat.lt_ge_cases (length E) n) as [He|He].
  { rewrite (take_shuffled_raise g _ He). simpl. split; [tauto|lia]. }
  destruct (take_shuffled_ok g E He) as [E1 ->]. simpl bind.
  split; [split; [discriminate|lia]|]. intros _. eauto.
Qed.

End Augmentation.

Lemma data_augmentation_aligned_witness :
  exists (p : list nat) (E' : list nat) (labels' : label_tuple nat),
    Permutation p (seq 0 2) /\
    fst (data_augmentation reversing_shuffle tt [7; 9]
           (Labels 2 [1; 2] 2 [3; 4] 2 [5; 6])) = Ok (E', labels') /\
    length E' = 2 * 16 /\
    length (n2_labels labels') = 2 * 16 /\
    length (isat_labels labels') = 2 * 16 /\
    length (alpha_labels labels') = 2 * 16 /\
    (forall i, i < 2 * 16 ->
       nth_error E' i = nth_error [7; 9] (nth (i / 16) p 0) /\
       nth_error (n2_labels labels') i = nth_error [1; 2] (nth (i / 16) p 0) /\
       nth_error (isat_labels labels') i
         = nth_error [3; 4] (nth (i / 16) p 0) /\
       nth_error (alpha_labels labels') i
         = nth_error [5; 6] (nth (i / 16) p 0)) /\
    number_of_n2 labels' = 2 /\
    number_of_isat labels' = 2 /\
    number_of_alpha labels' = 2.
Proof.
  apply (@data_augmentation_aligned unit nat nat reversing_shuffle
           (fun _ l => Permutation_rev l) tt [7; 9]
           (Labels 2 [1; 2] 2 [3; 4] 2 [5; 6]) 2); reflexivity.
Defined.

Lemma data_augmentation_index_error_witness :
  (fst (data_augmentation reversing_shuffle tt [7; 9]
          (Labels 3 [1; 2; 3] 3 [4; 5; 6] 3 [7; 8; 9])) = Raise IndexError <->
   (3 < 3 \/ 3 < 3 \/ 2 < 3)) /\
  (~ (3 < 3 \/ 3 < 3 \/ 2 < 3) ->
   exists out, fst (data_augmentation reversing_shuffle tt [7; 9]
                      (Labels 3 [1; 2; 3] 3 [4; 5; 6] 3 [7; 8; 9])) = Ok out).
Proof.
  exact (@data_augmentation_index_error unit nat nat reversing_shuffle
           (fun _ l => Permutation_rev l) tt [7; 9]
           (Labels 3 [1; 2; 3] 3 [4; 5; 6] 3 [7; 8; 9])).
Defined.

(** C8, as stated, fails: a dataset and two label arrays of length 3 with an
    [n2_labels] of length 2 do not all have the dataset's length, and the
    call returns the first two entries of each, permuted and repeated,
    instead of raising. *)
Lemma data_augmentation_accepts_longer_arrays :
  let labels := Labels 2 [10; 20] 3 [1; 2; 3] 3 [4; 5; 6] in
  let E := [100; 200; 300] in
  ~ (length (n2_labels labels) = length E /\
     length (isat_labels labels) = length E /\
     length (alpha_labels labels) = length E) /\
  fst (data_augmentation reversing_shuffle tt E labels) =
    Ok (np_repeat [200; 100] 16,
        Labels 2 (np_repeat [20; 10] 16) 3 (np_repeat [2; 1] 16)
               3 (np_repeat [5; 4] 16)).
Proof.
  split.
  - simpl. intros [H _]. discriminate H.
  - reflexivity.
Qed.

(** ** Slices *)

Lemma range_of_nth_error {A : Type} (lo hi i : nat) (a : list A) :
  nth_error (range_of lo hi a) i =
  if lo + i <? hi then nth_error a (lo + i) else None.
Proof.
  unfold range_of. now rewrite nth_error_skipn, nth_error_firstn.
Qed.

Lemma range_of_length {A : Type} (lo hi : nat) (a : list A) :
  length (range_of lo hi a) = Nat.min hi (length a) - lo.
Proof. unfold range_of. now rewrite length_skipn, length_firstn. Qed.





(** ** The splitter *)


Lemma scaled_index_no_assertion (n : nat) (ratio : binary64) :
  scaled_index n ratio <> Raise AssertionError.
Proof.
  unfold scaled_index, float_of_int.
  destruct (b64_of_Z (Z.of_nat n)); cbn [bind]; try discriminate;
    destruct (b64_mul _ ratio); discriminate.
Qed.




(** C3, as the code has it.  [data_split] raises [AssertionError] exactly
    when the float [(train_ratio + validation_ratio) + test_ratio], rounded
    after each addition, is not the float 1.0, as for (0.8, 0.1, 0.2). *)
Theorem data_split_ratio_assertion {A L : Type} (E : list A)
    (n2 isat alpha : list L) (tr val te : binary64) :
  (data_split E n2 isat alpha tr val te = Raise AssertionError
   <-> b64_eqb (b64_add (b64_add tr val) te) b64_one = false) /\
  data_split E n2 isat alpha (b64_ratio 8 10) (b64_ratio 1 10)
             (b64_ratio 2 10) = Raise AssertionError.
Proof.
  split.
  - unfold data_split.
    destruct (b64_eqb (b64_add (b64_add tr val) te) b64_one) eqn:Hb.
    + split; [|discriminate]. rewrite length_seq.
      destruct (scaled_index (length E) tr) as [i|e] eqn:Hi; cbn [bind].
      * destruct (scaled_index (length E) (b64_add tr val)) as [j|e] eqn:Hj;
          cbn [bind]; [discriminate|].
        intros H. exfalso. injection H as ->.
        now apply scaled_index_no_assertion in Hj.
      * intros H. exfalso. injection H as ->.
        now apply scaled_index_no_assertion in Hi.
    + split; reflexivity.
  - unfold data_split.
    replace (b64_eqb _ b64_one) with false by (vm_compute; reflexivity).
    reflexivity.
Qed.

(** C3, as stated, fails in both directions when the sum is taken of the
    numbers and not of the floats.  The ratios (0.7, 0.2, 0.1) sum to 1 as
    decimal numbers, and the call raises [AssertionError]: 0.7 + 0.2 is
    rounded to 0.8999999999999999 and the total to 0.9999999999999999.  The
    floats 1, 2^-53 and -2^-53 sum to exactly 1, and the call raises: 1 +
    2^-53 is rounded to 1.  The floats of the defaults (0.8, 0.1, 0.1) do
    not sum to exactly 1, and the call returns. *)
Lemma data_split_rounded_sum :
  let E := [10; 20; 30; 40] in
  let n2 := [1; 2; 3; 4] in
  let isat := [5; 6; 7; 8] in
  let alpha := [9; 10; 11; 12] in
  ((7 # 10) + (2 # 10) + (1 # 10) == 1)%Q /\
  data_split E n2 isat alpha (b64_ratio 7 10) (b64_ratio 2 10)
             (b64_ratio 1 10) = Raise AssertionError /\
  (b64_value b64_one + b64_value (b64_ratio 1 9007199254740992)
   + b64_value (b64_ratio (-1) 9007199254740992) == 1)%Q /\
  data_split E n2 isat alpha b64_one (b64_ratio 1 9007199254740992)
             (b64_ratio (-1) 9007199254740992) = Raise AssertionError /\
  ~ (b64_value (b64_ratio 8 10) + b64_value (b64_ratio 1 10)
     + b64_value (b64_ratio 1 10) == 1)%Q /\
  data_split E n2 isat alpha (b64_ratio 8 10) (b64_ratio 1 10)
             (b64_ratio 1 10) =
    Ok (([10; 20; 30], [1; 2; 3], [5; 6; 7], [9; 10; 11]),
        ([], [], [], []),
        ([40], [4], [8], [12])).
Proof.
  cbv zeta. repeat split; try (vm_compute; reflexivity).
  vm_compute. discriminate.
Qed.

(** ** Minimum and maximum of an array *)

Lemma Qmin_cases (x y : Q) :
  (Qmin x y = x /\ (x <= y)%Q) \/ (Qmin x y = y /\ (y <= x)%Q).
Proof.
  unfold Qmin, GenericMinMax.gmin.
  destruct (x ?= y)%Q eqn:Hc.
  - left. split; [reflexivity|]. apply Qeq_alt in Hc. rewrite Hc.
    apply Qle_refl.
  - left. split; [reflexivity|]. apply Qlt_alt in Hc. now apply Qlt_le_weak.
  - right. split; [reflexivity|]. apply Qgt_alt in Hc. now apply Qlt_le_weak.
Qed.

Lemma Qmax_cases (x y : Q) :
  (Qmax x y = x /\ (y <= x)%Q) \/ (Qmax x y = y /\ (x <= y)%Q).
Proof.
  unfold Qmax, GenericMinMax.gmax.
  destruct (x ?= y)%Q eqn:Hc.
  - left. split; [reflexivity|]. apply Qeq_alt in Hc. rewrite Hc.
    apply Qle_refl.
  - right. split; [reflexivity|]. apply Qlt_alt in Hc. now apply Qlt_le_weak.
  - left. split; [reflexivity|]. apply Qgt_alt in Hc. now apply Qlt_le_weak.
Qed.

Lemma fold_min_spec (rest : list Q) (x : Q) :
  In (fold_left Qmin rest x) (x :: rest) /\
  Forall (fun y => (fold_left Qmin rest x <= y)%Q) (x :: rest).
Proof.
  revert x. induction rest as [|y rest IH]; intros x; simpl.
  - split; [now left | repeat constructor; apply Qle_refl].
  - destruct (IH (Qmin x y)) as [Hin Hall].
    inversion Hall as [|? ? Hhead Htail]; subst.
    destruct (Qmin_cases x y) as [[Heq Hle]|[Heq Hle]]; rewrite Heq in *.
    + split.
      * destruct Hin as [Hin|Hin]; [now left | now right; right].
      * constructor; [assumption|]. constructor; [|assumption].
        now apply Qle_trans with x.
    + split.
      * destruct Hin as [Hin|Hin]; [now right; left | now right; right].
      * constructor; [now apply Qle_trans with y|]. now constructor.
Qed.

Lemma fold_max_spec (rest : list Q) (x : Q) :
  In (fold_left Qmax rest x) (x :: rest) /\
  Forall (fun y => (y <= fold_left Qmax rest x)%Q) (x :: rest).
Proof.
  revert x. induction rest as [|y rest IH]; intros x; simpl.
  - split; [now left | repeat constructor; apply Qle_refl].
  - destruct (IH (Qmax x y)) as [Hin Hall].
    inversion Hall as [|? ? Hhead Htail]; subst.
    destruct (Qmax_cases x y) as [[Heq Hle]|[Heq Hle]]; rewrite Heq in *.
    + split.
      * destruct Hin as [Hin|Hin]; [now left | now right; right].
      * constructor; [assumption|]. constructor; [|assumption].
        now apply Qle_trans with x.
    + split.
      * destruct Hin as [Hin|Hin]; [now right; left | now right; right].
      * constructor; [now apply Qle_trans with y|]. now constructor.
Qed.

Lemma list_min_spec (l : list Q) (m : Q) :
  list_min l = Ok m -> In m l /\ forall y, In y l -> (m <= y)%Q.
Proof.
  destruct l as [|x rest]; simpl; [discriminate|].
  intros H; inversion H; subst m.
  destruct (fold_min_spec rest x) as [Hin Hall].
  split; [exact Hin|]. rewrite Forall_forall in Hall. exact Hall.
Qed.

Lemma list_max_spec (l : list Q) (m : Q) :
  list_max l = Ok m -> In m l /\ forall y, In y l -> (y <= m)%Q.
Proof.
  destruct l as [|x rest]; simpl; [discriminate|].
  intros H; inversion H; subst m.
  destruct (fold_max_spec rest x) as [Hin Hall].
  split; [exact Hin|]. rewrite Forall_forall in Hall. exact Hall.
Qed.

Lemma list_min_total (l : list Q) (x : Q) :
  In x l -> exists m, list_min l = Ok m.
Proof. destruct l; simpl; [tauto | eauto]. Qed.

Lemma list_max_total (l : list Q) (x : Q) :
  In x l -> exists m, list_max l = Ok m.
Proof. destruct l; simpl; [tauto | eauto]. Qed.

Lemma concat_map2d (f : Q -> Q) (a : image) :
  concat (map2d f a) = map f (concat a).
Proof. unfold map2d. now rewrite <- concat_map. Qed.

Lemma map2d_pointwise (f : Q -> Q) (a : image) :
  (forall x, (f x == x)%Q) -> image_eq (map2d f a) a.
Proof.
  intros Hf. unfold image_eq, map2d.
  induction a as [|row a IH]; simpl; constructor; [|exact IH].
  induction row as [|x row IHr]; simpl; constructor; auto.
Qed.

(** ** The tie of centre and corner in [general_extrema] *)

Lemma Qlt_bool_false (x y : Q) : (y <= x)%Q -> Qlt_bool x y = false.
Proof.
  intros H. unfold Qlt_bool. apply Qle_bool_iff in H. now rewrite H.
Qed.

(** C9, as the code has it. When the centre entry equals the corner entry
    and is not negative, [general_extrema] subtracts nothing and returns the
    elementwise absolute value of its input. *)
Theorem general_extrema_tie (E : image) (center corner : Q) :
  getitem2 E (length E / 2) (width E / 2) = Ok center ->
  getitem2 E 0 0 = Ok corner ->
  (center == corner)%Q ->
  (0 <= center)%Q ->
  general_extrema_shift E = Ok E /\ general_extrema E = Ok (np_abs E).
Proof.
  intros Hcenter Hcorner Htie Hsign.
  assert (Hshift : general_extrema_shift E = Ok E).
  { unfold general_extrema_shift. rewrite Hcenter, Hcorner. simpl bind.
    rewrite Qlt_bool_false by (rewrite Htie; apply Qle_refl).
    now rewrite Qlt_bool_false. }
  split; [exact Hshift|].
  unfold general_extrema. now rewrite Hshift.
Qed.

Lemma general_extrema_tie_witness :
  general_extrema_shift [[1; 0; 0]; [0; 1; 0]; [0; 0; -3]]%Q
    = Ok [[1; 0; 0]; [0; 1; 0]; [0; 0; -3]]%Q /\
  general_extrema [[1; 0; 0]; [0; 1; 0]; [0; 0; -3]]%Q
    = Ok (np_abs [[1; 0; 0]; [0; 1; 0]; [0; 0; -3]]%Q).
Proof.
  apply (@general_extrema_tie [[1; 0; 0]; [0; 1; 0]; [0; 0; -3]]%Q 1%Q 1%Q);
    try reflexivity; discriminate.
Defined.

(** C9, as stated, fails when the common value of centre and corner is
    negative: the second branch then subtracts the minimum.  Here centre and
    corner are both -1, the minimum is -3, and the result is the absolute
    value of the array shifted by 3, not of the array itself. *)
Lemma general_extrema_negative_tie :
  let E := [[-1; 0; 0]; [0; -1; 0]; [0; 0; -3]]%Q in
  getitem2 E (length E / 2) (width E / 2) = getitem2 E 0 0 /\
  general_extrema E = Ok [[2; 3; 3]; [3; 2; 3]; [3; 3; 0]]%Q /\
  np_abs E = [[1; 0; 0]; [0; 1; 0]; [0; 0; 3]]%Q /\
  forall out, general_extrema E = Ok out -> ~ image_eq out (np_abs E).
Proof.
  cbv zeta. repeat split; try reflexivity.
  intros out Hout. vm_compute in Hout. inversion Hout; subst out.
  intros Heq. vm_compute in Heq.
  inversion Heq as [|? ? ? ? Hrow _]; subst.
  inversion Hrow as [|? ? ? ? Hx _]; subst.
  discriminate Hx.
Qed.

(** ** Normalisation *)

Lemma ndarray_induction (P : ndarray -> Prop) :
  (forall a, P (Plane a)) ->
  (forall l, Forall P l -> P (Stack l)) ->
  forall x, P x.
Proof.
  intros HP HS. fix IH 1. intros [a|l]; [apply HP|].
  apply HS. induction l as [|x l IHl]; constructor; [apply IH | exact IHl].
Qed.

Lemma in_normalized (lo hi v : Q) (l : list Q) :
  In v (map (fun x => x / hi)%Q (map (fun x => x - lo)%Q l)) ->
  exists x, In x l /\ v = ((x - lo) / hi)%Q.
Proof.
  rewrite map_map. intros [x [Hv Hx]]%in_map_iff. eauto.
Qed.

(** The output of a normalisation has minimum 0 and maximum 1. *)
Lemma normalized_extrema (l : list Q) (lo hi : Q) :
  list_min l = Ok lo ->
  list_max (map (fun x => x - lo)%Q l) = Ok hi ->
  (0 < hi)%Q ->
  let l' := map (fun x => x / hi)%Q (map (fun x => x - lo)%Q l) in
  exists lo' hi',
    list_min l' = Ok lo' /\ (lo' == 0)%Q /\
    list_max (map (fun x => x - lo')%Q l') = Ok hi' /\ (hi' == 1)%Q.
Proof.
  intros Hlo Hhi Hpos l'.
  destruct (list_min_spec _ Hlo) as [Hlo_in Hlo_le].
  destruct (list_max_spec _ Hhi) as [Hhi_in Hhi_le].
  assert (Hne : ~ (hi == 0)%Q) by (intros E; rewrite E in Hpos; discriminate).
  assert (Hzero : In ((lo - lo) / hi)%Q l').
  { unfold l'. rewrite map_map. now apply (in_map (fun x => (x - lo) / hi)%Q). }
  assert (Hone : In (hi / hi)%Q l').
  { unfold l'. now apply (in_map (fun x => x / hi)%Q). }
  assert (Hbounds : forall v, In v l' -> (0 <= v)%Q /\ (v <= 1)%Q).
  { intros v Hv. apply in_normalized in Hv. destruct Hv as [x [Hx ->]].
    split.
    - apply Qle_shift_div_l; [assumption|]. rewrite Qmult_0_l.
      specialize (Hlo_le x Hx). lra.
    - apply Qle_shift_div_r; [assumption|]. rewrite Qmult_1_l.
      apply Hhi_le. now apply (in_map (fun x => x - lo)%Q). }
  destruct (list_min_total _ _ Hzero) as [lo' Hlo'].
  destruct (list_min_spec _ Hlo') as [Hlo'_in Hlo'_le].
  assert (Hlo'0 : (lo' == 0)%Q).
  { apply Qle_antisym.
    - apply Qle_trans with ((lo - lo) / hi)%Q; [now apply Hlo'_le|].
      apply Qle_shift_div_r; [assumption|]. lra.
    - now apply Hbounds. }
  assert (Hone' : In (hi / hi - lo')%Q (map (fun x => x - lo')%Q l'))
    by now apply (in_map (fun x => x - lo')%Q).
  destruct (list_max_total _ _ Hone') as [hi' Hhi'].
  destruct (list_max_spec _ Hhi') as [Hhi'_in Hhi'_le].
  exists lo', hi'. repeat split; try assumption.
  apply Qle_antisym.
  - apply in_map_iff in Hhi'_in. destruct Hhi'_in as [v [<- Hv]].
    destruct (Hbounds v Hv). lra.
  - apply Qle_trans with (hi / hi - lo')%Q; [|now apply Hhi'_le].
    rewrite Hlo'0. unfold Qminus. rewrite Qplus_0_r.
    apply Qle_shift_div_l; [assumption|]. lra.
Qed.

Lemma has_range_inv (a : image) :
  has_range a = true ->
  exists lo hi,
    np_min a = Ok lo /\
    np_max (map2d (fun x => x - lo)%Q a) = Ok hi /\
    (0 < hi)%Q.
Proof.
  unfold has_range.
  destruct (np_min a) as [lo|] eqn:Hlo; [|discriminate].
  destruct (np_max (map2d (fun x => x - lo)%Q a)) as [hi|] eqn:Hhi;
    [|discriminate].
  intros Hb. exists lo, hi. split; [reflexivity|]. split; [exact Hhi|].
  apply negb_true_iff, Qeq_bool_neq in Hb.
  unfold np_min in Hlo. unfold np_max in Hhi. rewrite concat_map2d in Hhi.
  destruct (list_min_spec _ Hlo) as [Hin _].
  destruct (list_max_spec _ Hhi) as [_ Hle].
  specialize (Hle (lo - lo)%Q (in_map (fun x => x - lo)%Q _ _ Hin)).
  apply Qle_lteq in Hle. destruct Hle as [Hlt|Heq].
  - apply Qle_lt_trans with (lo - lo)%Q; [lra | assumption].
  - exfalso. apply Hb. rewrite <- Heq. ring.
Qed.

Lemma normalize_slice_idempotent (a : image) :
  has_range a = true ->
  exists y z,
    normalize_slice a = Ok y /\ normalize_slice y = Ok z /\ image_eq z y.
Proof.
  intros Hr. destruct (has_range_inv a Hr) as [lo [hi [Hlo [Hhi Hpos]]]].
  set (y := map2d (fun x => x / hi)%Q (map2d (fun x => x - lo)%Q a)).
  assert (Hy : normalize_slice a = Ok y).
  { unfold normalize_slice. rewrite Hlo. simpl bind. now rewrite Hhi. }
  unfold np_min in Hlo. unfold np_max in Hhi. rewrite concat_map2d in Hhi.
  destruct (normalized_extrema _ Hlo Hhi Hpos)
    as [lo' [hi' [Hlo' [Hlo'0 [Hhi' Hhi'1]]]]].
  rewrite <- !concat_map2d in Hlo', Hhi'. fold y in Hlo', Hhi'.
  rewrite <- ?concat_map2d in Hhi'.
  exists y, (map2d (fun x => x / hi')%Q (map2d (fun x => x - lo')%Q y)).
  split; [exact Hy|]. split.
  - unfold normalize_slice, np_min, np_max. rewrite Hlo'. simpl bind.
    now rewrite Hhi'.
  - unfold map2d at 1 2. rewrite map_map.
    rewrite map_ext with (g := map (fun x => (x - lo') / hi')%Q)
      by (intros; apply map_map).
    apply map2d_pointwise. intros x. rewrite Hlo'0, Hhi'1. field.
Qed.

(** C4. [normalize_data] is idempotent on every array whose slices all have
    a non-zero maximum after the subtraction of their minimum: both calls
    return, and the second result equals the first elementwise. *)
Theorem normalize_data_idempotent (x : ndarray) :
  all_slices has_range x = true ->
  exists y z,
    normalize_data x = Ok y /\ normalize_data y = Ok z /\ ndarray_eq z y.
Proof.
  induction x as [a|l IH] using ndarray_induction; intros Hr.
  - simpl in Hr.
    destruct (normalize_slice_idempotent a Hr) as [y [z [Hy [Hz E]]]].
    exists (Plane y), (Plane z). simpl. rewrite Hy, Hz. simpl.
    repeat split. now constructor.
  - simpl in Hr. rewrite forallb_forall in Hr.
    assert (Hl : exists ys zs,
               mapM normalize_data l = Ok ys /\
               mapM normalize_data ys = Ok zs /\
               Forall2 ndarray_eq zs ys).
    { induction IH as [|x l Hx _ IHl].
      - exists [], []. repeat split. constructor.
      - destruct (Hx (Hr x (or_introl eq_refl))) as [y [z [Hy [Hz E]]]].
        destruct IHl as [ys [zs [Hys [Hzs Es]]]].
        { intros x' Hx'. apply Hr. now right. }
        exists (y :: ys), (z :: zs). simpl.
        rewrite Hy, Hz. simpl. rewrite Hys, Hzs. simpl.
        repeat split. now constructor. }
    destruct Hl as [ys [zs [Hys [Hzs Es]]]].
    exists (Stack ys), (Stack zs). simpl. rewrite Hys, Hzs. simpl.
    repeat split. now constructor.
Qed.

Lemma normalize_data_idempotent_witness :
  exists y z,
    normalize_data
      (Stack [Plane [[1; 2]; [3; 5]]; Plane [[0; 7]; [3; 5]]]%Q) = Ok y /\
    normalize_data y = Ok z /\ ndarray_eq z y.
Proof.
  apply (normalize_data_idempotent
           (Stack [Plane [[1; 2]; [3; 5]]; Plane [[0; 7]; [3; 5]]]%Q)).
  reflexivity.
Defined.

(** ** Elementwise operations *)

Lemma zip_with_length {A B C : Type} (f : A -> B -> C) (a : list A)
    (b : list B) :
  length (zip_with f a b) = Nat.min (length a) (length b).
Proof.
  revert b. induction a as [|x a IH]; intros [|y b]; simpl; auto.
Qed.

Lemma zip_with_nth_error {A B C : Type} (f : A -> B -> C) (a : list A)
    (b : list B) (i : nat) :
  nth_error (zip_with f a b) i =
  match nth_error a i, nth_error b i with
  | Some x, Some y => Some (f x y)
  | _, _ => None
  end.
Proof.
  revert b i. induction a as [|x a IH]; intros [|y b] [|i]; simpl; auto.
  - now destruct (nth_error a i).
Qed.

Lemma zip_with_nth {A B C : Type} (f : A -> B -> C) (a : list A) (b : list B)
    (i : nat) (da : A) (db : B) (dc : C) :
  i < length a -> i < length b ->
  nth i (zip_with f a b) dc = f (nth i a da) (nth i b db).
Proof.
  revert b i. induction a as [|x a IH]; intros [|y b] [|i]; simpl;
    try lia; auto.
  intros Ha Hb. apply IH; lia.
Qed.

Lemma map_nth_in {A B : Type} (f : A -> B) (l : list A) (i : nat)
    (da : A) (db : B) :
  i < length l -> nth i (map f l) db = f (nth i l da).
Proof.
  intros Hi. rewrite (nth_indep _ db (f da)) by now rewrite length_map.
  apply map_nth.
Qed.

(** ** Detector noise on the real part *)

Section ExperimentNoise.

Variable G : Type.
Variable poisson : G -> Q -> nat -> list Z * G.
Variable normal : G -> Q -> Q -> nat -> list Q * G.
Variable astype_complex64 : complex -> complex.

(** The samplers return as many draws as they are asked for
    ([size=beam.shape]). *)
Hypothesis poisson_size : forall g lam n, length (fst (poisson g lam n)) = n.
Hypothesis normal_size :
  forall g mu sigma n, length (fst (normal g mu sigma n)) = n.

(** C7. [experiment_noise] returns the cast to complex64 of an array with
    the shape of the beam whose entries have the real part
    [real(beam) + P * poisson_noise_lam * 0.75 + G] and the imaginary part
    of the beam, where [P] is the Poisson draw and [G] the Gaussian draw that
    follows it. *)
Theorem experiment_noise_real_part_only (g : G) (beam : list complex)
    (poisson_noise_lam normal_noise_sigma : Q) :
  let P := fst (poisson g poisson_noise_lam (length beam)) in
  let g1 := snd (poisson g poisson_noise_lam (length beam)) in
  let N := fst (normal g1 0%Q normal_noise_sigma (length beam)) in
  exists noisy : list complex,
    fst (experiment_noise poisson normal astype_complex64 g beam
           poisson_noise_lam normal_noise_sigma)
      = map astype_complex64 noisy /\
    length noisy = length beam /\
    forall i b, nth_error beam i = Some b ->
      exists p n c,
        nth_error P i = Some p /\ nth_error N i = Some n /\
        nth_error noisy i = Some c /\
        (re c == re b + inject_Z p * poisson_noise_lam * (3 # 4) + n)%Q /\
        (im c == im b)%Q.
Proof.
  intros P g1 N. unfold experiment_noise.
  pose proof (poisson_size g poisson_noise_lam (length beam)) as HP.
  pose proof (normal_size g1 0%Q normal_noise_sigma (length beam)) as HN.
  fold P in HP. fold N in HN. subst g1.
  destruct (poisson g poisson_noise_lam (length beam)) as [P' g1].
  simpl in *. subst P.
  destruct (normal g1 0%Q normal_noise_sigma (length beam)) as [N' g2].
  simpl in *. subst N.
  eexists. split; [reflexivity|]. split.
  - rewrite !zip_with_length, !length_map, !zip_with_length, !length_map. lia.
  - intros i b Hb.
    assert (Hi : i < length beam) by (apply nth_error_Some; congruence).
    destruct (nth_error P' i) as [p|] eqn:Hp;
      [|apply nth_error_None in Hp; lia].
    destruct (nth_error N' i) as [n|] eqn:Hn;
      [|apply nth_error_None in Hn; lia].
    exists p, n. eexists. split; [reflexivity|]. split; [reflexivity|].
    rewrite zip_with_nth_error, !nth_error_map, zip_with_nth_error.
    rewrite nth_error_map, zip_with_nth_error, nth_error_map, Hb, Hn, Hp.
    cbn [option_map]. split; [reflexivity|].
    unfold Cadd, Cmul, Ci, of_real. cbn [re im]. split; ring.
Qed.

End ExperimentNoise.

Lemma experiment_noise_real_part_only_witness :
  let beam := [Cx 1 2; Cx 3 4]%Q in
  exists noisy : list complex,
    fst (experiment_noise (constant_poisson 2) (constant_normal (1 # 2))
           (fun c => c) tt beam (1 # 10) (1 # 100))
      = map (fun c => c) noisy /\
    length noisy = length beam /\
    forall i b, nth_error beam i = Some b ->
      exists p n c,
        nth_error (repeat 2%Z 2) i = Some p /\
        nth_error (repeat (1 # 2)%Q 2) i = Some n /\
        nth_error noisy i = Some c /\
        (re c == re b + inject_Z p * (1 # 10) * (3 # 4) + n)%Q /\
        (im c == im b)%Q.
Proof.
  apply (@experiment_noise_real_part_only unit (constant_poisson 2)
           (constant_normal (1 # 2)) (fun c => c)
           (fun _ _ n => repeat_length 2%Z n)
           (fun _ _ _ n => repeat_length (1 # 2)%Q n)
           tt [Cx 1 2; Cx 3 4]%Q (1 # 10)%Q (1 # 100)%Q).
Defined.

(** ** Fringes *)

Section Fringes.

Local Open Scope R_scope.

Lemma has_shape_row {A : Type} (a : list (list A)) (h w y : nat) :
  has_shape a h w -> (y < h)%nat -> length (nth y a []) = w.
Proof.
  intros [Hh Hw] Hy. rewrite Forall_forall in Hw. apply Hw, nth_In. lia.
Qed.

Lemma rmap2d_shape (f : R -> R) (a : rimage) (h w : nat) :
  has_shape a h w -> has_shape (rmap2d f a) h w.
Proof.
  intros [Hh Hw]. split; unfold rmap2d; [now rewrite length_map|].
  apply Forall_map. revert Hw. apply Forall_impl. intros row Hrow.
  now rewrite length_map.
Qed.

Lemma radd2d_shape (a b : rimage) (h w : nat) :
  has_shape a h w -> has_shape b h w -> has_shape (radd2d a b) h w.
Proof.
  intros [Ha Hwa] [Hb Hwb]. split; unfold radd2d.
  - rewrite zip_with_length. lia.
  - clear Ha Hb. revert b Hwb.
    induction Hwa as [|ra a Hra _ IH]; intros [|rb b] Hwb; simpl;
      try constructor.
    + inversion Hwb; subst. rewrite zip_with_length. lia.
    + inversion Hwb; subst. now apply IH.
Qed.

Lemma at2_rmap2d (f : R -> R) (a : rimage) (h w y x : nat) :
  has_shape a h w -> (y < h)%nat -> (x < w)%nat ->
  at2 (rmap2d f a) y x = f (at2 a y x).
Proof.
  intros Ha Hy Hx. pose proof (has_shape_row Ha Hy) as Hrow.
  destruct Ha as [Hh _]. unfold at2, rmap2d.
  rewrite (map_nth_in (map f) a [] []) by lia.
  apply map_nth_in. lia.
Qed.

Lemma at2_radd2d (a b : rimage) (h w y x : nat) :
  has_shape a h w -> has_shape b h w -> (y < h)%nat -> (x < w)%nat ->
  at2 (radd2d a b) y x = at2 a y x + at2 b y x.
Proof.
  intros Ha Hb Hy Hx.
  pose proof (has_shape_row Ha Hy) as Hra.
  pose proof (has_shape_row Hb Hy) as Hrb.
  destruct Ha as [Hha _], Hb as [Hhb _]. unfold at2, radd2d.
  rewrite (zip_with_nth (zip_with Rplus) a b [] [] []) by lia.
  apply zip_with_nth; lia.
Qed.

Lemma arange_length (n : nat) : length (arange n) = n.
Proof. unfold arange. now rewrite length_map, length_seq. Qed.

Lemma arange_nth (n i : nat) : (i < n)%nat -> nth i (arange n) 0 = INR i.
Proof.
  intros Hi. unfold arange.
  rewrite (map_nth_in INR (seq 0 n) 0%nat) by now rewrite length_seq.
  now rewrite seq_nth.
Qed.

Lemma meshgrid_shape (h w : nat) :
  has_shape (fst (meshgrid (arange w) (arange h))) h w /\
  has_shape (snd (meshgrid (arange w) (arange h))) h w.
Proof.
  unfold meshgrid, has_shape. cbn [fst snd].
  rewrite !length_map, !arange_length. repeat split.
  - apply Forall_map, Forall_forall. intros; apply arange_length.
  - apply Forall_map, Forall_forall. intros.
    now rewrite length_map, arange_length.
Qed.

Lemma meshgrid_entries (h w y x : nat) :
  (y < h)%nat -> (x < w)%nat ->
  at2 (fst (meshgrid (arange w) (arange h))) y x = INR x /\
  at2 (snd (meshgrid (arange w) (arange h))) y x = INR y.
Proof.
  intros Hy Hx. unfold meshgrid, at2. cbn [fst snd]. split.
  - rewrite (map_nth_in (fun _ => arange w) (arange h) 0 [])
      by now rewrite arange_length.
    now apply arange_nth.
  - rewrite (map_nth_in (fun v => map (fun _ => v) (arange w)) (arange h) 0 [])
      by now rewrite arange_length.
    rewrite (map_nth_in (fun _ => nth y (arange h) 0) (arange w) 0 0)
      by now rewrite arange_length.
    now apply arange_nth.
Qed.

Lemma width_shape {A : Type} (a : list (list A)) (h w : nat) :
  has_shape a h w -> (0 < h)%nat -> width a = w.
Proof.
  intros [Hh Hw] Hpos. destruct a as [|row a]; simpl in *; [lia|].
  now inversion Hw.
Qed.

Lemma diagonal_length_eq (h w : nat) :
  sqrt (INR (w ^ 2 + h ^ 2)) = sqrt (INR w ^ 2 + INR h ^ 2).
Proof. now rewrite plus_INR, !pow_INR. Qed.

Lemma diagonal_length_pos (h w : nat) :
  (0 < w)%nat -> 0 < sqrt (INR w ^ 2 + INR h ^ 2).
Proof.
  intros Hw. apply sqrt_lt_R0. apply lt_0_INR in Hw.
  pose proof (pow2_ge_0 (INR h)). pose proof (pow_lt (INR w) 2 Hw). Lra.lra.
Qed.

(** One period of the sinusoid is [2 * PI] in its argument. *)
Lemma period_times_frequency (num_lines : Z) (h w : nat) :
  (0 < num_lines)%Z -> (0 < w)%nat ->
  sqrt (INR w ^ 2 + INR h ^ 2) / IZR num_lines
    * wave_frequency num_lines h w = 2 * PI.
Proof.
  intros Hn Hw. unfold wave_frequency. rewrite diagonal_length_eq.
  pose proof (diagonal_length_pos h Hw) as HD.
  apply IZR_lt in Hn. field. split; Lra.lra.
Qed.

Lemma wave_frequency_pos (num_lines : Z) (h w : nat) :
  (0 < num_lines)%Z -> (0 < w)%nat -> 0 < wave_frequency num_lines h w.
Proof.
  intros Hn Hw. unfold wave_frequency. rewrite diagonal_length_eq.
  pose proof (diagonal_length_pos h Hw) as HD.
  apply IZR_lt in Hn. pose proof PI_RGT_0.
  apply Rdiv_lt_0_compat; [|assumption].
  apply Rmult_lt_0_compat; [apply Rmult_lt_0_compat|]; Lra.lra.
Qed.

(** No shorter shift than [2 * PI] leaves the sine unchanged everywhere. *)
Lemma sin_no_shorter_period (c : R) :
  0 < c < 2 * PI -> exists t, sin (t + c) <> sin t.
Proof.
  intros [Hpos Hlt].
  destruct (Req_dec (sin c) 0) as [Hs|Hs].
  - destruct (sin_eq_O_2PI_0 c) as [H0|[HPI|H2PI]];
      [Lra.lra | Lra.lra | exact Hs | Lra.lra | | Lra.lra].
    exists (PI / 2). rewrite HPI, sin_plus, sin_PI2, cos_PI2, sin_PI, cos_PI.
    Lra.lra.
  - exists 0. now rewrite Rplus_0_l, sin_0.
Qed.

(** C6. [line_noise] keeps the shape of the image and adds to the pixel in
    column [x] and row [y] the value
    [amplitude * sin ((x cos a + y sin a) * 2 pi num_lines / sqrt (w^2 + h^2))],
    [a] being the angle in radians.  For [num_lines > 0] the sinusoid, as a
    function of the rotated coordinate, has the period
    [sqrt (w^2 + h^2) / num_lines] and no shorter one, so that [num_lines]
    periods make up the length of the diagonal. *)
Theorem line_noise_fringes (image : rimage) (h w : nat) (num_lines : Z)
    (amplitude angle : R) :
  has_shape image h w ->
  let a := radians angle in
  let D := sqrt (INR w ^ 2 + INR h ^ 2) in
  has_shape (line_noise image num_lines amplitude angle) h w /\
  (forall x y, (x < w)%nat -> (y < h)%nat ->
     at2 (line_noise image num_lines amplitude angle) y x =
     at2 image y x
     + amplitude * sin ((INR x * cos a + INR y * sin a)
                        * 2 * PI * IZR num_lines / D)) /\
  ((0 < num_lines)%Z -> (0 < w)%nat -> (0 < h)%nat ->
   let T := D / IZR num_lines in
   let fringe := fun u => amplitude * sin (u * wave_frequency num_lines h w) in
   0 < T /\
   (forall u, fringe (u + T) = fringe u) /\
   (forall T', 0 < T' < T ->
      exists u, sin ((u + T') * wave_frequency num_lines h w)
                <> sin (u * wave_frequency num_lines h w)) /\
   IZR num_lines * T = D).
Proof.
  intros Himage a D.
  assert (Hout : forall (Hh : (0 < h)%nat),
            has_shape (line_noise image num_lines amplitude angle) h w /\
            forall x y, (x < w)%nat -> (y < h)%nat ->
              at2 (line_noise image num_lines amplitude angle) y x =
              at2 image y x
              + amplitude * sin ((INR x * cos a + INR y * sin a)
                                 * 2 * PI * IZR num_lines / D)).
  { intros Hh. unfold line_noise.
    rewrite (width_shape Himage Hh), (proj1 Himage).
    destruct (meshgrid_shape h w) as [HX HY].
    pose proof (meshgrid_entries (h := h) (w := w)) as Hgrid.
    destruct (meshgrid (arange w) (arange h)) as [X Y]. simpl in HX, HY, Hgrid.
    fold a.
    set (Xr := radd2d (rmap2d (fun x => x * cos a) X)
                      (rmap2d (fun y => y * sin a) Y)).
    assert (HXr : has_shape Xr h w)
      by (apply radd2d_shape; now apply rmap2d_shape).
    split.
    - apply radd2d_shape; [assumption | now apply rmap2d_shape].
    - intros x y Hx Hy.
      rewrite (at2_radd2d Himage (rmap2d_shape _ HXr) Hy Hx).
      rewrite (at2_rmap2d _ HXr Hy Hx). unfold Xr.
      rewrite (at2_radd2d (rmap2d_shape _ HX) (rmap2d_shape _ HY) Hy Hx).
      rewrite (at2_rmap2d _ HX Hy Hx), (at2_rmap2d _ HY Hy Hx).
      destruct (Hgrid y x Hy Hx) as [-> ->].
      unfold wave_frequency. rewrite diagonal_length_eq. fold D.
      do 3 f_equal. unfold Rdiv. ring. }
  split; [|split].
  - destruct h as [|h']; [|apply Hout; lia].
    destruct Himage as [Hlen _]. apply length_zero_iff_nil in Hlen.
    subst image. split; [reflexivity | constructor].
  - intros x y Hx Hy. apply Hout; lia.
  - intros Hn Hw Hh T fringe.
    pose proof (diagonal_length_pos h Hw) as HD. fold D in HD.
    pose proof (IZR_lt _ _ Hn) as HnR.
    pose proof (period_times_frequency h Hn Hw) as HT. fold D T in HT.
    pose proof (wave_frequency_pos h Hn Hw) as Hf.
    assert (HTpos : 0 < T) by now apply Rdiv_lt_0_compat.
    split; [exact HTpos|]. split; [|split].
    + intros u. unfold fringe. f_equal.
      rewrite Rmult_plus_distr_r, HT.
      replace (2 * PI) with (2 * INR 1 * PI) by (simpl; ring).
      apply sin_period.
    + intros T' [HT'pos HT'lt].
      destruct (sin_no_shorter_period (c := T' * wave_frequency num_lines h w))
        as [t Ht].
      { split; [now apply Rmult_lt_0_compat|].
        rewrite <- HT. now apply Rmult_lt_compat_r. }
      exists (t / wave_frequency num_lines h w).
      rewrite Rmult_plus_distr_r.
      replace (t / wave_frequency num_lines h w
               * wave_frequency num_lines h w) with t
        by (field; Lra.lra).
      exact Ht.
    + unfold T. field. Lra.lra.
Qed.

End Fringes.

Lemma line_noise_fringes_witness :
  let image := [[0; 0]; [0; 0]]%R in
  let a := radians 90 in
  let D := sqrt (INR 2 ^ 2 + INR 2 ^ 2) in
  has_shape (line_noise image 50 1 90) 2 2 /\
  (forall x y, x < 2 -> y < 2 ->
     at2 (line_noise image 50 1 90) y x =
     (at2 image y x
      + 1 * sin ((INR x * cos a + INR y * sin a)
                 * 2 * PI * IZR 50 / D))%R) /\
  ((0 < 50)%Z -> 0 < 2 -> 0 < 2 ->
   let T := (D / IZR 50)%R in
   let fringe := fun u => (1 * sin (u * wave_frequency 50 2 2))%R in
   (0 < T)%R /\
   (forall u, fringe (u + T)%R = fringe u) /\
   (forall T', (0 < T' < T)%R ->
      exists u, sin ((u + T') * wave_frequency 50 2 2)
                <> sin (u * wave_frequency 50 2 2)) /\
   (IZR 50 * T)%R = D).
Proof.
  apply (@line_noise_fringes [[0; 0]; [0; 0]]%R 2 2 50%Z 1%R 90%R).
  split; [reflexivity | repeat constructor].
Defined.

(** ** Shapes of arrays of numbers *)

Lemma map_map_shape {A B : Type} (f : A -> B) (a : list (list A)) (h w : nat) :
  has_shape a h w -> has_shape (map (map f) a) h w.
Proof.
  intros [Hh Hw]. split; [now rewrite length_map|].
  apply Forall_map. revert Hw. apply Forall_impl. intros row Hrow.
  now rewrite length_map.
Qed.

Lemma has_shape_concat {A : Type} (a : list (list A)) (h w : nat) :
  has_shape a h w -> length (concat a) = h * w.
Proof.
  intros [Hh Hw]. subst h. induction Hw as [|row a Hrow _ IH]; simpl; auto.
  rewrite length_app, IH, Hrow. reflexivity.
Qed.

Lemma normalize_slice_shape (a d : image) (h w : nat) :
  has_shape a h w -> normalize_slice a = Ok d -> has_shape d h w.
Proof.
  intros Ha. unfold normalize_slice.
  destruct (np_min a) as [lo|]; simpl; [|discriminate].
  destruct (np_max _) as [hi|]; simpl; [|discriminate].
  intros H; inversion H; subst d. now do 2 apply map_map_shape.
Qed.

Lemma normalize_slice_total (a : image) (h w : nat) :
  has_shape a h w -> 0 < h -> 0 < w -> exists d, normalize_slice a = Ok d.
Proof.
  intros Ha Hh Hw. unfold normalize_slice, np_min, np_max.
  pose proof (has_shape_concat Ha) as Hlen.
  destruct (concat a) as [|v l] eqn:Hc; [simpl in Hlen; nia|].
  simpl list_min. simpl bind. rewrite concat_map2d, Hc. simpl. eauto.
Qed.

Lemma normalize_slice_empty (a : image) (w : nat) :
  has_shape a 0 w -> normalize_slice a = Raise EmptyReduction.
Proof.
  intros [Hlen _]. apply length_zero_iff_nil in Hlen. now subst a.
Qed.

(** ** Rounding and the zoomed lengths *)

Lemma py_round_integer (x : Q) (k : Z) : (x == inject_Z k)%Q -> py_round x = k.
Proof.
  intros Hx. unfold py_round.
  assert (Hf : Qfloor x = k) by (rewrite Hx; apply Qfloor_Z).
  rewrite Hf.
  assert (Hlt : Qlt_bool (x - inject_Z k) (1 # 2) = true).
  { unfold Qlt_bool. apply negb_true_iff.
    destruct (Qle_bool (1 # 2) (x - inject_Z k)) eqn:Hb; [|reflexivity].
    apply Qle_bool_iff in Hb. rewrite Hx in Hb. exfalso. lra. }
  now rewrite Hlt.
Qed.

Lemma zoomed_length_exact (n res : nat) (z : Q) :
  py_truediv res n = Ok z -> zoomed_length n z = res.
Proof.
  unfold py_truediv. destruct (Nat.eqb_spec n 0) as [|Hn]; [discriminate|].
  intros H; inversion H; subst z. unfold zoomed_length.
  rewrite (py_round_integer (k := Z.of_nat res)); [apply Nat2Z.id|].
  field. intros E. apply Hn.
  unfold Qeq in E. simpl in E. lia.
Qed.

(** ** Broadcasting assignments *)

Lemma mapM_length {A B : Type} (f : A -> result B) (l : list A) (ys : list B) :
  mapM f l = Ok ys -> length ys = length l.
Proof.
  revert ys. induction l as [|x l IH]; intros ys; simpl.
  - intros H; now inversion H.
  - destruct (f x) as [y|]; simpl; [|discriminate].
    destruct (mapM f l) as [ys'|]; simpl; [|discriminate].
    intros H; inversion H; subst ys. simpl. f_equal. now apply IH.
Qed.

Lemma mapM_raise {A B : Type} (f : A -> result B) (l : list A) (e : exn) :
  mapM f l = Raise e -> exists x, In x l /\ f x = Raise e.
Proof.
  induction l as [|x l IH]; simpl; [discriminate|].
  destruct (f x) as [y|e'] eqn:Hx; simpl.
  - destruct (mapM f l) as [ys'|e'']; simpl; [discriminate|].
    intros H; inversion H; subst e''.
    destruct (IH eq_refl) as [x' [Hin Hx']]. eauto.
  - intros H; inversion H; subst e'. eauto.
Qed.

Lemma mapM_forall {A B : Type} (f : A -> result B) (P : B -> Prop)
    (l : list A) (ys : list B) :
  (forall x y, f x = Ok y -> P y) -> mapM f l = Ok ys -> Forall P ys.
Proof.
  intros Hf. revert ys. induction l as [|x l IH]; intros ys; simpl.
  - intros H; inversion H. constructor.
  - destruct (f x) as [y|] eqn:Hx; simpl; [|discriminate].
    destruct (mapM f l) as [ys'|]; simpl; [|discriminate].
    intros H; inversion H; subst ys. constructor; eauto.
Qed.

Lemma mapM_fixed {A : Type} (f : A -> result A) (l : list A) :
  Forall (fun x => f x = Ok x) l -> mapM f l = Ok l.
Proof.
  induction 1 as [|x l Hx _ IH]; simpl; [reflexivity|].
  now rewrite Hx, IH.
Qed.

Lemma broadcast_row_length (w : nat) (row row' : list Q) :
  broadcast_row w row = Ok row' -> length row' = w.
Proof.
  unfold broadcast_row. destruct (Nat.eqb_spec (length row) w) as [Hw|_].
  - intros H; inversion H; now subst.
  - destruct row as [|v [|v' row]]; try discriminate.
    intros H; inversion H. apply repeat_length.
Qed.

Lemma broadcast_row_raise (w : nat) (row : list Q) (e : exn) :
  broadcast_row w row = Raise e -> e = BroadcastError.
Proof.
  unfold broadcast_row. destruct (length row =? w); [discriminate|].
  destruct row as [|v [|v' row]]; try discriminate; now intros H; inversion H.
Qed.

Lemma broadcast_to_shape (h w : nat) (src new : image) :
  broadcast_to h w src = Ok new -> has_shape new h w.
Proof.
  unfold broadcast_to.
  destruct (mapM (broadcast_row w) src) as [rows|] eqn:Hrows; simpl;
    [|discriminate].
  assert (Hw : Forall (fun row => length row = w) rows).
  { revert Hrows. apply mapM_forall. intros x y. apply broadcast_row_length. }
  destruct (Nat.eqb_spec (length rows) h) as [Hh|_].
  - intros H; inversion H; subst new. now split.
  - destruct rows as [|row [|row' rows]]; try discriminate.
    intros H; inversion H. split; [apply repeat_length|].
    apply Forall_forall. intros r Hr. apply repeat_spec in Hr. subst r.
    now inversion Hw.
Qed.

Lemma broadcast_to_fits (h w : nat) (src : image) :
  has_shape src h w -> broadcast_to h w src = Ok src.
Proof.
  intros [Hh Hw]. unfold broadcast_to. rewrite mapM_fixed.
  - simpl. now rewrite Hh, Nat.eqb_refl.
  - revert Hw. apply Forall_impl. intros row Hrow.
    unfold broadcast_row. now rewrite Hrow, Nat.eqb_refl.
Qed.

Lemma broadcast_to_mismatch (h w : nat) (src : image) :
  length src <> h -> length src <> 1 ->
  broadcast_to h w src = Raise BroadcastError.
Proof.
  intros Hh H1. unfold broadcast_to.
  destruct (mapM (broadcast_row w) src) as [rows|e] eqn:Hrows; simpl.
  - apply mapM_length in Hrows.
    destruct (Nat.eqb_spec (length rows) h) as [Hlen|_]; [congruence|].
    destruct rows as [|row [|row' rows]]; try reflexivity.
    simpl in Hrows. congruence.
  - apply mapM_raise in Hrows. destruct Hrows as [row [_ Hrow]].
    now rewrite (broadcast_row_raise _ _ Hrow).
Qed.

Lemma set_nth_length {A : Type} (i : nat) (x : A) (l : list A) :
  length (set_nth i x l) = length l.
Proof.
  revert i. induction l as [|y l IH]; intros [|i]; simpl; auto.
Qed.

Lemma set_nth_forall {A : Type} (P : A -> Prop) (i : nat) (x : A) (l : list A) :
  P x -> Forall P l -> Forall P (set_nth i x l).
Proof.
  intros Hx Hl. revert i.
  induction Hl as [|y l Hy Hl IH]; intros [|i]; simpl; constructor; auto.
Qed.

Lemma tensor_shape_slot (E : tensor) (n c h w b ch : nat) :
  tensor_shape E n c h w -> b < n -> ch < c ->
  exists sample slot,
    nth_error E b = Some sample /\ nth_error sample ch = Some slot /\
    length sample = c /\ Forall (fun a => has_shape a h w) sample /\
    has_shape slot h w.
Proof.
  intros [Hn HE] Hb Hch.
  destruct (nth_error E b) as [sample|] eqn:Hs;
    [|apply nth_error_None in Hs; lia].
  rewrite Forall_forall in HE.
  destruct (HE sample (nth_error_In _ _ Hs)) as [Hc Hslots].
  destruct (nth_error sample ch) as [slot|] eqn:Hslot;
    [|apply nth_error_None in Hslot; unfold image in *; lia].
  exists sample, slot.
  split; [reflexivity|]. split; [exact Hslot|]. split; [exact Hc|].
  split; [exact Hslots|].
  rewrite Forall_forall in Hslots. apply Hslots.
  now apply nth_error_In with ch.
Qed.

Lemma setitem_channel_shape (E E' : tensor) (n c h w b ch : nat) (src : image) :
  tensor_shape E n c h w -> 0 < h ->
  setitem_channel E b ch src = Ok E' -> tensor_shape E' n c h w.
Proof.
  intros HE Hh. unfold setitem_channel.
  destruct (nth_error E b) as [sample|] eqn:Hs; [|discriminate].
  destruct (nth_error sample ch) as [slot|] eqn:Hslot; [|discriminate].
  destruct HE as [Hn HE].
  pose proof HE as HE'. rewrite Forall_forall in HE'.
  destruct (HE' sample (nth_error_In _ _ Hs)) as [Hc Hslots].
  pose proof Hslots as Hslots'. rewrite Forall_forall in Hslots'.
  pose proof (Hslots' slot (nth_error_In _ _ Hslot)) as Hshape.
  rewrite (proj1 Hshape), (width_shape Hshape Hh).
  destruct (broadcast_to h w src) as [new|] eqn:Hnew; simpl; [|discriminate].
  intros H; inversion H; subst E'. split.
  - now rewrite set_nth_length.
  - apply set_nth_forall; [|assumption]. split.
    + now rewrite set_nth_length.
    + apply set_nth_forall; [|assumption].
      now apply broadcast_to_shape with src.
Qed.

Lemma setitem_channel_fits (E : tensor) (n c h w b ch : nat) (src : image) :
  tensor_shape E n c h w -> 0 < h -> b < n -> ch < c ->
  has_shape src h w ->
  exists E', setitem_channel E b ch src = Ok E'.
Proof.
  intros HE Hh Hb Hch Hsrc.
  destruct (tensor_shape_slot HE Hb Hch)
    as [sample [slot [Hs [Hslot [_ [_ Hshape]]]]]].
  unfold setitem_channel. rewrite Hs, Hslot.
  rewrite (proj1 Hshape), (width_shape Hshape Hh).
  rewrite (broadcast_to_fits Hsrc). simpl. eauto.
Qed.

Lemma setitem_channel_mismatch (E : tensor) (n c h w b ch : nat) (src : image) :
  tensor_shape E n c h w -> b < n -> ch < c ->
  length src <> h -> length src <> 1 ->
  setitem_channel E b ch src = Raise BroadcastError.
Proof.
  intros HE Hb Hch Hh H1.
  destruct (tensor_shape_slot HE Hb Hch)
    as [sample [slot [Hs [Hslot [_ [_ Hshape]]]]]].
  unfold setitem_channel. rewrite Hs, Hslot, (proj1 Hshape).
  now rewrite broadcast_to_mismatch.
Qed.

Lemma np_zeros4_shape (n c h w : nat) :
  tensor_shape (np_zeros4 n c h w) n c h w.
Proof.
  unfold np_zeros4, np_zeros2. split; [apply repeat_length|].
  apply Forall_forall. intros sample Hs. apply repeat_spec in Hs. subst sample.
  split; [apply repeat_length|].
  apply Forall_forall. intros a Ha. apply repeat_spec in Ha. subst a.
  split; [apply repeat_length|].
  apply Forall_forall. intros row Hr. apply repeat_spec in Hr. subst row.
  apply repeat_length.
Qed.

(** ** The array handed to the network *)

Ltac next_shape H0 H1 :=
  let H := fresh "Hshape" in
  assert (H := H1);
  eapply setitem_channel_shape in H; [| exact H0 | lia].

Lemma assemble_input_shape (d hd p hp : image) (E : tensor) :
  assemble_input d hd p hp = Ok E -> tensor_shape E 1 4 256 256.
Proof.
  unfold assemble_input.
  pose proof (np_zeros4_shape 1 4 256 256) as H0.
  destruct (setitem_channel _ 0 0 d) as [E1|] eqn:H1; simpl; [|discriminate].
  next_shape H0 H1.
  destruct (setitem_channel E1 0 1 hd) as [E2|] eqn:H2; simpl; [|discriminate].
  next_shape Hshape H2.
  destruct (setitem_channel E2 0 2 p) as [E3|] eqn:H3; simpl; [|discriminate].
  next_shape Hshape0 H3.
  destruct (setitem_channel E3 0 3 hp) as [E4|] eqn:H4; simpl; [|discriminate].
  next_shape Hshape1 H4.
  intros H; inversion H; now subst.
Qed.

Lemma assemble_input_fits (d hd p hp : image) :
  has_shape d 256 256 -> has_shape hd 256 256 ->
  has_shape p 256 256 -> has_shape hp 256 256 ->
  exists E, assemble_input d hd p hp = Ok E.
Proof.
  intros Hd Hhd Hp Hhp. unfold assemble_input.
  pose proof (np_zeros4_shape 1 4 256 256) as H0.
  destruct (@setitem_channel_fits _ _ _ _ _ 0 0 d H0) as [E1 H1];
    try lia; try assumption.
  rewrite H1. simpl bind. next_shape H0 H1.
  destruct (@setitem_channel_fits _ _ _ _ _ 0 1 hd Hshape) as [E2 H2];
    try lia; try assumption.
  rewrite H2. simpl bind. next_shape Hshape H2.
  destruct (@setitem_channel_fits _ _ _ _ _ 0 2 p Hshape0) as [E3 H3];
    try lia; try assumption.
  rewrite H3. simpl bind. next_shape Hshape0 H3.
  destruct (@setitem_channel_fits _ _ _ _ _ 0 3 hp Hshape1) as [E4 H4];
    try lia; try assumption.
  rewrite H4. simpl bind. eauto.
Qed.

Lemma assemble_input_mismatch (d hd p hp : image) :
  length d <> 256 -> length d <> 1 ->
  assemble_input d hd p hp = Raise BroadcastError.
Proof.
  intros Hh H1. unfold assemble_input.
  rewrite (@setitem_channel_mismatch _ _ _ _ _ 0 0 d
             (np_zeros4_shape 1 4 256 256)); try lia; reflexivity.
Qed.


Lemma skimage_hog_accepts (x : collaborators) (a : image) (h w : nat) :
  has_shape a h w -> 12 <= h -> 12 <= w ->
  skimage_hog x a = Ok (hog x a).
Proof.
  intros Ha Hh Hw. unfold skimage_hog.
  rewrite (proj1 Ha), (width_shape Ha) by lia.
  assert (2 <= h / 6) by (apply Nat.div_le_lower_bound; lia).
  assert (2 <= w / 6) by (apply Nat.div_le_lower_bound; lia).
  destruct (Nat.ltb_spec (h / 6) 2); [lia|].
  destruct (Nat.ltb_spec (w / 6) 2); [lia|]. reflexivity.
Qed.

Lemma skimage_hog_refuses (x : collaborators) (a : image) (h w : nat) :
  has_shape a h w -> h < 12 -> skimage_hog x a = Raise HogSizeError.
Proof.
  intros Ha Hh. unfold skimage_hog. rewrite (proj1 Ha).
  assert (h / 6 < 2) by (apply Nat.Div0.div_lt_upper_bound; lia).
  destruct (Nat.ltb_spec (h / 6) 2); [reflexivity | lia].
Qed.

Section Inference.

Variable x : collaborators.
Hypothesis zoom_shape : zoom_law x.
Hypothesis hog_shape : hog_law x.

Variable field : list (list complex).
Variables H W : nat.
Hypothesis field_shape : has_shape field H W.
Hypothesis field_rows : 0 < H.
Hypothesis field_columns : 0 < W.

Lemma zoomed_shape (part : complex -> Q) (res : nat) :
  exists zh zw,
    py_truediv res (length field) = Ok zh /\
    py_truediv res (width field) = Ok zw /\
    has_shape (zoom x (map (map part) field) (zh, zw)) res res.
Proof.
  rewrite (proj1 field_shape), (width_shape field_shape field_rows).
  unfold py_truediv.
  destruct (Nat.eqb_spec H 0) as [|_]; [lia|].
  destruct (Nat.eqb_spec W 0) as [|_]; [lia|].
  do 2 eexists. split; [reflexivity|]. split; [reflexivity|].
  pose proof zoom_shape as Hz. unfold zoom_law in Hz.
  specialize (Hz (map (map part) field)
                (inject_Z (Z.of_nat res) / inject_Z (Z.of_nat H))%Q
                (inject_Z (Z.of_nat res) / inject_Z (Z.of_nat W))%Q
                H W (map_map_shape part field_shape)).
  assert (HH : zoomed_length H
                 (inject_Z (Z.of_nat res) / inject_Z (Z.of_nat H))%Q = res).
  { apply zoomed_length_exact. unfold py_truediv.
    destruct (Nat.eqb_spec H 0); [lia | reflexivity]. }
  assert (HW : zoomed_length W
                 (inject_Z (Z.of_nat res) / inject_Z (Z.of_nat W))%Q = res).
  { apply zoomed_length_exact. unfold py_truediv.
    destruct (Nat.eqb_spec W 0); [lia | reflexivity]. }
  now rewrite HH, HW in Hz.
Qed.

Lemma resample_shape (part : complex -> Q) (res : nat) (d : image) :
  resample x part field res = Ok d -> has_shape d res res.
Proof.
  unfold resample.
  destruct (zoomed_shape part res) as [zh [zw [-> [-> Hz]]]]. simpl bind.
  destruct (normalize_slice _) as [n|] eqn:Hn; simpl; [|discriminate].
  intros E; inversion E; subst d.
  apply map_map_shape. now apply normalize_slice_shape with (2 := Hn).
Qed.

Lemma resample_total (part : complex -> Q) (res : nat) :
  0 < res -> exists d, resample x part field res = Ok d.
Proof.
  intros Hres. unfold resample.
  destruct (zoomed_shape part res) as [zh [zw [-> [-> Hz]]]]. simpl bind.
  destruct (normalize_slice_total Hz Hres Hres) as [n ->]. simpl. eauto.
Qed.

Lemma network_input_unfold (res : nat) (d p : image) :
  12 <= res ->
  resample x (magnitude x) field res = Ok d ->
  resample x (angle_of x) field res = Ok p ->
  network_input x field res =
  assemble_input d (map2d (float16 x) (snd (hog x d)))
                 p (map2d (float16 x) (snd (hog x p))).
Proof.
  intros Hres Hd Hp. unfold network_input. rewrite Hd, Hp. cbn [bind].
  rewrite (@skimage_hog_accepts x p res res (resample_shape _ _ Hp) Hres Hres).
  rewrite (@skimage_hog_accepts x d res res (resample_shape _ _ Hd) Hres Hres).
  cbn [bind]. now destruct (hog x p), (hog x d).
Qed.

Lemma network_input_cases (res : nat) :
  0 < res ->
  (res = 256 -> exists E, network_input x field res = Ok E) /\
  (res < 12 -> network_input x field res = Raise HogSizeError) /\
  (12 <= res -> res <> 256 ->
   network_input x field res = Raise BroadcastError).
Proof.
  intros Hres.
  destruct (resample_total (magnitude x) Hres) as [d Hd].
  destruct (resample_total (angle_of x) Hres) as [p Hp].
  pose proof Hd as Sd. apply resample_shape in Sd.
  pose proof Hp as Sp. apply resample_shape in Sp.
  split; [|split].
  - intros ->. rewrite (@network_input_unfold 256 d p) by (assumption || lia).
    apply assemble_input_fits; try assumption;
      apply map_map_shape, hog_shape; (assumption || lia).
  - intros Hsmall. unfold network_input. rewrite Hd, Hp. cbn [bind].
    now rewrite (@skimage_hog_refuses x p res res Sp Hsmall).
  - intros Hbig H256.
    rewrite (@network_input_unfold res d p) by assumption.
    apply assemble_input_mismatch; rewrite (proj1 Sd); lia.
Qed.

Lemma network_input_ok (res : nat) (E : tensor) :
  network_input x field res = Ok E ->
  tensor_shape E 1 4 256 256 /\ res = 256.
Proof.
  intros HE. split.
  - revert HE. unfold network_input.
    destruct (resample x (magnitude x) field res) as [d|]; cbn [bind];
      [|discriminate].
    destruct (resample x (angle_of x) field res) as [p|]; cbn [bind];
      [|discriminate].
    destruct (skimage_hog x p) as [[fp hp]|]; cbn [bind]; [|discriminate].
    destruct (skimage_hog x d) as [[fd hd]|]; cbn [bind]; [|discriminate].
    apply assemble_input_shape.
  - destruct (Nat.eq_dec res 256) as [|H256]; [assumption|].
    destruct (Nat.eq_dec res 0) as [->|H0].
    + exfalso. revert HE. unfold network_input, resample.
      destruct (zoomed_shape (magnitude x) 0) as [zh [zw [-> [-> Hz]]]].
      cbn [bind]. now rewrite (normalize_slice_empty Hz).
    + destruct (network_input_cases (res := res)) as [_ [Hhog Hfail]];
        [lia|].
      destruct (Nat.lt_ge_cases res 12) as [Hs|Hb].
      * rewrite (Hhog Hs) in HE. discriminate.
      * rewrite (Hfail Hb H256) in HE. discriminate.
Qed.

(** The triple that is computed is the three outputs of the network
    multiplied by the extrema of the grids. *)
Lemma computed_parameters_denormalized {Cam : Type}
    (settings : nlse_settings) (cameras : Cam * Cam * Cam * nat)
    (resolution_out : nat) (out : Q * Q * Q) :
  computed_parameters x field resolution_out settings cameras = Ok out ->
  exists E outputs_n2 outputs_isat outputs_alpha o1 o2 o3 min_n2 max_isat
         max_alpha,
    network_input x field (snd cameras) = Ok E /\
    cnn x E = (outputs_n2, outputs_isat, outputs_alpha) /\
    getitem2 outputs_n2 0 0 = Ok o1 /\
    getitem2 outputs_isat 0 0 = Ok o2 /\
    getitem2 outputs_alpha 0 0 = Ok o3 /\
    (In min_n2 (n2 settings) /\
     forall v, In v (n2 settings) -> (min_n2 <= v)%Q) /\
    (In max_isat (isat settings) /\
     forall v, In v (isat settings) -> (v <= max_isat)%Q) /\
    (In max_alpha (alpha settings) /\
     forall v, In v (alpha settings) -> (v <= max_alpha)%Q) /\
    out = (o1 * min_n2, o2 * max_isat, o3 * max_alpha)%Q.
Proof.
  destruct cameras as [[[c1 c2] c3] res]. cbn [snd].
  unfold computed_parameters.
  destruct (list_min (n2 settings)) as [m1|] eqn:Hm1; simpl; [|discriminate].
  destruct (list_max (isat settings)) as [m2|] eqn:Hm2; simpl;
    [|discriminate].
  destruct (list_max (alpha settings)) as [m3|] eqn:Hm3; simpl;
    [|discriminate].
  destruct (network_input x field res) as [E|] eqn:HE; simpl;
    [|discriminate].
  destruct (cnn x E) as [[O1 O2] O3] eqn:Hcnn.
  destruct (getitem2 O1 0 0) as [o1|] eqn:Ho1; simpl; [|discriminate].
  destruct (getitem2 O2 0 0) as [o2|] eqn:Ho2; simpl; [|discriminate].
  destruct (getitem2 O3 0 0) as [o3|] eqn:Ho3; simpl; [|discriminate].
  intros Hout; inversion Hout; subst out.
  exists E, O1, O2, O3, o1, o2, o3, m1, m2, m3.
  repeat (split; [reflexivity || assumption|]).
  split; [now apply list_min_spec|].
  split; [now apply list_max_spec|].
  split; [now apply list_max_spec|]. reflexivity.
Qed.

(** At the training resolution 256 and for grids that are not empty the
    triple is computed. *)
Lemma computed_parameters_total {Cam : Type} (settings : nlse_settings)
    (cameras : Cam * Cam * Cam * nat) (resolution_out : nat) :
  cnn_law x ->
  n2 settings <> [] -> isat settings <> [] -> alpha settings <> [] ->
  snd cameras = 256 ->
  exists out,
    computed_parameters x field resolution_out settings cameras = Ok out.
Proof.
  destruct cameras as [[[c1 c2] c3] res]. cbn [snd].
  intros Hcnn Hn2 Hisat Halpha ->. unfold computed_parameters.
  destruct (n2 settings) as [|v1 l1]; [congruence|].
  destruct (isat settings) as [|v2 l2]; [congruence|].
  destruct (alpha settings) as [|v3 l3]; [congruence|].
  simpl list_min. simpl list_max. simpl bind.
  destruct (@network_input_cases 256) as [[E HE] _]; [lia | reflexivity|].
  rewrite HE. simpl bind.
  pose proof HE as HlenE. apply network_input_ok in HlenE.
  destruct HlenE as [[HlenE _] _].
  specialize (Hcnn E). destruct (cnn x E) as [[O1 O2] O3].
  rewrite HlenE in Hcnn. destruct Hcnn as [[L1 R1] [[L2 R2] [L3 R3]]].
  destruct O1 as [|[|o1 r1] O1]; try discriminate;
    [inversion R1; discriminate|].
  destruct O2 as [|[|o2 r2] O2]; try discriminate;
    [inversion R2; discriminate|].
  destruct O3 as [|[|o3 r3] O3]; try discriminate;
    [inversion R3; discriminate|].
  simpl. eauto.
Qed.

(** With grids that are not empty, an exception of the assembly of the
    input is the exception of the computation. *)
Lemma computed_parameters_raise {Cam : Type} (settings : nlse_settings)
    (c1 c2 c3 : Cam) (res resolution_out : nat) (e : exn) :
  n2 settings <> [] -> isat settings <> [] -> alpha settings <> [] ->
  network_input x field res = Raise e ->
  computed_parameters x field resolution_out settings (c1, c2, c3, res)
    = Raise e.
Proof.
  intros Hn2 Hisat Halpha He. unfold computed_parameters.
  destruct (n2 settings) as [|v1 l1]; [congruence|].
  destruct (isat settings) as [|v2 l2]; [congruence|].
  destruct (alpha settings) as [|v3 l3]; [congruence|].
  simpl list_min. simpl list_max. simpl bind. now rewrite He.
Qed.

Lemma computed_parameters_input {Cam : Type} (settings : nlse_settings)
    (c1 c2 c3 : Cam) (res resolution_out : nat) (out : Q * Q * Q) :
  computed_parameters x field resolution_out settings (c1, c2, c3, res)
    = Ok out ->
  exists E, network_input x field res = Ok E.
Proof.
  unfold computed_parameters.
  destruct (list_min (n2 settings)); simpl; [|discriminate].
  destruct (list_max (isat settings)); simpl; [|discriminate].
  destruct (list_max (alpha settings)); simpl; [|discriminate].
  destruct (network_input x field res) as [E|] eqn:HE; simpl;
    [|discriminate].
  eauto.
Qed.

(** C10, as the code has it. The array handed to the network always has
    the shape (1, 4, 256, 256), whatever [resolution_training] is, while
    the resampled density and phase have the shape
    [(resolution_training, resolution_training)].  For a
    [resolution_training] from 1 to 11 the call ends in [hog], which finds
    the image too small, before any channel is assigned; from 12 on and
    other than 256 the first channel assignment raises the broadcast
    error; and a call that returns has [resolution_training] equal to
    256. *)
Theorem get_parameters_input_shape {Cam : Type}
    (data_creation : nlse_settings -> Cam * Cam * Cam * nat -> result tensor)
    (plot_results_body : list (argument Cam) -> outcome unit)
    (saving_path : String.string) (settings : nlse_settings)
    (c1 c2 c3 : Cam) (resolution_training resolution_out : nat)
    (plot_generate_compare : bool) :
  let cameras := (c1, c2, c3, resolution_training) in
  let call :=
    get_parameters x data_creation plot_results_body field saving_path
      resolution_out settings cameras plot_generate_compare in
  (forall E, network_input x field resolution_training = Ok E ->
             tensor_shape E 1 4 256 256) /\
  (forall d, resample x (magnitude x) field resolution_training = Ok d ->
             has_shape d resolution_training resolution_training) /\
  (forall p, resample x (angle_of x) field resolution_training = Ok p ->
             has_shape p resolution_training resolution_training) /\
  (0 < resolution_training < 12 ->
   network_input x field resolution_training = Raise HogSizeError /\
   (n2 settings <> [] -> isat settings <> [] -> alpha settings <> [] ->
    call = Raises HogSizeError)) /\
  (12 <= resolution_training -> resolution_training <> 256 ->
   network_input x field resolution_training = Raise BroadcastError /\
   (n2 settings <> [] -> isat settings <> [] -> alpha settings <> [] ->
    call = Raises BroadcastError)) /\
  (forall out, call = Returns out -> resolution_training = 256).
Proof.
  cbv zeta. split; [|split; [|split; [|split; [|split]]]].
  - intros E HE. now apply network_input_ok in HE.
  - intros d. apply resample_shape.
  - intros p. apply resample_shape.
  - intros [Hpos Hsmall].
    destruct (network_input_cases Hpos) as [_ [Hhog _]].
    specialize (Hhog Hsmall). split; [exact Hhog|].
    intros Hn2 Hisat Halpha. unfold get_parameters.
    now rewrite (@computed_parameters_raise Cam settings c1 c2 c3
                   resolution_training resolution_out _
                   Hn2 Hisat Halpha Hhog).
  - intros Hbig H256.
    destruct (@network_input_cases resolution_training) as [_ [_ Hfail]];
      [lia|].
    specialize (Hfail Hbig H256). split; [exact Hfail|].
    intros Hn2 Hisat Halpha. unfold get_parameters.
    now rewrite (@computed_parameters_raise Cam settings c1 c2 c3
                   resolution_training resolution_out _
                   Hn2 Hisat Halpha Hfail).
  - intros out Hout.
    destruct (computed_parameters x field resolution_out settings
                (c1, c2, c3, resolution_training)) as [triple|e] eqn:Hc.
    + destruct (@computed_parameters_input Cam settings c1 c2 c3
                  resolution_training resolution_out triple Hc) as [E HE].
      now apply network_input_ok in HE.
    + unfold get_parameters in Hout. rewrite Hc in Hout. discriminate.
Qed.

(** C5. Whenever [get_parameters] returns, the three values are the three
    outputs of the network multiplied by the minimum of the [n2] grid, the
    maximum of the [isat] grid and the maximum of the [alpha] grid; and
    without [plot_generate_compare] it does return at the training
    resolution 256 for non-empty grids. *)
Theorem get_parameters_denormalizes {Cam : Type}
    (data_creation : nlse_settings -> Cam * Cam * Cam * nat -> result tensor)
    (plot_results_body : list (argument Cam) -> outcome unit)
    (saving_path : String.string) (settings : nlse_settings)
    (cameras : Cam * Cam * Cam * nat) (resolution_out : nat) :
  (forall plot_generate_compare out,
     get_parameters x data_creation plot_results_body field saving_path
       resolution_out settings cameras plot_generate_compare
       = Returns out ->
     exists E outputs_n2 outputs_isat outputs_alpha o1 o2 o3 min_n2 max_isat
            max_alpha,
       network_input x field (snd cameras) = Ok E /\
       cnn x E = (outputs_n2, outputs_isat, outputs_alpha) /\
       getitem2 outputs_n2 0 0 = Ok o1 /\
       getitem2 outputs_isat 0 0 = Ok o2 /\
       getitem2 outputs_alpha 0 0 = Ok o3 /\
       (In min_n2 (n2 settings) /\
        forall v, In v (n2 settings) -> (min_n2 <= v)%Q) /\
       (In max_isat (isat settings) /\
        forall v, In v (isat settings) -> (v <= max_isat)%Q) /\
       (In max_alpha (alpha settings) /\
        forall v, In v (alpha settings) -> (v <= max_alpha)%Q) /\
       out = (o1 * min_n2, o2 * max_isat, o3 * max_alpha)%Q) /\
  (cnn_law x ->
   n2 settings <> [] -> isat settings <> [] -> alpha settings <> [] ->
   snd cameras = 256 ->
   exists out,
     get_parameters x data_creation plot_results_body field saving_path
       resolution_out settings cameras false = Returns out).
Proof.
  split.
  - intros flag out Hout.
    apply (@computed_parameters_denormalized Cam settings cameras
             resolution_out).
    revert Hout. unfold get_parameters.
    destruct cameras as [[[c1 c2] c3] res].
    destruct (computed_parameters x field resolution_out settings
                (c1, c2, c3, res)) as [[[a b] c]|e]; [|discriminate].
    destruct flag; [|now intros Heq; injection Heq as <-].
    destruct (data_creation _ _); [|discriminate].
    destruct (resample x (magnitude x) field res); [|discriminate].
    destruct (resample x (angle_of x) field res); [|discriminate].
    destruct (call_positional _ _ _); try discriminate.
    now intros Heq; injection Heq as <-.
  - intros Hcnn Hn2 Hisat Halpha Hres.
    destruct (@computed_parameters_total Cam settings cameras resolution_out
                Hcnn Hn2 Hisat Halpha Hres) as [[[a b] c] Hout].
    exists (a, b, c). unfold get_parameters.
    destruct cameras as [[[c1 c2] c3] res]. now rewrite Hout.
Qed.

End Inference.

(** ** The stand-ins satisfy what is assumed of the collaborators *)

Lemma zoomed_length_zero (z : Q) : zoomed_length 0 z = 0.
Proof.
  unfold zoomed_length. rewrite (py_round_integer (k := 0%Z)); [reflexivity|].
  simpl. ring.
Qed.

Lemma stand_ins_zoom_law : zoom_law stand_ins.
Proof.
  intros a zh zw h w Ha. simpl zoom. unfold nearest_zoom. simpl fst. simpl snd.
  split.
  - now rewrite length_map, length_seq, (proj1 Ha).
  - apply Forall_map, Forall_forall. intros i Hi.
    rewrite length_map, length_seq.
    destruct h as [|h'].
    + rewrite (proj1 Ha), zoomed_length_zero in Hi. destruct Hi.
    + now rewrite (width_shape Ha) by lia.
Qed.

Lemma stand_ins_hog_law : hog_law stand_ins.
Proof. intros a h w Ha _ _. exact Ha. Qed.

Lemma stand_ins_cnn_law : cnn_law stand_ins.
Proof.
  intros E. simpl.
  repeat split; try (now rewrite length_map);
    apply Forall_map, Forall_forall; reflexivity.
Qed.

Lemma example_field_shape : has_shape example_field 2 2.
Proof. split; [reflexivity | repeat constructor]. Qed.

Lemma get_parameters_denormalizes_witness :
  exists out o1 o2 o3 min_n2 max_isat max_alpha,
    get_parameters stand_ins no_data_creation no_plot example_field
      "runs"%string 256 example_settings (0, 0, 0, 256) false
      = Returns out /\
    In min_n2 (n2 example_settings) /\
    In max_isat (isat example_settings) /\
    In max_alpha (alpha example_settings) /\
    out = (o1 * min_n2, o2 * max_isat, o3 * max_alpha)%Q.
Proof.
  destruct (@get_parameters_denormalizes stand_ins stand_ins_zoom_law
              stand_ins_hog_law example_field 2 2 example_field_shape
              ltac:(lia) ltac:(lia) nat no_data_creation no_plot
              "runs"%string example_settings (0, 0, 0, 256) 256)
    as [HA HB].
  destruct HB as [out Hout];
    [apply stand_ins_cnn_law | discriminate | discriminate | discriminate
    | reflexivity |].
  destruct (HA false out Hout)
    as (E & O1 & O2 & O3 & o1 & o2 & o3 & m1 & m2 & m3
        & _ & _ & _ & _ & _ & [H1 _] & [H2 _] & [H3 _] & Heq).
  exists out, o1, o2, o3, m1, m2, m3. repeat split; assumption.
Defined.

Lemma get_parameters_input_shape_witness :
  (network_input stand_ins example_field 6 = Raise HogSizeError /\
   get_parameters stand_ins no_data_creation no_plot example_field
     "runs"%string 256 example_settings (0, 0, 0, 6) false
     = Raises HogSizeError) /\
  (network_input stand_ins example_field 128 = Raise BroadcastError /\
   get_parameters stand_ins no_data_creation no_plot example_field
     "runs"%string 256 example_settings (0, 0, 0, 128) false
     = Raises BroadcastError) /\
  (forall out,
     get_parameters stand_ins no_data_creation no_plot example_field
       "runs"%string 256 example_settings (0, 0, 0, 128) false
       = Returns out -> 128 = 256).
Proof.
  destruct (@get_parameters_input_shape stand_ins stand_ins_zoom_law
              stand_ins_hog_law example_field 2 2 example_field_shape
              ltac:(lia) ltac:(lia) nat no_data_creation no_plot
              "runs"%string example_settings 0 0 0 6 256 false)
    as (_ & _ & _ & Hsmall & _ & _).
  destruct (@get_parameters_input_shape stand_ins stand_ins_zoom_law
              stand_ins_hog_law example_field 2 2 example_field_shape
              ltac:(lia) ltac:(lia) nat no_data_creation no_plot
              "runs"%string example_settings 0 0 0 128 256 false)
    as (_ & _ & _ & _ & Hfail & Hok).
  destruct Hsmall as [Hinput6 Hcall6]; [lia|].
  destruct Hfail as [Hinput Hcall]; [lia | lia |].
  split; [split; [exact Hinput6 | apply Hcall6; discriminate]|].
  split; [split; [exact Hinput | apply Hcall; discriminate]|].
  exact Hok.
Defined.

(** C10, as stated, fails at the training resolutions 1 to 11: they differ
    from 256, but it is not a channel assignment that fails.  At the
    resolution 6 the resampled images have the shape (6, 6), [hog] finds
    one cell and no block along each axis and raises its [ValueError], and
    the call ends with it before the array of zeros is created. *)
Lemma small_image_fails_in_hog :
  (exists p, resample stand_ins (angle_of stand_ins) example_field 6 = Ok p /\
             has_shape p 6 6 /\
             skimage_hog stand_ins p = Raise HogSizeError) /\
  network_input stand_ins example_field 6 = Raise HogSizeError /\
  get_parameters stand_ins no_data_creation no_plot example_field
    "runs"%string 256 example_settings (0, 0, 0, 6) false
    = Raises HogSizeError /\
  get_parameters stand_ins no_data_creation no_plot example_field
    "runs"%string 256 example_settings (0, 0, 0, 1) false
    = Raises HogSizeError.
Proof.
  split; [|split; [|split]].
  - eexists. split; [vm_compute; reflexivity|].
    split; [|vm_compute; reflexivity].
    split; [reflexivity | repeat constructor].
  - vm_compute. reflexivity.
  - vm_compute. reflexivity.
  - vm_compute. reflexivity.
Qed.

(** * Further properties *)

(** ** Augmentation keeps the samples with their labels *)

Lemma take_as_map {A : Type} (d : A) (a : list A) (indices : list nat) :
  Forall (fun i => i < length a) indices ->
  take a indices = Ok (map (fun i => nth i a d) indices).
Proof.
  induction 1 as [|i rest Hi _ IH]; simpl; [reflexivity|].
  rewrite (nth_error_nth' a d Hi), IH. reflexivity.
Qed.

Lemma nth_error_combine {A B : Type} (a : list A) (b : list B) (i : nat)
    (x : A) (y : B) :
  nth_error a i = Some x -> nth_error b i = Some y ->
  nth_error (combine a b) i = Some (x, y).
Proof.
  revert b i. induction a as [|x' a IH]; intros [|y' b] [|i]; simpl;
    try discriminate.
  - intros Hx Hy. now inversion Hx; inversion Hy.
  - apply IH.
Qed.

Lemma take_combine {A B : Type} (a : list A) (b : list B)
    (indices : list nat) (ra : list A) (rb : list B) :
  take a indices = Ok ra -> take b indices = Ok rb ->
  take (combine a b) indices = Ok (combine ra rb).
Proof.
  revert ra rb. induction indices as [|i rest IH]; intros ra rb; simpl.
  - intros Ha Hb. now inversion Ha; inversion Hb.
  - destruct (nth_error a i) as [x|] eqn:Hx; [|discriminate].
    destruct (nth_error b i) as [y|] eqn:Hy; [|discriminate].
    destruct (take a rest) as [xs|]; simpl; [|discriminate].
    destruct (take b rest) as [ys|]; simpl; [|discriminate].
    intros Ha Hb. inversion Ha; inversion Hb; subst.
    rewrite (nth_error_combine _ _ _ Hx Hy), (IH xs ys eq_refl eq_refl).
    reflexivity.
Qed.

Lemma combine_repeat {A B : Type} (x : A) (y : B) (k : nat) :
  combine (repeat x k) (repeat y k) = repeat (x, y) k.
Proof. induction k as [|k IH]; simpl; [reflexivity | now rewrite IH]. Qed.

Lemma combine_app_same {A B : Type} (a a' : list A) (b b' : list B) :
  length a = length b ->
  combine (a ++ a') (b ++ b') = combine a b ++ combine a' b'.
Proof.
  revert b. induction a as [|x a IH]; intros [|y b]; simpl;
    try discriminate; [reflexivity|].
  intros H. f_equal. apply IH. now inversion H.
Qed.

Lemma np_repeat_combine {A B : Type} (a : list A) (b : list B) (k : nat) :
  0 < k ->
  combine (np_repeat a k) (np_repeat b k) = np_repeat (combine a b) k.
Proof.
  intros Hk. unfold np_repeat. revert b.
  induction a as [|x a IH]; intros [|y b]; simpl; try reflexivity.
  - destruct k as [|k']; [lia|]. reflexivity.
  - rewrite combine_app_same by now rewrite !repeat_length.
    now rewrite combine_repeat, IH.
Qed.

Lemma map_nth_seq {A : Type} (d : A) (a : list A) (n : nat) :
  n <= length a -> map (fun i => nth i a d) (seq 0 n) = firstn n a.
Proof.
  revert n. induction a as [|x a IH]; intros [|n] Hn; simpl in *;
    try reflexivity; try lia.
  f_equal. rewrite <- seq_shift, map_map. apply IH. lia.
Qed.

Lemma take_permutation {A : Type} (a r : list A) (indices : list nat)
    (n : nat) :
  Permutation (seq 0 n) indices -> n <= length a ->
  take a indices = Ok r -> Permutation (firstn n a) r.
Proof.
  intros Hperm Hn Hr. destruct a as [|d a'].
  - assert (n = 0) by (simpl in Hn; lia). subst n.
    apply Permutation_nil in Hperm. subst indices.
    simpl in Hr. inversion Hr. constructor.
  - assert (Hin : Forall (fun i => i < length (d :: a')) indices).
    { apply Forall_forall. intros i Hi.
      apply (Permutation_in i (Permutation_sym Hperm)) in Hi.
      apply in_seq in Hi. lia. }
    rewrite (take_as_map d _ Hin) in Hr. injection Hr as <-.
    rewrite <- (@map_nth_seq _ d (d :: a') n Hn).
    now apply Permutation_map.
Qed.

Section AugmentationContents.

Variables G A L : Type.
Variable shuffle : G -> list nat -> list nat * G.
Hypothesis shuffle_permutes : forall g l, Permutation l (fst (shuffle g l)).

(** X1. When no array is shorter than [n2_labels], the samples of the
    output, each with its three labels, are up to order the first
    [len(n2_labels)] samples of the input with their own labels, sixteen
    times each: no sample is lost, invented or given the labels of another,
    and what lies beyond [len(n2_labels)] is dropped. *)
Theorem data_augmentation_keeps_pairs (g : G) (E : list A)
    (labels : label_tuple L) :
  let n := length (n2_labels labels) in
  n <= length (isat_labels labels) ->
  n <= length (alpha_labels labels) ->
  n <= length E ->
  exists E' labels',
    fst (data_augmentation shuffle g E labels) = Ok (E', labels') /\
    Permutation (np_repeat (firstn n (zip_samples E labels)) 16)
                (zip_samples E' labels').
Proof.
  intros n Hisat Halpha HE.
  rewrite data_augmentation_unfold. cbv zeta. fold n.
  set (p := fst (shuffle g (seq 0 n))).
  assert (Hp : Permutation (seq 0 n) p) by apply shuffle_permutes.
  assert (Hin : forall X (a : list X), n <= length a ->
                  exists r, take a p = Ok r).
  { intros X a Ha. apply take_total. apply Forall_forall. intros i Hi.
    apply (Permutation_in i (Permutation_sym Hp)) in Hi.
    apply in_seq in Hi. lia. }
  destruct (Hin L (n2_labels labels)) as [n2' Tn2]; [unfold n; lia|].
  destruct (Hin L (isat_labels labels) Hisat) as [isat' Tisat].
  destruct (Hin L (alpha_labels labels) Halpha) as [alpha' Talpha].
  destruct (Hin A E HE) as [E1 TE].
  rewrite Tn2, Tisat, Talpha, TE. simpl bind.
  do 2 eexists. split; [reflexivity|].
  unfold zip_samples at 2.
  cbn [n2_labels isat_labels alpha_labels]. unfold augmentation.
  rewrite !np_repeat_combine by lia.
  apply Permutation_flat_map.
  apply take_permutation with (indices := p); [exact Hp| |].
  - unfold zip_samples. rewrite !length_combine. unfold n in *. lia.
  - unfold zip_samples.
    now repeat apply take_combine.
Qed.

End AugmentationContents.

Lemma data_augmentation_keeps_pairs_witness :
  exists E' labels',
    fst (data_augmentation reversing_shuffle tt [100; 200; 300]
           (Labels 2 [10; 20] 3 [1; 2; 3] 3 [4; 5; 6])) = Ok (E', labels') /\
    Permutation
      (np_repeat
         (firstn 2 (zip_samples [100; 200; 300]
                      (Labels 2 [10; 20] 3 [1; 2; 3] 3 [4; 5; 6]))) 16)
      (zip_samples E' labels').
Proof.
  apply (@data_augmentation_keeps_pairs unit nat nat reversing_shuffle
           (fun _ l => Permutation_rev l) tt [100; 200; 300]
           (Labels 2 [10; 20] 3 [1; 2; 3] 3 [4; 5; 6])); simpl; lia.
Defined.

(** ** What normalisation returns *)

Lemma list_min_monotone (f : Q -> Q) (l : list Q) (m : Q) :
  (forall u v, (u <= v)%Q -> (f u <= f v)%Q) ->
  list_min l = Ok m ->
  exists m', list_min (map f l) = Ok m' /\ (m' == f m)%Q.
Proof.
  intros Hf Hm. destruct (list_min_spec _ Hm) as [Hin Hle].
  destruct (list_min_total (map f l) (f m) (in_map f _ _ Hin)) as [m' Hm'].
  exists m'. split; [exact Hm'|].
  destruct (list_min_spec _ Hm') as [Hin' Hle'].
  apply Qle_antisym.
  - apply Hle'. now apply in_map.
  - apply in_map_iff in Hin'. destruct Hin' as [u [<- Hu]]. auto.
Qed.

Lemma list_max_monotone (f : Q -> Q) (l : list Q) (m : Q) :
  (forall u v, (u <= v)%Q -> (f u <= f v)%Q) ->
  list_max l = Ok m ->
  exists m', list_max (map f l) = Ok m' /\ (m' == f m)%Q.
Proof.
  intros Hf Hm. destruct (list_max_spec _ Hm) as [Hin Hle].
  destruct (list_max_total (map f l) (f m) (in_map f _ _ Hin)) as [m' Hm'].
  exists m'. split; [exact Hm'|].
  destruct (list_max_spec _ Hm') as [Hin' Hle'].
  apply Qle_antisym.
  - apply in_map_iff in Hin'. destruct Hin' as [u [<- Hu]]. auto.
  - apply Hle'. now apply in_map.
Qed.

Lemma map2d_pointwise_eq (f g : Q -> Q) (a : image) :
  (forall v, (f v == g v)%Q) -> image_eq (map2d f a) (map2d g a).
Proof.
  intros Hfg. unfold image_eq, map2d.
  induction a as [|row a IH]; simpl; constructor; [|exact IH].
  induction row as [|v row IHr]; simpl; constructor; auto.
Qed.

Lemma map2d_map2d (f g : Q -> Q) (a : image) :
  map2d g (map2d f a) = map2d (fun v => g (f v)) a.
Proof.
  unfold map2d. rewrite map_map. apply map_ext. intros row. apply map_map.
Qed.

Lemma normalize_slice_unit_range (a : image) :
  has_range a = true ->
  exists y, normalize_slice a = Ok y /\ spans_unit_interval y = true /\
            map2d (fun _ => 0%Q) y = map2d (fun _ => 0%Q) a.
Proof.
  intros Hr. destruct (has_range_inv a Hr) as [lo [hi [Hlo [Hhi Hpos]]]].
  set (y := map2d (fun x => x / hi)%Q (map2d (fun x => x - lo)%Q a)).
  exists y. split; [|split].
  - unfold normalize_slice. rewrite Hlo. simpl bind. now rewrite Hhi.
  - unfold np_min in Hlo. unfold np_max in Hhi. rewrite concat_map2d in Hhi.
    destruct (normalized_extrema _ Hlo Hhi Hpos)
      as [lo' [hi' [Hlo' [Hlo'0 [Hhi' Hhi'1]]]]].
    rewrite <- !concat_map2d in Hlo', Hhi'. fold y in Hlo', Hhi'.
    destruct (list_min_spec _ Hlo') as [Hlo'_in Hlo'_le].
    destruct (list_max_spec _ Hhi') as [Hhi'_in Hhi'_le].
    apply in_map_iff in Hhi'_in. destruct Hhi'_in as [top [Htop Htop_in]].
    unfold spans_unit_interval. rewrite !andb_true_iff. repeat split.
    + apply forallb_forall. intros v Hv. rewrite andb_true_iff. split.
      * apply Qle_bool_iff. rewrite <- Hlo'0. now apply Hlo'_le.
      * apply Qle_bool_iff.
        assert (Hle : (v - lo' <= hi')%Q)
          by (apply Hhi'_le; now apply (in_map (fun x => x - lo')%Q)).
        lra.
    + apply existsb_exists. exists lo'. split; [exact Hlo'_in|].
      now apply Qeq_bool_iff.
    + apply existsb_exists. exists top. split; [exact Htop_in|].
      apply Qeq_bool_iff.
      assert (Htop' : (top - lo' == hi')%Q) by now rewrite Htop.
      lra.
  - unfold y. now rewrite !map2d_map2d.
Qed.

(** X3. On an array without empty axis whose slices all have a non-zero
    range, [normalize_data] returns an array of the same shape in which
    every entry of every slice lies between 0 and 1 and every slice holds a
    0 and a 1. *)
Theorem normalize_data_unit_range (x : ndarray) :
  no_empty_axis x = true ->
  all_slices has_range x = true ->
  exists y,
    normalize_data x = Ok y /\
    all_slices spans_unit_interval y = true /\
    nd_map (fun _ => 0%Q) y = nd_map (fun _ => 0%Q) x.
Proof.
  intros _.
  induction x as [a|l IH] using ndarray_induction; intros Hr.
  - simpl in Hr. destruct (normalize_slice_unit_range a Hr) as [y [Hy [Hu Hs]]].
    exists (Plane y). simpl. rewrite Hy. simpl. repeat split; congruence.
  - simpl in Hr. rewrite forallb_forall in Hr.
    assert (Hl : exists ys,
               mapM normalize_data l = Ok ys /\
               forallb (all_slices spans_unit_interval) ys = true /\
               map (nd_map (fun _ => 0%Q)) ys
                 = map (nd_map (fun _ => 0%Q)) l).
    { induction IH as [|x l Hx _ IHl].
      - exists []. repeat split.
      - destruct (Hx (Hr x (or_introl eq_refl))) as [y [Hy [Hu Hs]]].
        destruct IHl as [ys [Hys [Hus Hss]]].
        { intros x' Hx'. apply Hr. now right. }
        exists (y :: ys). simpl. rewrite Hy. simpl. rewrite Hys. simpl.
        rewrite Hu, Hus, Hs, Hss. repeat split. }
    destruct Hl as [ys [Hys [Hus Hss]]].
    exists (Stack ys). simpl. rewrite Hys. simpl. repeat split; congruence.
Qed.

Lemma normalize_data_unit_range_witness :
  exists y,
    normalize_data
      (Stack [Plane [[1; 2]; [3; 5]]; Plane [[0; 7]; [3; 5]]]%Q) = Ok y /\
    all_slices spans_unit_interval y = true /\
    nd_map (fun _ => 0%Q) y
      = nd_map (fun _ => 0%Q)
          (Stack [Plane [[1; 2]; [3; 5]]; Plane [[0; 7]; [3; 5]]]%Q).
Proof.
  apply (normalize_data_unit_range
           (Stack [Plane [[1; 2]; [3; 5]]; Plane [[0; 7]; [3; 5]]]%Q));
    reflexivity.
Defined.

Lemma list_max_of_nonempty_min (l : list Q) (lo : Q) :
  list_min l = Ok lo -> exists top, list_max l = Ok top.
Proof.
  intros Hlo. destruct (list_min_spec _ Hlo) as [Hin _].
  now apply list_max_total with lo.
Qed.

Lemma normalize_slice_affine (a : image) (c b : Q) :
  has_range a = true -> (0 < c)%Q ->
  exists y y',
    normalize_slice a = Ok y /\
    normalize_slice (map2d (fun v => c * v + b)%Q a) = Ok y' /\
    image_eq y' y.
Proof.
  intros Hr Hc. destruct (has_range_inv a Hr) as [lo [hi [Hlo [Hhi Hpos]]]].
  unfold np_min in Hlo. unfold np_max in Hhi. rewrite concat_map2d in Hhi.
  destruct (list_max_of_nonempty_min _ Hlo) as [top Htop].
  (* the extrema of the input, of its shift, and of the transformed array *)
  destruct (list_max_monotone (fun v => v - lo)%Q (concat a)) with (m := top)
    as [hi0 [Hhi0 Ehi0]]; [intros; lra | exact Htop |].
  rewrite Hhi in Hhi0. injection Hhi0 as <-.
  destruct (list_min_monotone (fun v => c * v + b)%Q (concat a)) with (m := lo)
    as [lo' [Hlo' Elo']]; [intros; nra | exact Hlo |].
  destruct (list_max_monotone (fun v => c * v + b - lo')%Q (concat a))
    with (m := top) as [hi' [Hhi' Ehi']]; [intros; nra | exact Htop |].
  assert (Ehi : (hi' == c * hi)%Q) by (rewrite Ehi', Elo', Ehi0; ring).
  exists (map2d (fun x => x / hi)%Q (map2d (fun x => x - lo)%Q a)).
  exists (map2d (fun x => x / hi')%Q
            (map2d (fun x => x - lo')%Q (map2d (fun v => c * v + b)%Q a))).
  split; [|split].
  - unfold normalize_slice, np_min, np_max. rewrite Hlo. simpl bind.
    now rewrite concat_map2d, Hhi.
  - unfold normalize_slice, np_min, np_max.
    rewrite concat_map2d, Hlo'. simpl bind.
    now rewrite !concat_map2d, map_map, Hhi'.
  - rewrite !map2d_map2d. apply map2d_pointwise_eq. intros v.
    rewrite Ehi, Elo'. field. split; intros E; rewrite E in *; discriminate.
Qed.

(** X4. Normalisation removes gain and offset: for [c > 0] and an array
    [x] without empty axis whose slices all have a non-zero range, the array
    [c * x + b] is normalised to the same values as [x]. *)
Theorem normalize_data_affine (x : ndarray) (c b : Q) :
  no_empty_axis x = true ->
  all_slices has_range x = true -> (0 < c)%Q ->
  exists y y',
    normalize_data x = Ok y /\
    normalize_data (nd_map (fun v => c * v + b)%Q x) = Ok y' /\
    ndarray_eq y' y.
Proof.
  intros _.
  intros Hr Hc. revert Hr.
  induction x as [a|l IH] using ndarray_induction; intros Hr.
  - simpl in Hr.
    destruct (normalize_slice_affine a b Hr Hc) as [y [y' [Hy [Hy' E]]]].
    exists (Plane y), (Plane y'). simpl. rewrite Hy, Hy'. simpl.
    repeat split. now constructor.
  - simpl in Hr. rewrite forallb_forall in Hr.
    assert (Hl : exists ys ys',
               mapM normalize_data l = Ok ys /\
               mapM normalize_data (map (nd_map (fun v => c * v + b)%Q) l)
                 = Ok ys' /\
               Forall2 ndarray_eq ys' ys).
    { induction IH as [|x l Hx _ IHl].
      - exists [], []. repeat split. constructor.
      - destruct (Hx (Hr x (or_introl eq_refl))) as [y [y' [Hy [Hy' E]]]].
        destruct IHl as [ys [ys' [Hys [Hys' Es]]]].
        { intros x' Hx'. apply Hr. now right. }
        exists (y :: ys), (y' :: ys'). simpl.
        rewrite Hy, Hy'. simpl. rewrite Hys, Hys'. simpl.
        repeat split. now constructor. }
    destruct Hl as [ys [ys' [Hys [Hys' Es]]]].
    exists (Stack ys), (Stack ys'). simpl. rewrite Hys, Hys'. simpl.
    repeat split. now constructor.
Qed.

Lemma normalize_data_affine_witness :
  exists y y',
    normalize_data (Stack [Plane [[1; 2]; [3; 5]]]%Q) = Ok y /\
    normalize_data
      (nd_map (fun v => 3 * v + (-7 # 2))%Q
         (Stack [Plane [[1; 2]; [3; 5]]]%Q)) = Ok y' /\
    ndarray_eq y' y.
Proof.
  apply (normalize_data_affine (Stack [Plane [[1; 2]; [3; 5]]]%Q) (-7 # 2));
    reflexivity.
Defined.

(** ** When normalisation raises *)

Lemma normalize_slice_returns (a : image) :
  (has_entries a = true -> exists y, normalize_slice a = Ok y) /\
  (has_entries a = false -> normalize_slice a = Raise EmptyReduction).
Proof.
  unfold has_entries, normalize_slice, np_min, np_max.
  destruct (concat a) as [|v l] eqn:Hc; split; try discriminate.
  - reflexivity.
  - intros _. simpl list_min. simpl bind. rewrite concat_map2d, Hc.
    simpl. eauto.
Qed.

(** X5. On an array without empty axis [normalize_data] raises exactly
    when one of the slices has no entry, and then with the error of an
    empty reduction; a slice without range, such as a constant one, does
    not make it raise. *)
Theorem normalize_data_raises (x : ndarray) :
  no_empty_axis x = true ->
  (all_slices has_entries x = true -> exists y, normalize_data x = Ok y) /\
  (all_slices has_entries x = false ->
   normalize_data x = Raise EmptyReduction).
Proof.
  intros _.
  induction x as [a|l IH] using ndarray_induction.
  - simpl. destruct (normalize_slice_returns a) as [Hok Hraise]. split.
    + intros H. destruct (Hok H) as [y ->]. simpl. eauto.
    + intros H. now rewrite (Hraise H).
  - simpl.
    assert (Hl : (forallb (all_slices has_entries) l = true ->
                  exists ys, mapM normalize_data l = Ok ys) /\
                 (forallb (all_slices has_entries) l = false ->
                  mapM normalize_data l = Raise EmptyReduction)).
    { induction IH as [|x l [Hok Hraise] _ [IHok IHraise]]; simpl.
      - split; [eauto | discriminate].
      - destruct (all_slices has_entries x); simpl.
        + destruct (Hok eq_refl) as [y ->]. simpl. split.
          * intros H. destruct (IHok H) as [ys ->]. simpl. eauto.
          * intros H. now rewrite (IHraise H).
        + split; [discriminate|]. intros _. now rewrite (Hraise eq_refl). }
    destruct Hl as [Hok Hraise]. split.
    + intros H. destruct (Hok H) as [ys ->]. simpl. eauto.
    + intros H. now rewrite (Hraise H).
Qed.

Lemma normalize_data_raises_witness :
  (exists y, normalize_data (Stack [Plane [[1; 1]]; Plane [[2]]]%Q) = Ok y) /\
  normalize_data (Stack [Plane [[1; 2]]; Plane [[]]]%Q)
    = Raise EmptyReduction.
Proof.
  split.
  - apply (normalize_data_raises (Stack [Plane [[1; 1]]; Plane [[2]]]%Q));
      reflexivity.
  - apply (normalize_data_raises (Stack [Plane [[1; 2]]; Plane [[]]]%Q));
      reflexivity.
Defined.

(** ** The canonical form that [general_extrema] returns *)

Lemma Qlt_bool_iff (x y : Q) : Qlt_bool x y = true <-> (x < y)%Q.
Proof.
  unfold Qlt_bool. rewrite negb_true_iff. split.
  - intros Hb. apply Qnot_le_lt. intros Hle.
    apply Qle_bool_iff in Hle. congruence.
  - intros Hlt. destruct (Qle_bool y x) eqn:Hb; [|reflexivity].
    apply Qle_bool_iff in Hb. exfalso. lra.
Qed.

Lemma Qlt_bool_false_iff (x y : Q) : Qlt_bool x y = false <-> (y <= x)%Q.
Proof.
  unfold Qlt_bool. rewrite negb_false_iff. apply Qle_bool_iff.
Qed.

Lemma getitem2_in (a : image) (i j : nat) (v : Q) :
  getitem2 a i j = Ok v -> In v (concat a).
Proof.
  unfold getitem2.
  destruct (nth_error a i) as [row|] eqn:Hrow; [|discriminate].
  destruct (nth_error row j) as [v'|] eqn:Hv; [|discriminate].
  intros H; inversion H; subst v'.
  apply in_concat. exists row. split; eapply nth_error_In; eassumption.
Qed.

Lemma getitem2_map2d (f : Q -> Q) (a : image) (i j : nat) :
  getitem2 (map2d f a) i j = (v <- getitem2 a i j ;; Ok (f v)).
Proof.
  unfold getitem2, map2d. rewrite nth_error_map.
  destruct (nth_error a i) as [row|]; simpl; [|reflexivity].
  rewrite nth_error_map. now destruct (nth_error row j).
Qed.

Lemma map2d_length (f : Q -> Q) (a : image) : length (map2d f a) = length a.
Proof. apply length_map. Qed.

Lemma map2d_width (f : Q -> Q) (a : image) : width (map2d f a) = width a.
Proof. destruct a; simpl; [reflexivity | apply length_map]. Qed.

Lemma map2d_pointwise_in (f g : Q -> Q) (a : image) :
  (forall v, In v (concat a) -> (f v == g v)%Q) ->
  image_eq (map2d f a) (map2d g a).
Proof.
  unfold image_eq, map2d.
  induction a as [|row a IH]; intros Hfg; simpl; constructor.
  - assert (Hrow : forall v, In v row -> (f v == g v)%Q).
    { intros v Hv. apply Hfg. simpl. apply in_or_app. now left. }
    clear Hfg IH. induction row as [|v row IHr]; simpl; constructor.
    + apply Hrow. now left.
    + apply IHr. intros u Hu. apply Hrow. now right.
  - apply IH. intros v Hv. apply Hfg. simpl. apply in_or_app. now right.
Qed.

Lemma np_abs_involutive (a : image) : np_abs (np_abs a) = np_abs a.
Proof.
  unfold np_abs. rewrite map2d_map2d. unfold map2d.
  apply map_ext. intros row. apply map_ext. intros [n d].
  unfold Qabs. now rewrite Z.abs_idemp.
Qed.

Lemma np_abs_nonneg (a : image) :
  Forall (Forall (fun v => (0 <= v)%Q)) (np_abs a).
Proof.
  unfold np_abs, map2d. apply Forall_map, Forall_forall. intros row _.
  apply Forall_map, Forall_forall. intros v _. apply Qabs_nonneg.
Qed.

(** What every returned array looks like: it is the absolute value of the
    shifted array, and its centre entry lies between 0 and its corner
    entry. *)
Lemma general_extrema_form (E out : image) :
  general_extrema E = Ok out ->
  exists shifted center corner,
    out = np_abs shifted /\
    length out = length E /\ width out = width E /\
    getitem2 out (length E / 2) (width E / 2) = Ok center /\
    getitem2 out 0 0 = Ok corner /\
    (0 <= center)%Q /\ (center <= corner)%Q.
Proof.
  unfold general_extrema, general_extrema_shift.
  destruct (getitem2 E (length E / 2) (width E / 2)) as [c|] eqn:Hc;
    cbn [bind]; [|discriminate].
  destruct (getitem2 E 0 0) as [k|] eqn:Hk; cbn [bind]; [|discriminate].
  pose proof (getitem2_in _ _ _ Hc) as Hc_in.
  pose proof (getitem2_in _ _ _ Hk) as Hk_in.
  destruct (Qlt_bool k c) eqn:Hkc.
  - apply Qlt_bool_iff in Hkc.
    destruct (np_max E) as [m|] eqn:Hm; cbn [bind]; [|discriminate].
    intros H; inversion H; subst out. unfold np_max in Hm.
    destruct (list_max_spec _ Hm) as [_ Hle].
    pose proof (Hle c Hc_in). pose proof (Hle k Hk_in).
    exists (map2d (fun x => x - m)%Q E), (Qabs (c - m)), (Qabs (k - m)).
    unfold np_abs. rewrite !map2d_length, !map2d_width, !getitem2_map2d.
    rewrite Hc, Hk. cbn [bind].
    repeat split; [apply Qabs_nonneg|].
    rewrite !Qabs_neg by lra. lra.
  - apply Qlt_bool_false_iff in Hkc. cbn [bind].
    destruct (Qlt_bool c 0) eqn:Hc0.
    + apply Qlt_bool_iff in Hc0.
      destruct (np_min E) as [m|] eqn:Hm; cbn [bind]; [|discriminate].
      intros H; inversion H; subst out. unfold np_min in Hm.
      destruct (list_min_spec _ Hm) as [_ Hle].
      pose proof (Hle c Hc_in). pose proof (Hle k Hk_in).
      exists (map2d (fun x => x - m)%Q E), (Qabs (c - m)), (Qabs (k - m)).
      unfold np_abs. rewrite !map2d_length, !map2d_width, !getitem2_map2d.
      rewrite Hc, Hk. cbn [bind].
      repeat split; [apply Qabs_nonneg|].
      rewrite !Qabs_pos by lra. lra.
    + apply Qlt_bool_false_iff in Hc0.
      intros H; inversion H; subst out.
      exists E, (Qabs c), (Qabs k).
      unfold np_abs. rewrite !map2d_length, !map2d_width, !getitem2_map2d.
      rewrite Hc, Hk. cbn [bind].
      repeat split; [apply Qabs_nonneg|].
      rewrite !Qabs_pos by lra. exact Hkc.
Qed.

(** X6. Every array that [general_extrema] returns has the shape of the
    input, no negative entry, and a centre entry that does not exceed the
    corner entry. *)
Theorem general_extrema_canonical (E out : image) :
  general_extrema E = Ok out ->
  length out = length E /\ width out = width E /\
  Forall (Forall (fun v => (0 <= v)%Q)) out /\
  exists center corner,
    getitem2 out (length out / 2) (width out / 2) = Ok center /\
    getitem2 out 0 0 = Ok corner /\
    (center <= corner)%Q.
Proof.
  intros H. destruct (general_extrema_form _ H)
    as (shifted & c & k & -> & Hl & Hw & Hc & Hk & H0 & Hck).
  split; [exact Hl|]. split; [exact Hw|]. split; [apply np_abs_nonneg|].
  exists c, k. rewrite Hl, Hw. auto.
Qed.

Lemma general_extrema_canonical_witness :
  let E := [[1; 0; 0]; [0; 4; 0]; [0; 0; -3]]%Q in
  let out := [[3; 4; 4]; [4; 0; 4]; [4; 4; 7]]%Q in
  length out = length E /\ width out = width E /\
  Forall (Forall (fun v => (0 <= v)%Q)) out /\
  exists center corner,
    getitem2 out (length out / 2) (width out / 2) = Ok center /\
    getitem2 out 0 0 = Ok corner /\
    (center <= corner)%Q.
Proof.
  apply (@general_extrema_canonical
           [[1; 0; 0]; [0; 4; 0]; [0; 0; -3]]%Q
           [[3; 4; 4]; [4; 0; 4]; [4; 4; 7]]%Q).
  reflexivity.
Defined.

(** X7. [general_extrema] is idempotent: applied to an array it has
    returned, it returns that array unchanged. *)
Theorem general_extrema_idempotent (E out : image) :
  general_extrema E = Ok out -> general_extrema out = Ok out.
Proof.
  intros H. destruct (general_extrema_form _ H)
    as (shifted & c & k & Hout & Hl & Hw & Hc & Hk & H0 & Hck).
  unfold general_extrema, general_extrema_shift.
  rewrite Hl, Hw, Hc, Hk. simpl bind.
  rewrite (proj2 (Qlt_bool_false_iff k c) Hck). simpl bind.
  rewrite (proj2 (Qlt_bool_false_iff c 0) H0). simpl bind.
  rewrite Hout. now rewrite np_abs_involutive.
Qed.

Lemma general_extrema_idempotent_witness :
  general_extrema [[3; 4; 4]; [4; 0; 4]; [4; 4; 7]]%Q
    = Ok [[3; 4; 4]; [4; 0; 4]; [4; 4; 7]]%Q.
Proof.
  apply (@general_extrema_idempotent
           [[1; 0; 0]; [0; 4; 0]; [0; 0; -3]]%Q).
  reflexivity.
Defined.

(** X8. In the two branches that subtract, the absolute value folds
    nothing: when the centre exceeds the corner the result is
    [max(E) - E], and when the centre is negative and does not exceed the
    corner it is [E - min(E)], entry by entry. *)
Theorem general_extrema_closed_forms (E : image) (center corner : Q) :
  getitem2 E (length E / 2) (width E / 2) = Ok center ->
  getitem2 E 0 0 = Ok corner ->
  ((corner < center)%Q ->
   exists m out,
     np_max E = Ok m /\ general_extrema E = Ok out /\
     image_eq out (map2d (fun v => m - v)%Q E)) /\
  ((center <= corner)%Q -> (center < 0)%Q ->
   exists m out,
     np_min E = Ok m /\ general_extrema E = Ok out /\
     image_eq out (map2d (fun v => v - m)%Q E)).
Proof.
  intros Hc Hk. pose proof (getitem2_in _ _ _ Hc) as Hin.
  unfold general_extrema, general_extrema_shift. rewrite Hc, Hk.
  cbn [bind]. split.
  - intros Hlt. rewrite (proj2 (Qlt_bool_iff corner center) Hlt).
    destruct (list_max_total _ _ Hin) as [m Hm]. exists m.
    unfold np_max. rewrite Hm. cbn [bind]. eexists.
    split; [reflexivity|]. split; [reflexivity|].
    unfold np_abs. rewrite map2d_map2d. apply map2d_pointwise_in.
    intros v Hv. destruct (list_max_spec _ Hm) as [_ Hle].
    specialize (Hle v Hv). rewrite Qabs_neg by lra. ring.
  - intros Hle Hneg. rewrite (proj2 (Qlt_bool_false_iff corner center) Hle).
    rewrite (proj2 (Qlt_bool_iff center 0) Hneg).
    destruct (list_min_total _ _ Hin) as [m Hm]. exists m.
    unfold np_min. rewrite Hm. cbn [bind]. eexists.
    split; [reflexivity|]. split; [reflexivity|].
    unfold np_abs. rewrite map2d_map2d. apply map2d_pointwise_in.
    intros v Hv. destruct (list_min_spec _ Hm) as [_ Hge].
    specialize (Hge v Hv). rewrite Qabs_pos by lra. reflexivity.
Qed.

Lemma general_extrema_closed_forms_witness :
  (exists m out,
     np_max [[1; 0; 0]; [0; 4; 0]; [0; 0; -3]]%Q = Ok m /\
     general_extrema [[1; 0; 0]; [0; 4; 0]; [0; 0; -3]]%Q = Ok out /\
     image_eq out
       (map2d (fun v => m - v)%Q [[1; 0; 0]; [0; 4; 0]; [0; 0; -3]]%Q)) /\
  (exists m out,
     np_min [[-1; 0; 0]; [0; -1; 0]; [0; 0; -3]]%Q = Ok m /\
     general_extrema [[-1; 0; 0]; [0; -1; 0]; [0; 0; -3]]%Q = Ok out /\
     image_eq out
       (map2d (fun v => v - m)%Q [[-1; 0; 0]; [0; -1; 0]; [0; 0; -3]]%Q)).
Proof.
  split.
  - apply (@general_extrema_closed_forms
             [[1; 0; 0]; [0; 4; 0]; [0; 0; -3]]%Q 4%Q 1%Q);
      reflexivity.
  - apply (@general_extrema_closed_forms
             [[-1; 0; 0]; [0; -1; 0]; [0; 0; -3]]%Q (-1)%Q (-1)%Q);
      try reflexivity; discriminate.
Defined.

(** X9. On a 2-D array [general_extrema] raises [IndexError] when the
    array has no row or no column, and returns otherwise. *)
Theorem general_extrema_index_error (E : image) (h w : nat) :
  has_shape E h w ->
  (h = 0 \/ w = 0 -> general_extrema E = Raise IndexError) /\
  (0 < h -> 0 < w -> exists out, general_extrema E = Ok out).
Proof.
  intros HE. split.
  - intros Hzero. unfold general_extrema, general_extrema_shift, getitem2.
    destruct (nth_error E (length E / 2)) as [row|] eqn:Hrow;
      [|reflexivity].
    assert (Hh : 0 < h).
    { destruct HE as [<- _].
      assert (length E / 2 < length E) by (apply nth_error_Some; congruence).
      lia. }
    assert (Hw : length row = w).
    { destruct HE as [_ Hrows]. rewrite Forall_forall in Hrows.
      apply Hrows. now apply nth_error_In with (length E / 2). }
    destruct (nth_error row (width E / 2)) as [v|] eqn:Hv; [|reflexivity].
    assert (width E / 2 < length row) by (apply nth_error_Some; congruence).
    lia.
  - intros Hh Hw.
    assert (Hcenter : exists c,
               getitem2 E (length E / 2) (width E / 2) = Ok c).
    { unfold getitem2. rewrite (width_shape HE Hh).
      destruct (nth_error E (length E / 2)) as [row|] eqn:Hrow.
      - assert (Hlen : length row = w).
        { destruct HE as [_ Hrows]. rewrite Forall_forall in Hrows.
          apply Hrows. now apply nth_error_In with (length E / 2). }
        destruct (nth_error row (w / 2)) as [v|] eqn:Hv; [eauto|].
        apply nth_error_None in Hv.
        pose proof (Nat.Div0.div_lt_upper_bound w 2 w). lia.
      - apply nth_error_None in Hrow. destruct HE as [Hlen _].
        pose proof (Nat.Div0.div_lt_upper_bound (length E) 2 (length E)).
        lia. }
    assert (Hcorner : exists k, getitem2 E 0 0 = Ok k).
    { unfold getitem2. destruct E as [|row E'].
      - destruct HE as [Hlen _]. simpl in Hlen. lia.
      - simpl. destruct row as [|v row]; [|eauto].
        destruct HE as [_ Hrows]. inversion Hrows; subst. simpl in *. lia. }
    destruct Hcenter as [c Hc]. destruct Hcorner as [k Hk].
    pose proof (getitem2_in _ _ _ Hc) as Hin.
    destruct (list_max_total _ _ Hin) as [hi Hhi].
    destruct (list_min_total _ _ Hin) as [lo Hlo].
    unfold general_extrema, general_extrema_shift, np_max, np_min.
    rewrite Hc, Hk, Hhi, Hlo. cbn [bind].
    destruct (Qlt_bool k c); cbn [bind]; [eauto|].
    destruct (Qlt_bool c 0); cbn [bind]; eauto.
Qed.

Lemma general_extrema_index_error_witness :
  general_extrema [[]; []] = Raise IndexError /\
  exists out, general_extrema [[1; 2]; [3; 4]]%Q = Ok out.
Proof.
  split.
  - apply (@general_extrema_index_error [[]; []] 2 0);
      [split; [reflexivity | repeat constructor] | now right].
  - apply (@general_extrema_index_error [[1; 2]; [3; 4]]%Q 2 2);
      [split; [reflexivity | repeat constructor] | lia | lia].
Defined.

(** ** Further properties of the fringes *)

Section FringeProperties.

Local Open Scope R_scope.

Lemma line_noise_pixel (image : rimage) (h w : nat) (num_lines : Z)
    (amplitude angle : R) (x y : nat) :
  has_shape image h w -> (x < w)%nat -> (y < h)%nat ->
  at2 (line_noise image num_lines amplitude angle) y x =
  at2 image y x
  + amplitude * sin ((INR x * cos (radians angle)
                      + INR y * sin (radians angle))
                     * wave_frequency num_lines h w).
Proof.
  intros Himage Hx Hy. unfold line_noise.
  rewrite (width_shape Himage) by lia. rewrite (proj1 Himage).
  destruct (meshgrid_shape h w) as [HX HY].
  pose proof (meshgrid_entries (h := h) (w := w)) as Hgrid.
  destruct (meshgrid (arange w) (arange h)) as [X Y].
  cbn [fst snd] in HX, HY, Hgrid.
  set (a := radians angle).
  set (Xr := radd2d (rmap2d (fun x => x * cos a) X)
                    (rmap2d (fun y => y * sin a) Y)).
  assert (HXr : has_shape Xr h w)
    by (apply radd2d_shape; now apply rmap2d_shape).
  rewrite (at2_radd2d Himage (rmap2d_shape _ HXr) Hy Hx).
  rewrite (at2_rmap2d _ HXr Hy Hx). unfold Xr.
  rewrite (at2_radd2d (rmap2d_shape _ HX) (rmap2d_shape _ HY) Hy Hx).
  rewrite (at2_rmap2d _ HX Hy Hx), (at2_rmap2d _ HY Hy Hx).
  now destruct (Hgrid y x Hy Hx) as [-> ->].
Qed.

(** X10. The fringes change no pixel by more than the amplitude, and they
    leave the pixel at the origin as it is. *)
Theorem line_noise_bounded (image : rimage) (h w : nat) (num_lines : Z)
    (amplitude angle : R) :
  has_shape image h w ->
  (forall x y, (x < w)%nat -> (y < h)%nat ->
     Rabs (at2 (line_noise image num_lines amplitude angle) y x
           - at2 image y x) <= Rabs amplitude) /\
  ((0 < w)%nat -> (0 < h)%nat ->
   at2 (line_noise image num_lines amplitude angle) 0 0 = at2 image 0 0).
Proof.
  intros Himage. split.
  - intros x y Hx Hy. rewrite (line_noise_pixel _ _ _ Himage Hx Hy).
    match goal with
    | |- Rabs (?p + amplitude * sin ?t - ?p) <= _ =>
        replace (p + amplitude * sin t - p) with (amplitude * sin t) by ring;
        rewrite Rabs_mult; pose proof (SIN_bound t) as [Hlo Hhi];
        assert (Hs : Rabs (sin t) <= 1) by (apply Rabs_le; Lra.lra)
    end.
    pose proof (Rabs_pos amplitude).
    rewrite <- (Rmult_1_r (Rabs amplitude)) at 2.
    now apply Rmult_le_compat_l.
  - intros Hw Hh. rewrite (line_noise_pixel _ _ _ Himage Hw Hh).
    simpl INR. rewrite !Rmult_0_l, Rplus_0_l, Rmult_0_l, sin_0. ring.
Qed.

Lemma line_noise_bounded_witness :
  (forall x y, (x < 2)%nat -> (y < 2)%nat ->
     (Rabs (at2 (line_noise [[0; 0]; [0; 0]]%R 50 1 30) y x
            - at2 [[0; 0]; [0; 0]]%R y x) <= Rabs 1)%R) /\
  ((0 < 2)%nat -> (0 < 2)%nat ->
   at2 (line_noise [[0; 0]; [0; 0]]%R 50 1 30) 0 0
     = at2 [[0; 0]; [0; 0]]%R 0 0).
Proof.
  apply (@line_noise_bounded [[0; 0]; [0; 0]]%R 2 2 50%Z 1%R 30%R).
  split; [reflexivity | repeat constructor].
Defined.

(** X12. Without lines the image comes back unchanged: [num_lines = 0]
    adds nothing to any pixel, whatever the amplitude and the angle. *)
Theorem line_noise_no_lines (image : rimage) (h w : nat)
    (amplitude angle : R) :
  has_shape image h w ->
  has_shape (line_noise image 0 amplitude angle) h w /\
  forall x y, (x < w)%nat -> (y < h)%nat ->
    at2 (line_noise image 0 amplitude angle) y x = at2 image y x.
Proof.
  intros Himage. split.
  - unfold line_noise. destruct h as [|h'].
    + destruct Himage as [Hlen _]. apply length_zero_iff_nil in Hlen.
      subst image. split; [reflexivity | constructor].
    + rewrite (width_shape Himage) by lia. rewrite (proj1 Himage).
      destruct (meshgrid_shape (S h') w) as [HX HY].
      destruct (meshgrid (arange w) (arange (S h'))) as [X Y].
      cbn [fst snd] in HX, HY.
      apply radd2d_shape; [assumption|].
      apply rmap2d_shape, radd2d_shape; now apply rmap2d_shape.
  - intros x y Hx Hy. rewrite (line_noise_pixel _ _ _ Himage Hx Hy).
    unfold wave_frequency, Rdiv.
    rewrite !Rmult_0_l, Rmult_0_r, sin_0. ring.
Qed.

Lemma line_noise_no_lines_witness :
  has_shape (line_noise [[1; 2]; [3; 4]]%R 0 1 30) 2 2 /\
  forall x y, (x < 2)%nat -> (y < 2)%nat ->
    at2 (line_noise [[1; 2]; [3; 4]]%R 0 1 30) y x
      = at2 [[1; 2]; [3; 4]]%R y x.
Proof.
  apply (@line_noise_no_lines [[1; 2]; [3; 4]]%R 2 2 1%R 30%R).
  split; [reflexivity | repeat constructor].
Defined.

End FringeProperties.

(** ** Channels: what is written is what is read *)

Lemma set_nth_same {A : Type} (i : nat) (v : A) (l : list A) :
  i < length l -> nth_error (set_nth i v l) i = Some v.
Proof.
  revert i. induction l as [|y l IH]; intros [|i] Hi; simpl in *;
    try lia; [reflexivity|].
  apply IH. lia.
Qed.

Lemma set_nth_other {A : Type} (i j : nat) (v : A) (l : list A) :
  i <> j -> nth_error (set_nth i v l) j = nth_error l j.
Proof.
  revert i j. induction l as [|y l IH]; intros [|i] [|j] Hij; simpl;
    try reflexivity; try congruence.
  apply IH. congruence.
Qed.

(** X13. A channel assignment that succeeds stores the source, broadcast
    to the shape of the channel, where it is read back; every other channel
    of every sample reads as before. *)
Theorem setitem_channel_lookup (E E' : tensor) (b c : nat) (src : image) :
  setitem_channel E b c src = Ok E' ->
  exists slot new,
    getitem_channel E b c = Ok slot /\
    broadcast_to (length slot) (width slot) src = Ok new /\
    getitem_channel E' b c = Ok new /\
    length E' = length E /\
    forall b' c', (b', c') <> (b, c) ->
      getitem_channel E' b' c' = getitem_channel E b' c'.
Proof.
  unfold setitem_channel, getitem_channel.
  destruct (nth_error E b) as [sample|] eqn:Hs; [|discriminate].
  destruct (nth_error sample c) as [slot|] eqn:Hslot; [|discriminate].
  destruct (broadcast_to (length slot) (width slot) src) as [new|] eqn:Hnew;
    simpl; [|discriminate].
  intros H; inversion H; subst E'. exists slot, new.
  assert (Hb : b < length E) by (apply nth_error_Some; congruence).
  assert (Hc : c < length sample) by (apply nth_error_Some; congruence).
  split; [reflexivity|]. split; [exact Hnew|].
  split; [|split].
  - now rewrite (set_nth_same _ _ Hb), (set_nth_same _ _ Hc).
  - apply set_nth_length.
  - intros b' c' Hne. destruct (Nat.eq_dec b b') as [<-|Hbb].
    + rewrite (set_nth_same _ _ Hb), Hs.
      rewrite set_nth_other by congruence. reflexivity.
    + now rewrite (set_nth_other _ _ Hbb).
Qed.

Lemma setitem_channel_lookup_witness :
  exists slot new,
    getitem_channel [[[[0; 0]]; [[0; 0]]]]%Q 0 1 = Ok slot /\
    broadcast_to (length slot) (width slot) [[7]]%Q = Ok new /\
    getitem_channel [[[[0; 0]]; [[7; 7]]]]%Q 0 1 = Ok new /\
    length [[[[0; 0]]; [[7; 7]]]]%Q = length [[[[0; 0]]; [[0; 0]]]]%Q /\
    forall b' c', (b', c') <> (0, 1) ->
      getitem_channel [[[[0; 0]]; [[7; 7]]]]%Q b' c'
        = getitem_channel [[[[0; 0]]; [[0; 0]]]]%Q b' c'.
Proof.
  apply (@setitem_channel_lookup [[[[0; 0]]; [[0; 0]]]]%Q
           [[[[0; 0]]; [[7; 7]]]]%Q 0 1 [[7]]%Q).
  reflexivity.
Defined.

Lemma np_zeros2_shape (h w : nat) : has_shape (np_zeros2 h w) h w.
Proof.
  unfold np_zeros2. split; [apply repeat_length|].
  apply Forall_forall. intros row Hr. apply repeat_spec in Hr. subst row.
  apply repeat_length.
Qed.

Lemma setitem_channel_exact (sample : list image) (c : nat)
    (slot src : image) (h w : nat) :
  nth_error sample c = Some slot ->
  has_shape slot h w -> 0 < h -> has_shape src h w ->
  setitem_channel [sample] 0 c src = Ok [set_nth c src sample].
Proof.
  intros Hslot Hshape Hh Hsrc. unfold setitem_channel.
  cbn [nth_error]. rewrite Hslot.
  rewrite (proj1 Hshape), (width_shape Hshape Hh).
  now rewrite (broadcast_to_fits Hsrc).
Qed.

Lemma assemble_input_channels (d hd p hp : image) :
  has_shape d 256 256 -> has_shape hd 256 256 ->
  has_shape p 256 256 -> has_shape hp 256 256 ->
  assemble_input d hd p hp = Ok [[d; hd; p; hp]].
Proof.
  intros Hd Hhd Hp Hhp. unfold assemble_input, np_zeros4.
  pose proof (np_zeros2_shape 256 256) as HZ.
  remember (np_zeros2 256 256) as Z0 eqn:EZ. clear EZ.
  change (repeat (repeat Z0 4) 1) with [[Z0; Z0; Z0; Z0]].
  rewrite (@setitem_channel_exact [Z0; Z0; Z0; Z0] 0 Z0 d 256 256
             eq_refl HZ ltac:(lia) Hd).
  cbn [bind set_nth].
  rewrite (@setitem_channel_exact [d; Z0; Z0; Z0] 1 Z0 hd 256 256
             eq_refl HZ ltac:(lia) Hhd).
  cbn [bind set_nth].
  rewrite (@setitem_channel_exact [d; hd; Z0; Z0] 2 Z0 p 256 256
             eq_refl HZ ltac:(lia) Hp).
  cbn [bind set_nth].
  rewrite (@setitem_channel_exact [d; hd; p; Z0] 3 Z0 hp 256 256
             eq_refl HZ ltac:(lia) Hhp).
  reflexivity.
Qed.

Lemma broadcast_to_raise (h w : nat) (src : image) (e : exn) :
  broadcast_to h w src = Raise e -> e = BroadcastError.
Proof.
  unfold broadcast_to.
  destruct (mapM (broadcast_row w) src) as [rows|e'] eqn:Hrows; simpl.
  - destruct (length rows =? h); [discriminate|].
    destruct rows as [|row [|row' rows]]; try discriminate;
      now intros H; inversion H.
  - intros H; inversion H; subst e'.
    apply mapM_raise in Hrows. destruct Hrows as [row [_ Hrow]].
    now apply broadcast_row_raise in Hrow.
Qed.

Lemma setitem_channel_raise (E : tensor) (n c h w b ch : nat) (src : image)
    (e : exn) :
  tensor_shape E n c h w -> b < n -> ch < c ->
  setitem_channel E b ch src = Raise e -> e = BroadcastError.
Proof.
  intros HE Hb Hch.
  destruct (tensor_shape_slot HE Hb Hch)
    as [sample [slot [Hs [Hslot _]]]].
  unfold setitem_channel. rewrite Hs, Hslot.
  destruct (broadcast_to _ _ src) as [new|e'] eqn:Hnew; simpl;
    [discriminate|].
  intros H; inversion H; subst e'. now apply broadcast_to_raise in Hnew.
Qed.

Lemma assemble_input_raise (d hd p hp : image) (e : exn) :
  assemble_input d hd p hp = Raise e -> e = BroadcastError.
Proof.
  unfold assemble_input.
  pose proof (np_zeros4_shape 1 4 256 256) as H0.
  destruct (setitem_channel _ 0 0 d) as [E1|e1] eqn:H1; cbn [bind].
  2: { intros H; inversion H; subst e1.
       eapply setitem_channel_raise; [exact H0 | | | exact H1]; lia. }
  next_shape H0 H1.
  destruct (setitem_channel E1 0 1 hd) as [E2|e2] eqn:H2; cbn [bind].
  2: { intros H; inversion H; subst e2.
       eapply setitem_channel_raise; [exact Hshape | | | exact H2]; lia. }
  next_shape Hshape H2.
  destruct (setitem_channel E2 0 2 p) as [E3|e3] eqn:H3; cbn [bind].
  2: { intros H; inversion H; subst e3.
       eapply setitem_channel_raise; [exact Hshape0 | | | exact H3]; lia. }
  next_shape Hshape0 H3.
  destruct (setitem_channel E3 0 3 hp) as [E4|e4] eqn:H4; cbn [bind].
  2: { intros H; inversion H; subst e4.
       eapply setitem_channel_raise; [exact Hshape1 | | | exact H4]; lia. }
  discriminate.
Qed.

(** ** Further properties of the inference driver *)

Lemma getitem2_raise (a : image) (i j : nat) (e : exn) :
  getitem2 a i j = Raise e -> e = IndexError.
Proof.
  unfold getitem2. destruct (nth_error a i) as [row|].
  - destruct (nth_error row j); [discriminate|]. now intros H; inversion H.
  - now intros H; inversion H.
Qed.

Section InferenceProperties.

Variable x : collaborators.
Hypothesis zoom_shape : zoom_law x.
Hypothesis hog_shape : hog_law x.

Variable field : list (list complex).
Variables H W : nat.
Hypothesis field_shape : has_shape field H W.
Hypothesis field_rows : 0 < H.
Hypothesis field_columns : 0 < W.

(** X14. At the training resolution 256 the array handed to the network is
    one sample of four channels: the resampled density, the descriptor
    image of the density, the resampled phase and the descriptor image of
    the phase, in this order, and nothing is left of the zeros. *)
Theorem network_input_channels :
  exists d p,
    resample x (magnitude x) field 256 = Ok d /\
    resample x (angle_of x) field 256 = Ok p /\
    network_input x field 256 =
      Ok [[d; map2d (float16 x) (snd (hog x d));
           p; map2d (float16 x) (snd (hog x p))]].
Proof.
  destruct (@resample_total x zoom_shape field H W field_shape field_rows
              field_columns (magnitude x) 256) as [d Hd]; [lia|].
  destruct (@resample_total x zoom_shape field H W field_shape field_rows
              field_columns (angle_of x) 256) as [p Hp]; [lia|].
  exists d, p. split; [exact Hd|]. split; [exact Hp|].
  rewrite (@network_input_unfold x zoom_shape field H W field_shape
             field_rows field_columns 256 d p ltac:(lia) Hd Hp).
  pose proof Hd as Sd. apply (resample_shape zoom_shape field_shape) in Sd;
    try assumption.
  pose proof Hp as Sp. apply (resample_shape zoom_shape field_shape) in Sp;
    try assumption.
  apply assemble_input_channels; try assumption;
    apply map_map_shape, hog_shape; (assumption || lia).
Qed.

(** X15. At a positive training resolution the computation of
    [get_parameters] ends with the error of an empty reduction exactly when
    one of the three parameter grids is empty: the extrema of the grids are
    taken before the field is looked at.  So does the call without
    [plot_generate_compare]; and with an empty grid the call ends with this
    error whatever the flag is. *)
Theorem get_parameters_empty_grid {Cam : Type}
    (data_creation : nlse_settings -> Cam * Cam * Cam * nat -> result tensor)
    (plot_results_body : list (argument Cam) -> outcome unit)
    (saving_path : String.string)
    (settings : nlse_settings) (c1 c2 c3 : Cam)
    (resolution_training resolution_out : nat) :
  0 < resolution_training ->
  let cameras := (c1, c2, c3, resolution_training) in
  let empty_grid :=
    n2 settings = [] \/ isat settings = [] \/ alpha settings = [] in
  (computed_parameters x field resolution_out settings cameras
     = Raise EmptyReduction <-> empty_grid) /\
  (get_parameters x data_creation plot_results_body field saving_path
     resolution_out settings cameras false = Raises EmptyReduction
   <-> empty_grid) /\
  (empty_grid ->
   forall plot_generate_compare,
     get_parameters x data_creation plot_results_body field saving_path
       resolution_out settings cameras plot_generate_compare
       = Raises EmptyReduction).
Proof.
  intros Hres cameras empty_grid.
  assert (Hcomputed :
    computed_parameters x field resolution_out settings cameras
      = Raise EmptyReduction <-> empty_grid).
  { unfold empty_grid, cameras, computed_parameters.
    destruct (n2 settings) as [|v1 l1]; [simpl; tauto|].
    destruct (isat settings) as [|v2 l2]; [simpl; tauto|].
    destruct (alpha settings) as [|v3 l3]; [simpl; tauto|].
    simpl list_min. simpl list_max. cbn [bind].
    split; [|intros [?|[?|?]]; congruence].
    destruct (@resample_total x zoom_shape field H W field_shape field_rows
                field_columns (magnitude x) resolution_training)
      as [d Hd]; [lia|].
    destruct (@resample_total x zoom_shape field H W field_shape field_rows
                field_columns (angle_of x) resolution_training)
      as [p Hp]; [lia|].
    destruct (Nat.lt_ge_cases resolution_training 12) as [Hsmall|Hbig].
    - unfold network_input. rewrite Hd, Hp. cbn [bind].
      pose proof Hp as Sp.
      apply (resample_shape zoom_shape field_shape) in Sp; try assumption.
      rewrite (@skimage_hog_refuses x p resolution_training
                 resolution_training Sp Hsmall). discriminate.
    - rewrite (@network_input_unfold x zoom_shape field H W field_shape
                 field_rows field_columns resolution_training d p Hbig
                 Hd Hp).
      destruct (assemble_input _ _ _ _) as [E|e] eqn:HE; cbn [bind].
      + destruct (cnn x E) as [[O1 O2] O3].
        destruct (getitem2 O1 0 0) as [o1|e1] eqn:H1; cbn [bind];
          [|apply getitem2_raise in H1; subst e1; discriminate].
        destruct (getitem2 O2 0 0) as [o2|e2] eqn:H2; cbn [bind];
          [|apply getitem2_raise in H2; subst e2; discriminate].
        destruct (getitem2 O3 0 0) as [o3|e3] eqn:H3; cbn [bind];
          [|apply getitem2_raise in H3; subst e3; discriminate].
        discriminate.
      + apply assemble_input_raise in HE. subst e. discriminate. }
  split; [exact Hcomputed|]. split.
  - rewrite <- Hcomputed. unfold get_parameters, cameras.
    destruct (computed_parameters x field resolution_out settings
                (c1, c2, c3, resolution_training)) as [[[a b] c]|e].
    + split; discriminate.
    + split; intros Heq; injection Heq as ->; reflexivity.
  - intros Hempty flag. apply Hcomputed in Hempty.
    unfold get_parameters, cameras. fold cameras. now rewrite Hempty.
Qed.

End InferenceProperties.

Lemma network_input_channels_witness :
  exists d p,
    resample stand_ins (magnitude stand_ins) example_field 256 = Ok d /\
    resample stand_ins (angle_of stand_ins) example_field 256 = Ok p /\
    network_input stand_ins example_field 256 =
      Ok [[d; map2d (float16 stand_ins) (snd (hog stand_ins d));
           p; map2d (float16 stand_ins) (snd (hog stand_ins p))]].
Proof.
  apply (@network_input_channels stand_ins stand_ins_zoom_law
           stand_ins_hog_law example_field 2 2 example_field_shape);
    lia.
Defined.

Lemma get_parameters_empty_grid_witness :
  get_parameters stand_ins no_data_creation no_plot example_field
    "runs"%string 256
    (Settings [-5 # 10]%Q 1%Q [] [5; 50]%Q 1%Q 1%Q 1%Q 1%Q)
    (0, 0, 0, 256) true = Raises EmptyReduction.
Proof.
  apply (@get_parameters_empty_grid stand_ins stand_ins_zoom_law
           example_field 2 2 example_field_shape ltac:(lia) ltac:(lia)
           nat no_data_creation no_plot "runs"%string
           (Settings [-5 # 10]%Q 1%Q [] [5; 50]%Q 1%Q 1%Q 1%Q 1%Q)
           0 0 0 256 256 ltac:(lia)).
  right. right. reflexivity.
Defined.

(** ** The comparison plot *)

Lemma plot_results_call {Cam R : Type}
    (body : list (argument Cam) -> outcome R)
    (a1 a2 a3 a4 a5 a6 a7 a8 a9 a10 a11 : argument Cam) :
  call_positional plot_results_parameters body
    [a1; a2; a3; a4; a5; a6; a7; a8; a9; a10; a11] = RaisesTypeError.
Proof. reflexivity. Qed.

(** X16. With [plot_generate_compare] set, [get_parameters] never returns:
    once the parameters are computed and [data_creation] has returned,
    [plot_results] is called with eleven positional arguments for its nine
    parameters, and the call ends in a [TypeError].  Without the flag the
    triple is returned. *)
Theorem get_parameters_plot_never_returns {Cam : Type} (x : collaborators)
    (data_creation : nlse_settings -> Cam * Cam * Cam * nat -> result tensor)
    (plot_results_body : list (argument Cam) -> outcome unit)
    (field : list (list complex)) (saving_path : String.string)
    (resolution_out : nat) (settings : nlse_settings)
    (cameras : Cam * Cam * Cam * nat) :
  (forall out,
     computed_parameters x field resolution_out settings cameras = Ok out ->
     get_parameters x data_creation plot_results_body field
       saving_path resolution_out settings cameras false = Returns out) /\
  (forall out,
     get_parameters x data_creation plot_results_body field
       saving_path resolution_out settings cameras true <> Returns out) /\
  (forall computed_n2 computed_isat computed_alpha E,
     computed_parameters x field resolution_out settings cameras
       = Ok (computed_n2, computed_isat, computed_alpha) ->
     data_creation
       (Settings [computed_n2] (in_power settings) [computed_alpha]
                 [computed_isat] (waist settings) (nl_length settings)
                 (delta_z settings) (length_ settings)) cameras = Ok E ->
     get_parameters x data_creation plot_results_body field
       saving_path resolution_out settings cameras true = RaisesTypeError).
Proof.
  destruct cameras as [[[c1 c2] c3] res].
  unfold get_parameters. split; [|split].
  - intros [[a b] c] ->. reflexivity.
  - intros out.
    destruct (computed_parameters _ _ _ _ _) as [[[a b] c]|e];
      [|discriminate].
    destruct (data_creation _ _) as [E|e]; [|discriminate].
    destruct (resample x (magnitude x) field res) as [d|e]; [|discriminate].
    destruct (resample x (angle_of x) field res) as [p|e]; [|discriminate].
    rewrite plot_results_call. discriminate.
  - intros a b c E Hget Hdata. rewrite Hget, Hdata.
    unfold computed_parameters, network_input in Hget.
    destruct (list_min (n2 settings)); cbn [bind] in Hget; [|discriminate].
    destruct (list_max (isat settings)); cbn [bind] in Hget; [|discriminate].
    destruct (list_max (alpha settings)); cbn [bind] in Hget;
      [|discriminate].
    destruct (resample x (magnitude x) field res) as [d|e];
      cbn [bind] in Hget; [|discriminate].
    destruct (resample x (angle_of x) field res) as [p|e];
      cbn [bind] in Hget; [|discriminate].
    now rewrite plot_results_call.
Qed.

Lemma get_parameters_plot_never_returns_witness :
  get_parameters stand_ins
    (fun _ _ => Ok (np_zeros4 1 2 256 256)) (fun _ => Returns tt)
    example_field "results"%string 256 example_settings (0, 0, 0, 256) true
    = RaisesTypeError.
Proof.
  apply (proj2 (proj2 (@get_parameters_plot_never_returns nat stand_ins
           (fun _ _ => Ok (np_zeros4 1 2 256 256)) (fun _ => Returns tt)
           example_field "results"%string 256 example_settings
           (0, 0, 0, 256)))
         (-5 # 20)%Q (50 # 4)%Q (20 # 8)%Q (np_zeros4 1 2 256 256));
    [vm_compute; reflexivity | reflexivity].
Defined.

(** ** The randomised transforms *)

Section ElasticSaltPepper.

Variable G : Type.
Variable randbelow : G -> nat -> nat * G.
Variable random : G -> Q * G.

(** What the generator guarantees: [randbelow n] is below [n], and
    [random()] lies in [0, 1). *)
Hypothesis randbelow_below : forall g n, 0 < n -> fst (randbelow g n) < n.
Hypothesis random_unit :
  forall g, (0 <= fst (random g))%Q /\ (fst (random g) < 1)%Q.

Lemma randrange_35_42_2 (g : G) :
  In (fst (randrange randbelow g 35 42 2)) [35; 37; 39; 41] /\
  snd (randrange randbelow g 35 42 2) = snd (randbelow g 4).
Proof.
  unfold randrange.
  change ((42 - 35 + 2 - 1) / 2) with 4.
  pose proof (randbelow_below g (n := 4)) as Hk.
  destruct (randbelow g 4) as [k g']. cbn [fst snd] in *.
  split; [|reflexivity].
  assert (Hk' : k < 4) by (apply Hk; lia).
  destruct k as [|[|[|[|k]]]]; simpl; try lia; tauto.
Qed.

(** X17. Whatever the generator draws, the pipeline that
    [elastic_saltpepper] builds has both elastic sigmas among 35, 37, 39
    and 41 and an amount of salt and pepper between 0.01 and 0.11; the
    kernel size 51, the alpha (1, 1) and the probabilities 0.5 and 0.2 are
    fixed.  A call takes three draws: the two sigmas, then the amount. *)
Theorem elastic_saltpepper_ranges (g : G) :
  let '(elastic, noise) := fst (elastic_saltpepper randbelow random g) in
  In (fst (elastic_sigma elastic)) [35; 37; 39; 41] /\
  In (snd (elastic_sigma elastic)) [35; 37; 39; 41] /\
  (1 # 100 <= noise_amount noise)%Q /\ (noise_amount noise <= 11 # 100)%Q /\
  elastic_kernel_size elastic = 51 /\ elastic_alpha elastic = (1, 1) /\
  elastic_p elastic = (1 # 2)%Q /\
  noise_salt_vs_pepper noise = (1 # 2, 1 # 2)%Q /\
  noise_p noise = (2 # 10)%Q /\
  snd (elastic_saltpepper randbelow random g)
    = snd (random (snd (randbelow (snd (randbelow g 4)) 4))).
Proof.
  unfold elastic_saltpepper.
  destruct (randrange_35_42_2 g) as [H0 G0].
  destruct (randrange randbelow g 35 42 2) as [s0 g0].
  cbn [fst snd] in H0, G0.
  destruct (randrange_35_42_2 g0) as [H1 G1].
  destruct (randrange randbelow g0 35 42 2) as [s1 g1].
  cbn [fst snd] in H1, G1. unfold uniform.
  destruct (random_unit g1) as [Hlo Hhi].
  destruct (random g1) as [r g2] eqn:Hr.
  cbn [fst snd elastic_sigma noise_amount elastic_kernel_size elastic_alpha
       elastic_p noise_salt_vs_pepper noise_p] in *.
  split; [exact H0|]. split; [exact H1|].
  split; [lra|]. split; [lra|].
  repeat (split; [reflexivity|]).
  subst g0 g1. now rewrite Hr.
Qed.

End ElasticSaltPepper.

Lemma elastic_saltpepper_ranges_witness :
  let '(elastic, noise) := fst (elastic_saltpepper last_below half_random tt) in
  In (fst (elastic_sigma elastic)) [35; 37; 39; 41] /\
  In (snd (elastic_sigma elastic)) [35; 37; 39; 41] /\
  (1 # 100 <= noise_amount noise)%Q /\ (noise_amount noise <= 11 # 100)%Q /\
  elastic_kernel_size elastic = 51 /\ elastic_alpha elastic = (1, 1) /\
  elastic_p elastic = (1 # 2)%Q /\
  noise_salt_vs_pepper noise = (1 # 2, 1 # 2)%Q /\
  noise_p noise = (2 # 10)%Q /\
  snd (elastic_saltpepper last_below half_random tt)
    = snd (half_random (snd (last_below (snd (last_below tt 4)) 4))).
Proof.
  apply (@elastic_saltpepper_ranges unit last_below half_random).
  - intros g n Hn. simpl. lia.
  - intros g. simpl. split; [discriminate | reflexivity].
Defined.

(** ** The detector noise does not look at the beam *)

Section ExperimentNoiseProperties.

Variable G : Type.
Variable poisson : G -> Q -> nat -> list Z * G.
Variable normal : G -> Q -> Q -> nat -> list Q * G.
Variable astype_complex64 : complex -> complex.

Hypothesis poisson_size : forall g lam n, length (fst (poisson g lam n)) = n.
Hypothesis normal_size :
  forall g mu sigma n, length (fst (normal g mu sigma n)) = n.

(** X18. The noise that [experiment_noise] adds depends on the size of the
    beam and on the random state, not on the values of the beam: from the
    same random state two beams of the same size receive the same noise,
    entry by entry, before the cast, and leave the same random state
    behind. *)
Theorem experiment_noise_signal_independent (g : G)
    (beam1 beam2 : list complex) (poisson_noise_lam normal_noise_sigma : Q) :
  length beam1 = length beam2 ->
  exists noisy1 noisy2 : list complex,
    fst (experiment_noise poisson normal astype_complex64 g beam1
           poisson_noise_lam normal_noise_sigma)
      = map astype_complex64 noisy1 /\
    fst (experiment_noise poisson normal astype_complex64 g beam2
           poisson_noise_lam normal_noise_sigma)
      = map astype_complex64 noisy2 /\
    snd (experiment_noise poisson normal astype_complex64 g beam1
           poisson_noise_lam normal_noise_sigma)
      = snd (experiment_noise poisson normal astype_complex64 g beam2
               poisson_noise_lam normal_noise_sigma) /\
    forall i b1 b2,
      nth_error beam1 i = Some b1 -> nth_error beam2 i = Some b2 ->
      exists c1 c2,
        nth_error noisy1 i = Some c1 /\ nth_error noisy2 i = Some c2 /\
        (re c1 - re b1 == re c2 - re b2)%Q /\
        (im c1 - im b1 == im c2 - im b2)%Q.
Proof.
  intros Hlen. unfold experiment_noise. rewrite <- Hlen.
  pose proof (poisson_size g poisson_noise_lam (length beam1)) as HP.
  destruct (poisson g poisson_noise_lam (length beam1)) as [P g1].
  pose proof (normal_size g1 0%Q normal_noise_sigma (length beam1)) as HN.
  destruct (normal g1 0%Q normal_noise_sigma (length beam1)) as [N g2].
  simpl in HP, HN. cbn [fst snd].
  eexists. eexists. split; [reflexivity|]. split; [reflexivity|].
  split; [reflexivity|].
  intros i b1 b2 H1 H2.
  assert (Hi : i < length beam1) by (apply nth_error_Some; congruence).
  destruct (nth_error P i) as [p|] eqn:Hp;
    [|apply nth_error_None in Hp; lia].
  destruct (nth_error N i) as [n|] eqn:Hn;
    [|apply nth_error_None in Hn; lia].
  eexists. eexists.
  repeat (rewrite zip_with_nth_error || rewrite nth_error_map).
  rewrite H1, H2, Hn, Hp. cbn [option_map].
  split; [reflexivity|]. split; [reflexivity|].
  unfold Cadd, Cmul, Ci, of_real. cbn [re im]. split; ring.
Qed.

End ExperimentNoiseProperties.

Lemma experiment_noise_signal_independent_witness :
  length [Cx 1 2; Cx 3 4]%Q = length [Cx 5 0; Cx 0 7]%Q /\
  exists noisy1 noisy2 : list complex,
    fst (experiment_noise (constant_poisson 2) (constant_normal (1 # 2))
           (fun c => c) tt [Cx 1 2; Cx 3 4]%Q (1 # 10) (1 # 100))
      = map (fun c => c) noisy1 /\
    fst (experiment_noise (constant_poisson 2) (constant_normal (1 # 2))
           (fun c => c) tt [Cx 5 0; Cx 0 7]%Q (1 # 10) (1 # 100))
      = map (fun c => c) noisy2 /\
    snd (experiment_noise (constant_poisson 2) (constant_normal (1 # 2))
           (fun c => c) tt [Cx 1 2; Cx 3 4]%Q (1 # 10) (1 # 100))
      = snd (experiment_noise (constant_poisson 2) (constant_normal (1 # 2))
               (fun c => c) tt [Cx 5 0; Cx 0 7]%Q (1 # 10) (1 # 100)) /\
    forall i b1 b2,
      nth_error [Cx 1 2; Cx 3 4]%Q i = Some b1 ->
      nth_error [Cx 5 0; Cx 0 7]%Q i = Some b2 ->
      exists c1 c2,
        nth_error noisy1 i = Some c1 /\ nth_error noisy2 i = Some c2 /\
        (re c1 - re b1 == re c2 - re b2)%Q /\
        (im c1 - im b1 == im c2 - im b2)%Q.
Proof.
  split; [reflexivity|].
  apply (@experiment_noise_signal_independent unit (constant_poisson 2)
           (constant_normal (1 # 2)) (fun c => c)
           (fun _ _ n => repeat_length 2%Z n)
           (fun _ _ _ n => repeat_length (1 # 2)%Q n)
           tt [Cx 1 2; Cx 3 4]%Q [Cx 5 0; Cx 0 7]%Q (1 # 10)%Q (1 # 100)%Q).
  reflexivity.
Defined.

(** ** The analysis of the single-power reports *)

Section AnalysisProperties.

Variable readlines : String.string -> option (list String.string).
Variable py_str : Q -> String.string.
Variable py_float : String.string -> option Q.

Lemma for_each_ext {X S : Type} (xs : list X) (f f' : S -> X -> io S) (s : S) :
  (forall s x, f s x = f' s x) -> for_each xs f s = for_each xs f' s.
Proof.
  intros H. revert s. induction xs as [|x xs IH]; intros s; simpl; auto.
  rewrite H. destruct (f' s x); simpl; auto.
Qed.

Lemma model_loop_eq (path : String.string) (power_values : list Q)
    (s : locals) (i model_index : nat) :
  data_types_index s = Some i ->
  model_loop readlines py_str py_float path power_values s model_index =
  lists <~ read_reports readlines py_str py_float path power_values i
             model_index ;;
  Return (Locals (Some i) (models s) (Some (model_version_of model_index))
            (Some [("accuracy"%string, fst lists);
                   ("index_error"%string, snd lists)])).
Proof.
  intros Hi. unfold model_loop, read_reports. rewrite Hi.
  rewrite (for_each_ext power_values _
             (read_report readlines py_str py_float path i
                (model_version_of model_index))).
  - destruct (for_each power_values _ _); reflexivity.
  - intros lists power. reflexivity.
Qed.

(** One pass of the outer loop: the four models are read, and the dict of
    the models is left with the last of them. *)
Lemma data_type_loop_eq (path : String.string) (power_values : list Q)
    (s : locals) (i : nat) :
  data_type_loop readlines py_str py_float path power_values s i =
  _ <~ read_reports readlines py_str py_float path power_values i 2 ;;
  _ <~ read_reports readlines py_str py_float path power_values i 3 ;;
  _ <~ read_reports readlines py_str py_float path power_values i 4 ;;
  lists <~ read_reports readlines py_str py_float path power_values i 5 ;;
  let model := [("accuracy"%string, fst lists);
                ("index_error"%string, snd lists)] in
  Return (Locals (Some i) (Some [(model_version_of 5, model)])
            (Some (model_version_of 5)) (Some model)).
Proof.
  unfold data_type_loop. cbn [seq for_each].
  rewrite model_loop_eq with (i := i) by reflexivity.
  destruct (read_reports readlines py_str py_float path power_values i 2)
    as [l2|e]; [|reflexivity].
  cbn [io_bind].
  rewrite model_loop_eq with (i := i) by reflexivity.
  destruct (read_reports readlines py_str py_float path power_values i 3)
    as [l3|e]; [|reflexivity].
  cbn [io_bind].
  rewrite model_loop_eq with (i := i) by reflexivity.
  destruct (read_reports readlines py_str py_float path power_values i 4)
    as [l4|e]; [|reflexivity].
  cbn [io_bind].
  rewrite model_loop_eq with (i := i) by reflexivity.
  destruct (read_reports readlines py_str py_float path power_values i 5)
    as [l5|e]; [|reflexivity].
  reflexivity.
Qed.

(** All the reports of one data type, in the order in which they are
    read; the lists of the last model are what is left. *)
Lemma analysis_results_eq (path : String.string) (power_values : list Q) :
  let pass i :=
    (_ <~ read_reports readlines py_str py_float path power_values i 2 ;;
     _ <~ read_reports readlines py_str py_float path power_values i 3 ;;
     _ <~ read_reports readlines py_str py_float path power_values i 4 ;;
     read_reports readlines py_str py_float path power_values i 5) in
  analysis_results readlines py_str py_float path power_values =
  _ <~ pass 0 ;; _ <~ pass 1 ;; _ <~ pass 2 ;; _ <~ pass 3 ;; _ <~ pass 4 ;;
  lists <~ pass 5 ;;
  Return [("amp_pha_pha_unwrap"%string,
           [(model_version_of 5,
             [("accuracy"%string, fst lists);
              ("index_error"%string, snd lists)])])].
Proof.
  intros pass. unfold analysis_results.
  change (seq 0 (length data_types)) with [0; 1; 2; 3; 4; 5].
  cbn [for_each].
  assert (Hpass : forall s i,
            data_type_loop readlines py_str py_float path power_values s i =
            lists <~ pass i ;;
            let model := [("accuracy"%string, fst lists);
                          ("index_error"%string, snd lists)] in
            Return (Locals (Some i) (Some [(model_version_of 5, model)])
                      (Some (model_version_of 5)) (Some model))).
  { intros s i. rewrite data_type_loop_eq. unfold pass.
    destruct (read_reports readlines py_str py_float path power_values i 2);
      [|reflexivity].
    destruct (read_reports readlines py_str py_float path power_values i 3);
      [|reflexivity].
    destruct (read_reports readlines py_str py_float path power_values i 4);
      [|reflexivity].
    destruct (read_reports readlines py_str py_float path power_values i 5);
      reflexivity. }
  rewrite (Hpass _ 0). destruct (pass 0); [|reflexivity]. cbn [io_bind].
  rewrite (Hpass _ 1). destruct (pass 1); [|reflexivity]. cbn [io_bind].
  rewrite (Hpass _ 2). destruct (pass 2); [|reflexivity]. cbn [io_bind].
  rewrite (Hpass _ 3). destruct (pass 3); [|reflexivity]. cbn [io_bind].
  rewrite (Hpass _ 4). destruct (pass 4); [|reflexivity]. cbn [io_bind].
  rewrite (Hpass _ 5). destruct (pass 5); reflexivity.
Qed.

End AnalysisProperties.

Section AnalysisResults.

Variable readlines : String.string -> option (list String.string).
Variable py_str : Q -> String.string.
Variable py_float : String.string -> option Q.

(** The file that [analysis] writes. *)
Lemma analysis_unfold
    (to_json : dict (dict (dict (list Q))) -> String.string -> io unit)
    (path : String.string) (power_values : list Q) :
  analysis readlines py_str py_float to_json path power_values =
  results <~ analysis_results readlines py_str py_float path power_values ;;
  to_json results (path +++ "/model_analysis_single_power.json")%string.
Proof. reflexivity. Qed.

(** X19. The dict that [analysis] builds and hands to pandas holds one data
    type and, for it, one model: the key "amp_pha_pha_unwrap" with the key
    "model_resnetv5_1powers", whose lists are those of the reports of this
    data type and this model.  The assignments that file the results stand
    after the loops, so the results of the other twenty-three combinations
    are not kept. *)
Theorem analysis_keeps_last_only (path : String.string)
    (power_values : list Q) (results : dict (dict (dict (list Q)))) :
  analysis_results readlines py_str py_float path power_values
    = Return results ->
  exists accuracy index_error,
    read_reports readlines py_str py_float path power_values 5 5
      = Return (accuracy, index_error) /\
    results =
      [("amp_pha_pha_unwrap"%string,
        [("model_resnetv5_1powers"%string,
          [("accuracy"%string, accuracy);
           ("index_error"%string, index_error)])])] /\
    forall to_json,
      analysis readlines py_str py_float to_json path power_values
      = to_json results
          (path +++ "/model_analysis_single_power.json")%string.
Proof.
  intros Hresults. pose proof Hresults as Hcall.
  revert Hresults. rewrite analysis_results_eq. cbv zeta.
  repeat match goal with
  | |- context [read_reports readlines py_str py_float path power_values
                  ?i ?m] =>
      destruct (read_reports readlines py_str py_float path power_values i m)
        as [[? ?]|?] eqn:?; cbn [io_bind]; [|discriminate]
  end.
  intros Heq. injection Heq as <-. eexists. eexists.
  split; [reflexivity|]. split; [reflexivity|].
  intros to_json. rewrite analysis_unfold, Hcall. reflexivity.
Qed.

(** X20. [analysis] cannot return unless the reports of all six data types
    and all four models can be read: a report that is missing or cannot be
    read makes the call raise, also when its results would not be kept.
    When they can all be read, the call is the call of pandas on the dict
    of the last data type and the last model. *)
Theorem analysis_reads_every_report
    (to_json : dict (dict (dict (list Q))) -> String.string -> io unit)
    (path : String.string) (power_values : list Q) :
  let every_report_is_read :=
    forall data_types_index model_index,
      data_types_index < 6 -> 2 <= model_index < 6 ->
      exists lists,
        read_reports readlines py_str py_float path power_values
          data_types_index model_index = Return lists in
  ((exists done,
      analysis readlines py_str py_float to_json path power_values
      = Return done) -> every_report_is_read) /\
  (every_report_is_read ->
   exists accuracy index_error,
     read_reports readlines py_str py_float path power_values 5 5
       = Return (accuracy, index_error) /\
     analysis readlines py_str py_float to_json path power_values
     = to_json
         [("amp_pha_pha_unwrap"%string,
           [("model_resnetv5_1powers"%string,
             [("accuracy"%string, accuracy);
              ("index_error"%string, index_error)])])]
         (path +++ "/model_analysis_single_power.json")%string).
Proof.
  cbv zeta. rewrite analysis_unfold, analysis_results_eq. cbv zeta. split.
  - intros [done Hdone].
    repeat match type of Hdone with
    | context [read_reports readlines py_str py_float path power_values
                 ?i ?m] =>
        destruct (read_reports readlines py_str py_float path power_values
                    i m) as [?|?] eqn:?; cbn [io_bind] in Hdone;
        [|discriminate]
    end.
    intros i m Hi Hm.
    assert (Hi' : i = 0 \/ i = 1 \/ i = 2 \/ i = 3 \/ i = 4 \/ i = 5) by lia.
    assert (Hm' : m = 2 \/ m = 3 \/ m = 4 \/ m = 5) by lia.
    destruct Hi' as [->|[->|[->|[->|[->| ->]]]]];
      destruct Hm' as [->|[->|[->| ->]]]; eauto.
  - intros Hall.
    repeat match goal with
    | |- context [io_bind (read_reports readlines py_str py_float path
                             power_values ?i ?m)] =>
        let l := fresh "l" in
        let E := fresh "E" in
        destruct (Hall i m ltac:(lia) ltac:(lia)) as [l E];
        rewrite E; cbn [io_bind]
    end.
    match goal with
    | |- context [to_json [(_, [(_, [(_, fst ?l); _])])]] =>
        destruct l as [accuracy index_error]
    end.
    exists accuracy, index_error. split; reflexivity.
Qed.

End AnalysisResults.

Lemma analysis_keeps_last_only_witness :
  exists accuracy index_error,
    read_reports (fun _ => Some sample_report) sample_str sample_float
      "runs"%string [1 # 50; 1 # 2]%Q 5 5
      = Return (accuracy, index_error) /\
    [("amp_pha_pha_unwrap"%string,
      [("model_resnetv5_1powers"%string,
        [("accuracy"%string, [197 # 2; 197 # 2]%Q);
         ("index_error"%string, [1 # 4; 1 # 4]%Q)])])]
    = [("amp_pha_pha_unwrap"%string,
        [("model_resnetv5_1powers"%string,
          [("accuracy"%string, accuracy);
           ("index_error"%string, index_error)])])] /\
    forall to_json,
      analysis (fun _ => Some sample_report) sample_str sample_float
        to_json "runs"%string [1 # 50; 1 # 2]%Q
      = to_json
          [("amp_pha_pha_unwrap"%string,
            [("model_resnetv5_1powers"%string,
              [("accuracy"%string, [197 # 2; 197 # 2]%Q);
               ("index_error"%string, [1 # 4; 1 # 4]%Q)])])]
          ("runs" +++ "/model_analysis_single_power.json")%string.
Proof.
  apply (@analysis_keeps_last_only (fun _ => Some sample_report) sample_str
           sample_float "runs"%string [1 # 50; 1 # 2]%Q).
  vm_compute. reflexivity.
Defined.

Lemma analysis_reads_every_report_witness :
  exists lists,
    read_reports (fun _ => Some sample_report) sample_str sample_float
      "runs"%string [1 # 50; 1 # 2]%Q 3 4
    = Return lists.
Proof.
  apply (proj1 (@analysis_reads_every_report (fun _ => Some sample_report)
                  sample_str sample_float (fun _ _ => Return tt)
                  "runs"%string [1 # 50; 1 # 2]%Q)).
  - exists tt. vm_compute. reflexivity.
  - lia.
  - lia.
Defined.

(** ** The lists of one model follow the power values *)

Section ReportLists.

Variable readlines : String.string -> option (list String.string).
Variable py_str : Q -> String.string.
Variable py_float : String.string -> option Q.

(** One report adds one entry to each list, and what it adds does not
    depend on the lists. *)
Lemma read_report_appends (path : String.string) (i : nat)
    (version : String.string) (acc err acc' err' : list Q) (power : Q) :
  read_report readlines py_str py_float path i version (acc, err) power
    = Return (acc', err') ->
  exists a e,
    read_report readlines py_str py_float path i version ([], []) power
      = Return ([a], [e]) /\
    acc' = acc ++ [a] /\ err' = err ++ [e].
Proof.
  unfold read_report.
  destruct (getitem data_types i) as [data_type|]; [|discriminate].
  cbn [io_bind].
  destruct (open_readlines readlines _) as [lines|]; [|discriminate].
  cbn [io_bind].
  destruct (getitem lines (count_lines lines 0 + 2)) as [line|];
    [|discriminate].
  cbn [io_bind].
  destruct (float py_float _) as [a|]; [|discriminate]. cbn [io_bind].
  destruct (String.length _ =? String.length "100.00").
  - intros H. injection H as <- <-. exists a, 0%Q. auto.
  - destruct (getitem lines (count_lines lines 0 + 13)) as [line'|];
      [|discriminate].
    cbn [io_bind].
    destruct (float py_float _) as [e|]; [|discriminate]. cbn [io_bind].
    intros H. injection H as <- <-. exists a, e. auto.
Qed.

Lemma for_each_read_report (path : String.string) (i : nat)
    (version : String.string) (power_values : list Q) :
  forall acc err acc' err',
    for_each power_values
      (read_report readlines py_str py_float path i version) (acc, err)
      = Return (acc', err') ->
    exists entries : list (Q * Q),
      acc' = acc ++ map fst entries /\ err' = err ++ map snd entries /\
      Forall2
        (fun power entry =>
           read_report readlines py_str py_float path i version ([], [])
             power = Return ([fst entry], [snd entry]))
        power_values entries.
Proof.
  induction power_values as [|power rest IH]; intros acc err acc' err' H.
  - simpl in H. injection H as <- <-. exists []. simpl.
    rewrite !app_nil_r. auto.
  - cbn [for_each] in H.
    destruct (read_report readlines py_str py_float path i version
                (acc, err) power) as [[acc1 err1]|] eqn:E; [|discriminate].
    cbn [io_bind] in H.
    apply read_report_appends in E. destruct E as (a & e & E & -> & ->).
    apply IH in H. destruct H as (entries & -> & -> & HF).
    exists ((a, e) :: entries). simpl. rewrite <- !app_assoc. simpl.
    auto.
Qed.

(** X21. The two lists that are read for one data type and one model have
    one entry per power value, in the order of [power_values]: the entries
    at position [k] are the accuracy and the index error that the report
    of the power at position [k] gives by itself. *)
Theorem read_reports_follow_power_values (path : String.string)
    (power_values : list Q) (i model_index : nat)
    (accuracy index_error : list Q) :
  read_reports readlines py_str py_float path power_values i model_index
    = Return (accuracy, index_error) ->
  length accuracy = length power_values /\
  length index_error = length power_values /\
  forall k power,
    nth_error power_values k = Some power ->
    exists a e,
      nth_error accuracy k = Some a /\ nth_error index_error k = Some e /\
      read_report readlines py_str py_float path i
        (model_version_of model_index) ([], []) power
        = Return ([a], [e]).
Proof.
  unfold read_reports. intros H.
  apply for_each_read_report in H.
  destruct H as (entries & -> & -> & HF). simpl.
  pose proof (Forall2_length HF) as HL.
  rewrite !length_map. repeat split; auto.
  intros k power Hk.
  revert k Hk. induction HF as [|p en ps ens Hp HF IH]; intros k Hk.
  - destruct k; discriminate.
  - destruct k as [|k].
    + simpl in Hk. injection Hk as ->. exists (fst en), (snd en). auto.
    + simpl in Hk. simpl. apply IH; auto.
Qed.

(** Without a line that holds the marker, the count is the number of
    lines. *)
Lemma count_lines_no_marker (lines : list String.string) (count : nat) :
  Forall (fun line => str_contains "TESTING"%string line = false) lines ->
  count_lines lines count = count + length lines.
Proof.
  intros H. revert count. induction H as [|line lines Hl _ IH]; intros count.
  - simpl. lia.
  - cbn [count_lines]. rewrite Hl, IH. simpl. lia.
Qed.

(** X22. With at least one power value, the first report that [analysis]
    opens is the one of the first power, the data type "amp" and the model
    "model_resnetv2_1powers".  When this file does not exist the call ends
    with [FileNotFoundError]; when it exists and none of its lines holds
    "TESTING", the call ends with [IndexError]. *)
Theorem analysis_first_report
    (to_json : dict (dict (dict (list Q))) -> String.string -> io unit)
    (path : String.string) (power : Q)
    (power_values : list Q) (lines : list String.string) :
  let file :=
    report_file py_str path power "amp"%string
      "model_resnetv2_1powers"%string in
  (readlines file = None ->
   analysis readlines py_str py_float to_json path (power :: power_values)
     = Throw FileNotFoundError) /\
  (readlines file = Some lines ->
   Forall (fun line => str_contains "TESTING"%string line = false) lines ->
   analysis readlines py_str py_float to_json path (power :: power_values)
     = Throw (Exn IndexError)).
Proof.
  intros file.
  assert (Hraise : forall e,
    read_report readlines py_str py_float path 0 (model_version_of 2)
      ([], []) power = Throw e ->
    analysis readlines py_str py_float to_json path (power :: power_values)
      = Throw e).
  { intros e He. rewrite analysis_unfold, analysis_results_eq. cbv zeta.
    unfold read_reports at 1. cbn [for_each]. rewrite He. reflexivity. }
  split.
  - intros Hf. apply Hraise. unfold read_report.
    change (getitem data_types 0) with (@Return String.string "amp"%string).
    cbn [io_bind].
    change (model_version_of 2) with "model_resnetv2_1powers"%string.
    fold file. unfold open_readlines. rewrite Hf. reflexivity.
  - intros Hf Hlines. apply Hraise. unfold read_report.
    change (getitem data_types 0) with (@Return String.string "amp"%string).
    cbn [io_bind].
    change (model_version_of 2) with "model_resnetv2_1powers"%string.
    fold file. unfold open_readlines. rewrite Hf. cbn [io_bind].
    rewrite (count_lines_no_marker 0 Hlines). unfold getitem at 1.
    replace (nth_error lines (0 + length lines + 2))
      with (@None String.string)
      by (symmetry; apply nth_error_None; lia).
    reflexivity.
Qed.

End ReportLists.

Lemma read_reports_follow_power_values_witness :
  length [197 # 2; 197 # 2]%Q = length [1 # 50; 1 # 2]%Q /\
  length [1 # 4; 1 # 4]%Q = length [1 # 50; 1 # 2]%Q /\
  forall k power,
    nth_error [1 # 50; 1 # 2]%Q k = Some power ->
    exists a e,
      nth_error [197 # 2; 197 # 2]%Q k = Some a /\
      nth_error [1 # 4; 1 # 4]%Q k = Some e /\
      read_report (fun _ => Some sample_report) sample_str sample_float
        "runs"%string 3 (model_version_of 4) ([], []) power
        = Return ([a], [e]).
Proof.
  apply (@read_reports_follow_power_values (fun _ => Some sample_report)
           sample_str sample_float "runs"%string [1 # 50; 1 # 2]%Q 3 4).
  vm_compute. reflexivity.
Defined.

Lemma analysis_first_report_witness :
  analysis (fun _ => None) sample_str sample_float (fun _ _ => Return tt)
    "runs"%string [1 # 50; 1 # 2]%Q = Throw FileNotFoundError /\
  analysis (fun _ => Some ["epochs: 100"; "done"]%string) sample_str
    sample_float (fun _ _ => Return tt) "runs"%string [1 # 50; 1 # 2]%Q
    = Throw (Exn IndexError).
Proof.
  split.
  - apply (@analysis_first_report (fun _ => None) sample_str sample_float
             (fun _ _ => Return tt) "runs"%string (1 # 50)%Q [(1 # 2)%Q] []).
    reflexivity.
  - apply (@analysis_first_report
             (fun _ => Some ["epochs: 100"; "done"]%string) sample_str
             sample_float (fun _ _ => Return tt) "runs"%string (1 # 50)%Q
             [(1 # 2)%Q] ["epochs: 100"; "done"]%string).
    + reflexivity.
    + repeat constructor.
Defined.

(** ** The axes of the generated set *)

Lemma nth_error_map_seq {A : Type} (f : nat -> A) (n i : nat) :
  i < n -> nth_error (map f (seq 0 n)) i = Some (f i).
Proof.
  intros H. rewrite nth_error_map, nth_error_seq.
  destruct (Nat.ltb_spec i n); [reflexivity | lia].
Qed.

Lemma concat_map_singleton {A B : Type} (f : A -> B) (l : list A) :
  concat (map (fun x => [f x]) l) = map f l.
Proof.
  induction l as [|x l IH]; simpl; congruence.
Qed.

(** The two expressions that select the axes of a pair, on the axes that
    [plt.subplots] returns: the one of the phase selects the axes at the
    row and the column of the pair; the one of the density does the same,
    except on a single column of several rows, where it raises. *)
Lemma axes_selection
    (number_of_n2 number_of_isat n2_index isat_index : nat) :
  n2_index < number_of_n2 -> isat_index < number_of_isat ->
  exists axes,
    subplots number_of_n2 number_of_isat = Return axes /\
    phase_ax number_of_n2 number_of_isat axes n2_index isat_index
      = Return (Axes (n2_index, isat_index)) /\
    density_ax number_of_n2 number_of_isat axes n2_index isat_index
      = if (1 <? number_of_n2) && (number_of_isat =? 1)
        then Throw (Exn IndexError)
        else Return (Axes (n2_index, isat_index)).
Proof.
  intros Hn Hi. unfold subplots, phase_ax, density_ax.
  destruct (Nat.eqb_spec number_of_n2 0) as [|_]; [lia|].
  destruct (Nat.eqb_spec number_of_isat 0) as [|_]; [lia|].
  cbn [orb].
  destruct (Nat.eqb_spec number_of_n2 1) as [En|En];
    destruct (Nat.eqb_spec number_of_isat 1) as [Ei|Ei]; cbn [andb orb].
  - subst. assert (n2_index = 0) by lia. assert (isat_index = 0) by lia.
    subst. eexists. split; [reflexivity|]. split; reflexivity.
  - subst number_of_n2. assert (n2_index = 0) by lia. subst n2_index.
    eexists. split; [reflexivity|].
    cbn [Nat.ltb Nat.leb andb seq map concat axes_getitem].
    rewrite app_nil_r. unfold getitem.
    rewrite (nth_error_map_seq (fun col => (0, col)) Hi).
    split; reflexivity.
  - subst number_of_isat. assert (isat_index = 0) by lia. subst isat_index.
    eexists. split; [reflexivity|].
    destruct (Nat.ltb_spec 1 number_of_n2) as [_|]; [|lia].
    cbn [Nat.ltb Nat.leb andb seq map axes_getitem axes_getitem2].
    rewrite (concat_map_singleton (fun row => (row, 0))). unfold getitem.
    rewrite (nth_error_map_seq (fun row => (row, 0)) Hn).
    split; reflexivity.
  - eexists. split; [reflexivity|].
    destruct (Nat.ltb_spec 1 number_of_n2) as [_|]; [|lia].
    destruct (Nat.ltb_spec 1 number_of_isat) as [_|]; [|lia].
    cbn [andb axes_getitem2]. unfold getitem.
    rewrite (nth_error_map_seq
               (fun row => map (fun col => (row, col)) (seq 0 number_of_isat))
               Hn).
    cbn [io_bind].
    rewrite (nth_error_map_seq (fun col => (n2_index, col)) Hi).
    split; reflexivity.
Qed.

(** A step that returns, and what follows it. *)
Lemma traced_bind_step {A B : Type} (r : traced A) (k : A -> traced B)
    (l1 l2 : list plot_call) (a : A) (b : io B) :
  r = (l1, Return a) -> k a = (l2, b) -> traced_bind r k = (l1 ++ l2, b).
Proof. intros -> Hk. cbn [traced_bind]. now rewrite Hk. Qed.

(** The calls of a loop whose passes all return. *)
Lemma traced_for_returns {X : Type} (xs : list X) (body : X -> traced unit)
    (calls : X -> list plot_call) :
  (forall x, In x xs -> body x = (calls x, Return tt)) ->
  traced_for xs body = (flat_map calls xs, Return tt).
Proof.
  induction xs as [|x xs IH]; intros Hbody; [reflexivity|].
  cbn [traced_for flat_map]. rewrite (Hbody x (or_introl eq_refl)).
  cbn [traced_bind]. rewrite IH; [reflexivity|].
  intros y Hy. apply Hbody. now right.
Qed.

Lemma pairs_loop_returns (c : channel) (rows cols alpha_index : nat)
    (select : nat -> nat -> io axes_array) :
  (forall i j, i < rows -> j < cols -> select i j = Return (Axes (i, j))) ->
  traced_for (seq 0 rows) (fun n2_index =>
    traced_for (seq 0 cols) (fun isat_index =>
      ax <~~ lift (select n2_index isat_index) ;;
      draw_on ax c n2_index isat_index alpha_index))
  = (flat_map (fun i => flat_map (pair_calls c alpha_index i) (seq 0 cols))
              (seq 0 rows),
     Return tt).
Proof.
  intros Hselect. apply traced_for_returns. intros i Hi.
  apply in_seq in Hi. apply traced_for_returns. intros j Hj.
  apply in_seq in Hj. rewrite Hselect by lia. reflexivity.
Qed.

Lemma in_pairs (c c' : channel) (rows cols a a' i j : nat)
    (place : nat * nat) :
  In (Imshow c' place i j a')
     (flat_map (fun i => flat_map (pair_calls c a i) (seq 0 cols))
               (seq 0 rows))
  <-> c' = c /\ a' = a /\ place = (i, j) /\ i < rows /\ j < cols.
Proof.
  rewrite in_flat_map. split.
  - intros [i' [Hi' Hin]]. apply in_flat_map in Hin.
    destruct Hin as [j' [Hj' Hin]].
    apply in_seq in Hi'. apply in_seq in Hj'.
    destruct Hin as [Heq|[Heq|[Heq|[]]]]; try discriminate.
    injection Heq as <- <- <- <- <-. repeat split; lia.
  - intros (-> & -> & -> & Hi & Hj). exists i. split; [apply in_seq; lia|].
    apply in_flat_map. exists j. split; [apply in_seq; lia|]. now left.
Qed.

(** X23. On a grid of [number_of_n2] rows and [number_of_isat] columns that
    is not a single column of several rows, [plot_generated_set] returns,
    and it draws the density and the phase of every pair
    [(n2_index, isat_index)] and of every [alpha] on the axes at row
    [n2_index] and column [isat_index], and on no other.  On a single
    column of several rows the second test of the density reads
    [number_of_n2] twice, the 1-D array of axes is indexed with two
    indices, and the call ends with [IndexError] after the title of the
    first figure: no image is drawn and nothing is saved. *)
Theorem plot_generated_set_axes (settings : nlse_settings) :
  let number_of_n2 := length (n2 settings) in
  let number_of_isat := length (isat settings) in
  let number_of_alpha := length (alpha settings) in
  let run := plot_generated_set (Return tt) settings in
  0 < number_of_n2 -> 0 < number_of_isat ->
  (~ (1 < number_of_n2 /\ number_of_isat = 1) ->
   snd run = Return tt /\
   (forall c place n2_index isat_index alpha_index,
      In (Imshow c place n2_index isat_index alpha_index) (fst run) ->
      place = (n2_index, isat_index)) /\
   (forall c n2_index isat_index alpha_index,
      n2_index < number_of_n2 -> isat_index < number_of_isat ->
      alpha_index < number_of_alpha ->
      In (Imshow c (n2_index, isat_index) n2_index isat_index alpha_index)
         (fst run))) /\
  (1 < number_of_n2 -> number_of_isat = 1 -> 0 < number_of_alpha ->
   run = ([Suptitle Density 0], Throw (Exn IndexError))).
Proof.
  intros rows cols alphas run Hrows Hcols. split.
  - intros Hgrid.
    set (pairs := fun c a =>
           flat_map (fun i => flat_map (pair_calls c a i) (seq 0 cols))
                    (seq 0 rows)).
    set (calls := fun a =>
           [] ++ [Suptitle Density a] ++ pairs Density a ++ [TightLayout]
           ++ [Savefig Density a] ++ [Close Density] ++ []
           ++ [Suptitle Phase a] ++ pairs Phase a ++ [Savefig Phase a]
           ++ [Close Phase]).
    assert (Hrun : run = (flat_map calls (seq 0 alphas), Return tt)).
    { unfold run, plot_generated_set. fold rows cols alphas.
      apply traced_bind_step with (l1 := []) (a := tt); [reflexivity|].
      apply traced_for_returns. intros a _.
      destruct (@axes_selection rows cols 0 0 Hrows Hcols)
        as [axes [Haxes _]].
      rewrite Haxes. unfold calls.
      apply traced_bind_step with (a := axes); [reflexivity|].
      apply traced_bind_step with (a := tt); [reflexivity|].
      apply traced_bind_step with (a := tt).
      { apply pairs_loop_returns. intros i j Hi Hj.
        destruct (@axes_selection rows cols i j Hi Hj)
          as [axes' [Haxes' [_ Hd]]].
        rewrite Haxes in Haxes'. injection Haxes' as <-. rewrite Hd.
        destruct (Nat.ltb_spec 1 rows); [|reflexivity].
        destruct (Nat.eqb_spec cols 1); [|reflexivity].
        exfalso. apply Hgrid. split; assumption. }
      apply traced_bind_step with (a := tt); [reflexivity|].
      apply traced_bind_step with (a := tt); [reflexivity|].
      apply traced_bind_step with (a := tt); [reflexivity|].
      apply traced_bind_step with (a := axes); [reflexivity|].
      apply traced_bind_step with (a := tt); [reflexivity|].
      apply traced_bind_step with (a := tt).
      { apply pairs_loop_returns. intros i j Hi Hj.
        destruct (@axes_selection rows cols i j Hi Hj)
          as [axes' [Haxes' [Hp _]]].
        rewrite Haxes in Haxes'. injection Haxes' as <-. exact Hp. }
      apply traced_bind_step with (a := tt); reflexivity. }
    rewrite Hrun. cbn [fst snd]. split; [reflexivity|]. split.
    + intros c place i j a Hin. apply in_flat_map in Hin.
      destruct Hin as [a' [_ Hin]]. unfold calls in Hin.
      repeat (apply in_app_or in Hin; destruct Hin as [Hin|Hin]);
        try (apply in_pairs in Hin; tauto);
        repeat (destruct Hin as [Hin|Hin]; try discriminate Hin);
        try contradiction.
    + intros c i j a Hi Hj Ha. apply in_flat_map. exists a.
      split; [apply in_seq; lia|]. unfold calls.
      destruct c.
      * apply in_or_app. right. apply in_or_app. right.
        apply in_or_app. left. apply in_pairs. tauto.
      * do 8 (apply in_or_app; right).
        apply in_or_app. left. apply in_pairs. tauto.
  - intros Hrows2 Hcols1 Halphas.
    unfold run, plot_generated_set. fold rows cols alphas.
    rewrite Hcols1.
    destruct alphas as [|alphas']; [lia|].
    destruct rows as [|[|rows']]; try lia.
    reflexivity.
Qed.

Lemma plot_generated_set_axes_witness :
  plot_generated_set (Return tt)
    (Settings [-3; -2; -1]%Q 1%Q [10; 20]%Q [5]%Q 1%Q 1%Q 1%Q 1%Q)
  = ([Suptitle Density 0], Throw (Exn IndexError)).
Proof.
  apply (proj2 (@plot_generated_set_axes
                  (Settings [-3; -2; -1]%Q 1%Q [10; 20]%Q [5]%Q 1%Q 1%Q 1%Q
                     1%Q) ltac:(simpl; lia) ltac:(simpl; lia)));
    simpl; lia.
Defined.


(** ** The script of the multiple powers never reports *)

Section MultiplePowerProperties.

Variable V : Type.
Variable infer : nat -> nat -> io (String.string * list V).
Variable print_statistics : nat -> nat -> V -> V -> V -> V -> io unit.

Lemma results_loop_eq (s : script_state V) (i : nat) :
  results_loop infer s i =
  _ <~ infer i 2 ;; _ <~ infer i 3 ;; _ <~ infer i 4 ;;
  inferred <~ infer i 5 ;;
  Return (ScriptState (Some i) (Some [(fst inferred, snd inferred)])
            (Some (fst inferred)) (Some (snd inferred))).
Proof.
  unfold results_loop. cbn [seq for_each]. unfold inference_loop at 1.
  cbn [script_index load_name io_bind].
  destruct (infer i 2) as [[v2 r2]|]; [|reflexivity]. cbn [io_bind].
  unfold inference_loop at 1. cbn [script_index load_name io_bind].
  destruct (infer i 3) as [[v3 r3]|]; [|reflexivity]. cbn [io_bind].
  unfold inference_loop at 1. cbn [script_index load_name io_bind].
  destruct (infer i 4) as [[v4 r4]|]; [|reflexivity]. cbn [io_bind].
  unfold inference_loop at 1. cbn [script_index load_name io_bind].
  destruct (infer i 5) as [[v5 r5]|]; reflexivity.
Qed.

(** After the twenty-four inferences the only key of the results is the
    last data type, and the first lookup of the report asks for "amp". *)
Lemma multiple_power_script_eq :
  let pass i :=
    (_ <~ infer i 2 ;; _ <~ infer i 3 ;; _ <~ infer i 4 ;; infer i 5) in
  multiple_power_script infer print_statistics =
  _ <~ pass 0 ;; _ <~ pass 1 ;; _ <~ pass 2 ;; _ <~ pass 3 ;; _ <~ pass 4 ;;
  _ <~ pass 5 ;; Throw KeyError.
Proof.
  intros pass. unfold multiple_power_script.
  change (seq 0 (length data_types)) with [0; 1; 2; 3; 4; 5].
  cbn [for_each].
  assert (Hpass : forall s i,
            results_loop infer s i =
            inferred <~ pass i ;;
            Return (ScriptState (Some i)
                      (Some [(fst inferred, snd inferred)])
                      (Some (fst inferred)) (Some (snd inferred)))).
  { intros s i. rewrite results_loop_eq. unfold pass.
    destruct (infer i 2); [|reflexivity].
    destruct (infer i 3); [|reflexivity].
    destruct (infer i 4); [|reflexivity].
    destruct (infer i 5); reflexivity. }
  rewrite (Hpass _ 0). destruct (pass 0); [|reflexivity]. cbn [io_bind].
  rewrite (Hpass _ 1). destruct (pass 1); [|reflexivity]. cbn [io_bind].
  rewrite (Hpass _ 2). destruct (pass 2); [|reflexivity]. cbn [io_bind].
  rewrite (Hpass _ 3). destruct (pass 3); [|reflexivity]. cbn [io_bind].
  rewrite (Hpass _ 4). destruct (pass 4); [|reflexivity]. cbn [io_bind].
  rewrite (Hpass _ 5). destruct (pass 5); reflexivity.
Qed.

(** X24. The script never reaches the end of its report.  The results are
    filed after the loops, under the last data type only, and the first
    lookup of the report asks for the data type "amp": when all the
    twenty-four inferences succeed the script ends with [KeyError] before
    it prints any statistic, and otherwise it ends with the exception of
    an inference. *)
Theorem multiple_power_script_never_reports :
  (forall done, multiple_power_script infer print_statistics <> Return done)
  /\ ((forall data_types_index model_index,
         data_types_index < 6 -> 2 <= model_index < 6 ->
         exists inferred, infer data_types_index model_index
                          = Return inferred) ->
      multiple_power_script infer print_statistics = Throw KeyError).
Proof.
  rewrite multiple_power_script_eq. cbv zeta. split.
  - intros done.
    repeat match goal with
    | |- context [infer ?i ?m] =>
        destruct (infer i m); cbn [io_bind]; [|discriminate]
    end.
    discriminate.
  - intros H.
    repeat match goal with
    | |- context [infer ?i ?m] =>
        let r := fresh "r" in
        let E := fresh "E" in
        destruct (H i m ltac:(lia) ltac:(lia)) as [r E];
        rewrite E; cbn [io_bind]
    end.
    reflexivity.
Qed.

End MultiplePowerProperties.

Lemma multiple_power_script_never_reports_witness :
  multiple_power_script
    (fun _ model_index =>
       Return (("model_resnetv"
                +++ DecimalString.NilEmpty.string_of_uint
                      (Nat.to_uint model_index))%string,
               [1; 2; 3; 4; 5; 6]))
    (fun _ _ _ _ _ _ => Return tt) = Throw KeyError.
Proof.
  apply (proj2 (@multiple_power_script_never_reports nat
                  (fun _ model_index =>
                     Return (("model_resnetv"
                              +++ DecimalString.NilEmpty.string_of_uint
                                    (Nat.to_uint model_index))%string,
                             [1; 2; 3; 4; 5; 6]))
                  (fun _ _ _ _ _ _ => Return tt))).
  intros i m _ _. eexists. reflexivity.
Defined.
